(** * Irrigation system: zone/valve scheduling, leak detection, tank levels

    A shallow embedding of the scheduling core of the irrigation controller
    (system.js, valve.js and watertank.js) and the properties of its natural
    language specification.

    Conventions of the embedding.
    - [Date.now()] is an input of every operation: [now] is
      [Math.floor(Date.now() / 1000)] (seconds), [nowMs] is [Date.now()].
    - A JavaScript number that only ever holds an integer (a time stamp, a
      duration characteristic, a counter) is a [Z]; a number obtained by a
      division whose divisor cannot be zero (valve end time, leak fraction) is
      an exact [Q]; the numbers of the tank computation, where a division by
      zero can happen, are [JsNum.t], with NaN and the infinities.  [Q] and
      [JsNum.t] do not round: the tank readings that are evaluated below have
      intermediate values that binary64 represents exactly.  The sample of
      the flow sensor, whose value depends on the rounding, is computed in
      binary64 ([Double]).
    - [undefined] is [None].
    - An uncaught [TypeError] is the result [None] of an operation; every
      operation returns [option System].
    - The event emitter is present and delivers an event to its listeners
      before [emit] returns, as node's [EventEmitter] does.
    - The HomeKit library is seen through the characteristic values the code
      reads and writes ([updateCharacteristic] stores, [getCharacteristic]
      reads) and through what it does on a write request to an Active
      characteristic: it calls the handler set with [onSet] and then stores
      the written value ([onSetZoneActive], [onSetSystemActive]).  History
      and logging calls have no effect on the state. *)

From Stdlib Require Import ZArith QArith Qminmax Qround String List Bool Lia Lqa.
From Stdlib Require Import SpecFloat.
From stdpp Require Import base option list gmap strings fin_maps.

Local Open Scope Z_scope.

(** ** JavaScript numbers with NaN and infinities (exact on finite values) *)

Module JsNum.

Inductive t := Fin (q : Q) | PInf | NInf | NaN.

Definition sgn (q : Q) : comparison := (q ?= 0)%Q.

Definition add (a b : t) : t :=
  match a, b with
  | NaN, _ | _, NaN => NaN
  | Fin x, Fin y => Fin (x + y)
  | PInf, NInf | NInf, PInf => NaN
  | PInf, _ | _, PInf => PInf
  | NInf, _ | _, NInf => NInf
  end.

Definition neg (a : t) : t :=
  match a with
  | Fin x => Fin (- x)
  | PInf => NInf
  | NInf => PInf
  | NaN => NaN
  end.

Definition sub (a b : t) : t := add a (neg b).

Definition inf_of (c : comparison) : t :=
  match c with Gt => PInf | Lt => NInf | Eq => NaN end.

Definition flip (c : comparison) : comparison :=
  match c with Gt => Lt | Lt => Gt | Eq => Eq end.

Definition mul (a b : t) : t :=
  match a, b with
  | NaN, _ | _, NaN => NaN
  | Fin x, Fin y => Fin (x * y)
  | Fin x, PInf | PInf, Fin x => inf_of (sgn x)
  | Fin x, NInf | NInf, Fin x => inf_of (flip (sgn x))
  | PInf, PInf | NInf, NInf => PInf
  | PInf, NInf | NInf, PInf => NInf
  end.

(** [x / 0] is NaN for [x = 0] and an infinity otherwise (the sign of a
    zero divisor is taken as positive). *)
Definition div (a b : t) : t :=
  match a, b with
  | NaN, _ | _, NaN => NaN
  | Fin x, Fin y =>
      if Qeq_bool y 0 then inf_of (sgn x) else Fin (x / y)
  | Fin _, (PInf | NInf) => Fin 0
  | (PInf | NInf), (PInf | NInf) => NaN
  | PInf, Fin y => match sgn y with Lt => NInf | _ => PInf end
  | NInf, Fin y => match sgn y with Lt => PInf | _ => NInf end
  end.

(** [a < b]; false as soon as one side is NaN. *)
Definition lt (a b : t) : bool :=
  match a, b with
  | NaN, _ | _, NaN => false
  | Fin x, Fin y => negb (Qle_bool y x)
  | NInf, (Fin _ | PInf) => true
  | Fin _, PInf => true
  | _, _ => false
  end.

Definition gt (a b : t) : bool := lt b a.

(** [a !== 0] *)
Definition nonzero (a : t) : bool :=
  match a with Fin x => negb (Qeq_bool x 0) | _ => true end.

Definition ofZ (z : Z) : t := Fin (inject_Z z).

(** The number lies in the closed interval from 0 to 100. *)
Definition in_0_100 (a : t) : Prop :=
  match a with Fin x => (0 <= x /\ x <= 100)%Q | _ => False end.

End JsNum.

(** ** JavaScript numbers as binary64 doubles *)

Module Double.

Definition prec : Z := 53.
Definition emax : Z := 1024.

Definition t : Type := spec_float.

(** The double of an integer (exact below 2^53). *)
Definition ofZ (z : Z) : t := binary_normalize prec emax z 0 false.

Definition mul : t -> t -> t := SFmul prec emax.
Definition div : t -> t -> t := SFdiv prec emax.

End Double.

(** ** valve.js *)

Module Valve.

Inductive Status := OPENED | CLOSED.

(** The object passed to the listeners of [Valve.VALVEEVENT]. *)
Record Event := mkEvent {
  e_uuid : string;
  e_pin : Z;
  e_status : Status;
  e_time : Z;
  e_water : Q;
  e_duration : Z
}.

Record t := mk {
  uuid : string;
  GPIO_ValvePin : option Z;      (* undefined when no valid relay pin *)
  valveOpenedTime : option Z;    (* undefined while closed *)
  waterAmount : Q
}.

(** [constructor]: the pin is kept only when it is a number in 0..26.
    [waterAmount], undefined in the source until the first [open], is 0: it
    is read by [close] and by the flow listener only, and every valve that
    the controller closes has been opened before. *)
Definition new (id : string) (pin : option Z) : t :=
  mk id
     (match pin with
      | Some p => if (0 <=? p) && (p <=? 26) then Some p else None
      | None => None
      end)
     None 0.

Definition isOpen (v : t) : bool :=
  match valveOpenedTime v with Some _ => true | None => false end.

Definition open (now : Z) (v : t) : t * option Event :=
  match GPIO_ValvePin v with
  | None => (v, None)
  | Some pin =>
      (mk (uuid v) (Some pin) (Some now) 0,
       Some (mkEvent (uuid v) pin OPENED now 0 0))
  end.

Definition close (now : Z) (v : t) : t * option Event :=
  match GPIO_ValvePin v with
  | None => (v, None)
  | Some pin =>
      let duration :=
        match valveOpenedTime v with Some t0 => now - t0 | None => 0 end in
      (mk (uuid v) (Some pin) None 0,
       Some (mkEvent (uuid v) pin CLOSED now (waterAmount v) duration))
  end.

(** The valve's own listener of [Valve.FLOWEVENT]. *)
Definition onFlow (volume : Q) (v : t) : t :=
  if isOpen v
  then mk (uuid v) (GPIO_ValvePin v) (valveOpenedTime v)
          (waterAmount v + volume)%Q
  else v.

Definition open_count (vs : list t) : nat :=
  length (filter (fun v => isOpen v = true) vs).

Definition all_closed (vs : list t) : Prop :=
  Forall (fun v => isOpen v = false) vs.

End Valve.

(** ** watertank.js *)

Module WaterTank.

Definition USONICMINRANGE : Q := 200.
Definition USONICMAXRANGE : Q := 4500.

(** What one run of the measuring helper writes on its standard output. *)
Inductive Reading :=
| OutOfRange                (* the text OUT OF RANGE *)
| Distance (cm : Q)         (* the text Distance: cm *)
| NoOutput.

Record t := mk {
  uuid : string;
  sensorHeight : Q;
  minimumLevel : Q;
  waterlevel : option JsNum.t;   (* undefined until a reading succeeds *)
  percentage : option JsNum.t
}.

(** [if (v < bound) v = bound] and [if (v > bound) v = bound]. *)
Definition raiseTo (bound v : Q) : Q := if Qle_bool bound v then v else bound.
Definition capAt (bound v : Q) : Q := if Qle_bool v bound then v else bound.

Definition scaleValue
    (value sourceRangeMin sourceRangeMax targetRangeMin targetRangeMax : Q)
    : JsNum.t :=
  let value := raiseTo sourceRangeMin value in
  let value := capAt sourceRangeMax value in
  JsNum.add
    (JsNum.div
       (JsNum.Fin ((value - sourceRangeMin) * (targetRangeMax - targetRangeMin)))
       (JsNum.Fin (sourceRangeMax - sourceRangeMin)))
    (JsNum.Fin targetRangeMin).

(** The [data] listener of one reading: the new [actualDistance]. *)
Definition measure (height : Q) (r : Reading) : Q :=
  match r with
  | NoOutput => 0
  | OutOfRange => USONICMINRANGE
  | Distance cm =>
      let d := (cm * 10)%Q in
      let d := raiseTo USONICMINRANGE d in
      let d := capAt USONICMAXRANGE d in
      capAt height d
  end.

(** The percentage computed from an average distance. *)
Definition percentageOf (height minimum averageDistance : Q) : JsNum.t * JsNum.t :=
  let range := (height - minimum)%Q in
  let level :=
    JsNum.sub (JsNum.Fin range)
              (scaleValue averageDistance USONICMINRANGE range 0 range) in
  let p := JsNum.mul (JsNum.div level (JsNum.Fin range)) (JsNum.ofZ 100) in
  let p := if JsNum.lt p (JsNum.ofZ 0) then JsNum.ofZ 0 else p in
  let p := if JsNum.gt p (JsNum.ofZ 100) then JsNum.ofZ 100 else p in
  (level, p).

(** [#readUsonicSensor] with [USONICREADINGS = 1]: the tank afterwards and
    whether a [WATERLEVEL] event is emitted. *)
Definition readUsonicSensor (r : Reading) (tank : t) : t * bool :=
  let actualDistance := measure (sensorHeight tank) r in
  let averageDistance :=
    match r with NoOutput => 0%Q | _ => (0 + actualDistance)%Q end in
  if negb (Qeq_bool averageDistance 0) && negb (Qeq_bool actualDistance 0)
  then
    let averageDistance := (averageDistance / 1)%Q in
    let '(level, p) :=
      percentageOf (sensorHeight tank) (minimumLevel tank) averageDistance in
    (mk (uuid tank) (sensorHeight tank) (minimumLevel tank) (Some level) (Some p),
     true)
  else (tank, false).

End WaterTank.

(** ** system.js *)

Module IrrigationSystem.

(** Milliseconds by its comment; compared with a number of seconds. *)
Definition WATERLEAKTIMEOUT : Z := 10000.
Definition FLOWDATABUFFER : Z := 30000.

(** Event tags.  [Valve] declares [FLOWEVENT] and [VALVEEVENT] only, so
    [Valve.WATERLEVEL] evaluates to undefined. *)
Definition Valve_FLOWEVENT : option string := Some "FLOWEVENT"%string.
Definition Valve_VALVEEVENT : option string := Some "VALVEEVENT"%string.
Definition Valve_WATERLEVEL : option string := None.
Definition WaterTank_WATERLEVEL : option string := Some "WATERLEVEL"%string.

(** A value written to an Active characteristic or passed as power value:
    a boolean, a number ([ACTIVE] is 1, [INACTIVE] is 0) or anything else. *)
Inductive Value := VBool (b : bool) | VNum (n : Z) | VStr (t : string) | VOther.

Definition isActiveValue (v : Value) : bool :=
  match v with VNum 1 | VBool true => true | _ => false end.
Definition isInactiveValue (v : Value) : bool :=
  match v with VNum 0 | VBool false => true | _ => false end.

(** The characteristics of a zone's valve service. *)
Record Service := mkService {
  Active : bool;
  InUse : bool;
  RemainingDuration : Z;
  SetDuration : Z;
  IsConfigured : bool;
  ConfiguredName : string
}.

(** An entry of [#zones].  [timer] is the running interval, identified with
    what its closure captured: the index of the zone object in
    [deviceData.zones] and [endTime]. *)
Record Zone := mkZone {
  service : Service;
  valves : list Valve.t;
  timer : option (nat * Z);
  totalwater : Q;
  totalduration : Z
}.

(** An element of [deviceData.zones]. *)
Record ZoneConfig := mkZoneConfig {
  uuid : string;
  name : string;
  enabled : bool;
  runtime : Z
}.

Record FlowSample := mkFlow {
  time : Z;        (* milliseconds *)
  rate : Q;
  volume : Q
}.

Inductive RequestType := system | switch | valve.

(** An element of [activeCheck]; [context] is the index of the zone object
    for a valve request. *)
Record ActiveCheck := mkCheck {
  context : option nat;
  value : Value;
  type : RequestType;
  takeaction : bool
}.

Record System := mkSystem {
  power : bool;                          (* deviceData.power *)
  pauseTimeout : Z;                      (* deviceData.pauseTimeout *)
  waterLeakAlert : bool;                 (* deviceData.waterLeakAlert *)
  dzones : list ZoneConfig;              (* deviceData.zones *)
  zones : gmap string Zone;              (* #zones *)
  tanks : list WaterTank.t;              (* Object.values(#tanks) *)
  lastValveClose : Z;
  flowData : list FlowSample;
  leakDetected : bool;
  leakSensorService : option bool;       (* its LeakDetected characteristic *)
  irrigationActive : bool;               (* irrigationService: Active *)
  irrigationInUse : bool;                (* irrigationService: InUse *)
  programMode : Z;                       (* irrigationService: ProgramMode *)
  WaterLevel : option JsNum.t;           (* irrigationService: WaterLevel *)
  activeCheck : list ActiveCheck;
  activeCheckTimer : bool
}.

(** *** Field updates *)

Definition with_zones (zs : gmap string Zone) (s : System) : System :=
  mkSystem (power s) (pauseTimeout s) (waterLeakAlert s) (dzones s) zs
    (tanks s) (lastValveClose s) (flowData s) (leakDetected s)
    (leakSensorService s) (irrigationActive s) (irrigationInUse s)
    (programMode s) (WaterLevel s) (activeCheck s) (activeCheckTimer s).

Definition with_dzones (ds : list ZoneConfig) (s : System) : System :=
  mkSystem (power s) (pauseTimeout s) (waterLeakAlert s) ds (zones s)
    (tanks s) (lastValveClose s) (flowData s) (leakDetected s)
    (leakSensorService s) (irrigationActive s) (irrigationInUse s)
    (programMode s) (WaterLevel s) (activeCheck s) (activeCheckTimer s).

Definition with_lastValveClose (t : Z) (s : System) : System :=
  mkSystem (power s) (pauseTimeout s) (waterLeakAlert s) (dzones s) (zones s)
    (tanks s) t (flowData s) (leakDetected s)
    (leakSensorService s) (irrigationActive s) (irrigationInUse s)
    (programMode s) (WaterLevel s) (activeCheck s) (activeCheckTimer s).

Definition with_flowData (fd : list FlowSample) (s : System) : System :=
  mkSystem (power s) (pauseTimeout s) (waterLeakAlert s) (dzones s) (zones s)
    (tanks s) (lastValveClose s) fd (leakDetected s)
    (leakSensorService s) (irrigationActive s) (irrigationInUse s)
    (programMode s) (WaterLevel s) (activeCheck s) (activeCheckTimer s).

(** [leakDetected] together with the sensor's characteristic. *)
Definition with_leak (flag : bool) (svc : option bool) (s : System) : System :=
  mkSystem (power s) (pauseTimeout s) (waterLeakAlert s) (dzones s) (zones s)
    (tanks s) (lastValveClose s) (flowData s) flag
    svc (irrigationActive s) (irrigationInUse s)
    (programMode s) (WaterLevel s) (activeCheck s) (activeCheckTimer s).

(** [deviceData.power] together with the irrigation service. *)
Definition with_power (p act inuse : bool) (mode : Z) (s : System) : System :=
  mkSystem p (pauseTimeout s) (waterLeakAlert s) (dzones s) (zones s)
    (tanks s) (lastValveClose s) (flowData s) (leakDetected s)
    (leakSensorService s) act inuse
    mode (WaterLevel s) (activeCheck s) (activeCheckTimer s).

Definition with_WaterLevel (l : option JsNum.t) (s : System) : System :=
  mkSystem (power s) (pauseTimeout s) (waterLeakAlert s) (dzones s) (zones s)
    (tanks s) (lastValveClose s) (flowData s) (leakDetected s)
    (leakSensorService s) (irrigationActive s) (irrigationInUse s)
    (programMode s) l (activeCheck s) (activeCheckTimer s).

Definition with_tanks (ts : list WaterTank.t) (s : System) : System :=
  mkSystem (power s) (pauseTimeout s) (waterLeakAlert s) (dzones s) (zones s)
    ts (lastValveClose s) (flowData s) (leakDetected s)
    (leakSensorService s) (irrigationActive s) (irrigationInUse s)
    (programMode s) (WaterLevel s) (activeCheck s) (activeCheckTimer s).

Definition with_activeCheck (l : list ActiveCheck) (t : bool) (s : System) : System :=
  mkSystem (power s) (pauseTimeout s) (waterLeakAlert s) (dzones s) (zones s)
    (tanks s) (lastValveClose s) (flowData s) (leakDetected s)
    (leakSensorService s) (irrigationActive s) (irrigationInUse s)
    (programMode s) (WaterLevel s) l t.

Definition with_service (f : Service -> Service) (z : Zone) : Zone :=
  mkZone (f (service z)) (valves z) (timer z) (totalwater z) (totalduration z).
Definition with_valves (vs : list Valve.t) (z : Zone) : Zone :=
  mkZone (service z) vs (timer z) (totalwater z) (totalduration z).
Definition with_timer (t : option (nat * Z)) (z : Zone) : Zone :=
  mkZone (service z) (valves z) t (totalwater z) (totalduration z).
Definition with_totals (w : Q) (d : Z) (z : Zone) : Zone :=
  mkZone (service z) (valves z) (timer z) w d.

Definition set_Active (b : bool) (sv : Service) : Service :=
  mkService b (InUse sv) (RemainingDuration sv) (SetDuration sv)
    (IsConfigured sv) (ConfiguredName sv).
Definition set_InUse (b : bool) (sv : Service) : Service :=
  mkService (Active sv) b (RemainingDuration sv) (SetDuration sv)
    (IsConfigured sv) (ConfiguredName sv).
Definition set_RemainingDuration (d : Z) (sv : Service) : Service :=
  mkService (Active sv) (InUse sv) d (SetDuration sv)
    (IsConfigured sv) (ConfiguredName sv).
Definition set_SetDuration (d : Z) (sv : Service) : Service :=
  mkService (Active sv) (InUse sv) (RemainingDuration sv) d
    (IsConfigured sv) (ConfiguredName sv).
Definition set_IsConfigured (b : bool) (sv : Service) : Service :=
  mkService (Active sv) (InUse sv) (RemainingDuration sv) (SetDuration sv)
    b (ConfiguredName sv).
Definition set_ConfiguredName (n : string) (sv : Service) : Service :=
  mkService (Active sv) (InUse sv) (RemainingDuration sv) (SetDuration sv)
    (IsConfigured sv) n.

(** [this.#zones[id] ... = ...]: an update of an existing entry. *)
Definition update_zone (id : string) (f : Zone -> Zone) (s : System) : System :=
  with_zones (alter f id (zones s)) s.

(** [array.forEach] with a callback that may throw. *)
Fixpoint forEach {A} (f : A -> System -> option System) (l : list A)
    (s : System) : option System :=
  match l with
  | [] => Some s
  | x :: l' => s' ← f x s; forEach f l' s'
  end.

(** *** Counters *)

Definition numberRunningZones (s : System) : nat :=
  map_fold (fun _ z n => if Active (service z) then S n else n) 0%nat (zones s).

Definition numberEnabledZones (s : System) : nat :=
  map_fold (fun _ z n => if IsConfigured (service z) then S n else n) 0%nat
           (zones s).

(** *** messageServices *)

Inductive Message :=
| FlowMessage (f : FlowSample)
| ValveMessage (e : Valve.Event)
| LevelMessage (id : string) (level pct : JsNum.t).

(** Water level: the sum of [tank.percentage], an undefined percentage
    turning the sum into NaN, capped at 100. *)
Definition plusPercentage (total : JsNum.t) (p : option JsNum.t) : JsNum.t :=
  match p with Some x => JsNum.add total x | None => JsNum.NaN end.

Definition totalPercentage (ts : list WaterTank.t) : JsNum.t :=
  let total :=
    foldl (fun acc tank => plusPercentage acc (WaterTank.percentage tank))
          (JsNum.ofZ 0) ts in
  if JsNum.gt total (JsNum.ofZ 100) then JsNum.ofZ 100 else total.

Definition onWaterLevel (s : System) : System :=
  with_WaterLevel (Some (totalPercentage (tanks s))) s.

(** Flow: the buffer, then the leak decision. *)
Definition pushFlow (f : FlowSample) (fd : list FlowSample) : list FlowSample :=
  let fd := fd ++ [f] in
  match fd with
  | first :: rest => if FLOWDATABUFFER <? time f - time first then rest else fd
  | [] => fd
  end.

Definition nonZeroVolume (fd : list FlowSample) : nat :=
  length (List.filter (fun x => negb (Qeq_bool (volume x) 0)) fd).

(** [(nonZeroVolume / this.flowData.length) * 100] *)
Definition nonZeroPercent (fd : list FlowSample) : Q :=
  (inject_Z (Z.of_nat (nonZeroVolume fd)) / inject_Z (Z.of_nat (length fd)) * 100)%Q.

Definition Qgt_bool (a b : Q) : bool := negb (Qle_bool a b).

(** The first test under [leakSensorService !== undefined]. *)
Definition raiseLeak (now : Z) (s : System) : System :=
  if (numberRunningZones s =? 0)%nat
     && Qgt_bool (nonZeroPercent (flowData s)) 80
  then
    if (lastValveClose s =? 0)
       || (negb (lastValveClose s =? 0)
           && (WATERLEAKTIMEOUT <? now - lastValveClose s))
    then
      if negb (leakDetected s)
      then with_leak true
             (if waterLeakAlert s then Some true else leakSensorService s) s
      else s
    else s
  else s.

(** The second test. *)
Definition clearLeak (s : System) : System :=
  if (numberRunningZones s =? 0)%nat && (nonZeroVolume (flowData s) =? 0)%nat
  then if leakDetected s then with_leak false (Some false) s else s
  else s.

Definition onFlow (f : FlowSample) (now : Z) (s : System) : System :=
  let s := with_flowData (pushFlow f (flowData s)) s in
  match leakSensorService s with
  | None => s
  | Some _ => clearLeak (raiseLeak now s)
  end.

(** Valve events: the zone of the valve, then the totals. *)
Definition hasValve (id : string) (z : Zone) : bool :=
  negb (length (filter (fun v => Valve.uuid v = id) (valves z)) =? 0)%nat.

(** [None] when an element of [deviceData.zones] has no entry in [#zones]:
    [this.#zones[zone.uuid].valves] throws. *)
Definition associatedZone (id : string) (s : System) : option (option ZoneConfig) :=
  foldl (fun acc zone =>
           a ← acc;
           z ← zones s !! uuid zone;
           Some (if hasValve id z then Some zone else a))
        (Some None) (dzones s).

Definition onValveEvent (m : Valve.Event) (s : System) : option System :=
  a ← associatedZone (Valve.e_uuid m) s;
  match Valve.e_status m, a with
  | Valve.CLOSED, Some zone =>
      match zones s !! uuid zone with
      | Some _ =>
          Some (update_zone (uuid zone)
                  (fun z => with_totals (totalwater z + Valve.e_water m)%Q
                                        (totalduration z + Valve.e_duration m) z)
                  (with_lastValveClose (Valve.e_time m) s))
      | None => Some s
      end
  | _, _ => Some s
  end.

(** The three tests of [messageServices], in the order of the source.  Every
    emitter pairs a tag with its own message shape; a message of another
    shape is left alone. *)
Definition messageServices (type : option string) (message : Message)
    (now : Z) (s : System) : option System :=
  let s1 := if decide (type = Valve_WATERLEVEL) then onWaterLevel s else s in
  let s2 :=
    if decide (type = Valve_FLOWEVENT)
    then match message with FlowMessage f => onFlow f now s1 | _ => s1 end
    else s1 in
  if decide (type = Valve_VALVEEVENT)
  then match message with ValveMessage e => onValveEvent e s2 | _ => Some s2 end
  else Some s2.

(** The listeners of a flow event: every valve, then the system. *)
Definition flowEvent (f : FlowSample) (now : Z) (s : System) : option System :=
  messageServices Valve_FLOWEVENT (FlowMessage f) now
    (with_zones
       ((fun z => with_valves (Valve.onFlow (volume f) <$> valves z) z) <$> zones s)
       s).

(** The listener of a water level event. *)
Definition waterLevelEvent (id : string) (level pct : JsNum.t) (now : Z)
    (s : System) : option System :=
  messageServices WaterTank_WATERLEVEL (LevelMessage id level pct) now s.

(** A tank takes a reading and, when it succeeds, emits its event. *)
Definition tankReading (index : nat) (r : WaterTank.Reading) (now : Z)
    (s : System) : option System :=
  match tanks s !! index with
  | None => Some s
  | Some tank =>
      let res := WaterTank.readUsonicSensor r tank in
      let s1 := with_tanks (<[index := res.1]> (tanks s)) s in
      if res.2
      then
        match WaterTank.waterlevel res.1, WaterTank.percentage res.1 with
        | Some l, Some p => waterLevelEvent (WaterTank.uuid tank) l p now s1
        | _, _ => Some s1
        end
      else Some s1
  end.

(** *** Valves of a zone *)

Definition emit (e : option Valve.Event) (now : Z) (s : System) : option System :=
  match e with
  | Some m => messageServices Valve_VALVEEVENT (ValveMessage m) now s
  | None => Some s
  end.

Definition setValve (id : string) (index : nat) (v : Valve.t) (s : System) : System :=
  update_zone id (fun z => with_valves (<[index := v]> (valves z)) z) s.

(** [this.#zones[id].valves[index].open()] *)
Definition openValve (id : string) (index : nat) (now : Z) (s : System)
    : option System :=
  z ← zones s !! id;
  v ← valves z !! index;
  s1 ← emit (Valve.open now v).2 now s;
  Some (setValve id index (Valve.open now v).1 s1).

(** [this.#zones[id].valves[index].close()] *)
Definition closeValve (id : string) (index : nat) (now : Z) (s : System)
    : option System :=
  z ← zones s !! id;
  v ← valves z !! index;
  s1 ← emit (Valve.close now v).2 now s;
  Some (setValve id index (Valve.close now v).1 s1).

(** [valves.forEach((valve) => { if (valve.isOpen() === true) valve.close() })] *)
Definition closeIfOpen (id : string) (now : Z) (index : nat) (s : System)
    : option System :=
  z ← zones s !! id;
  v ← valves z !! index;
  if Valve.isOpen v then closeValve id index now s else Some s.

(** *** Zones *)

Definition validValue (v : Value) : bool :=
  match v with VBool _ | VNum 0 | VNum 1 => true | _ => false end.

Definition stopped (sv : Service) : Service :=
  set_RemainingDuration 0 (set_InUse false (set_Active false sv)).

(** The body of the last test of [setZoneActive]: the timer is cancelled,
    the service is made inactive, the open valves are closed. *)
Definition stopZone (id : string) (now : Z) (s : System) : option System :=
  z ← zones s !! id;
  forEach (closeIfOpen id now) (seq 0 (length (valves z)))
    (update_zone id (fun z => with_service stopped (with_timer None z)) s).

(** [setZoneActive(zone, INACTIVE)], the call made by the code itself; of
    the three tests only the last one can hold. *)
Definition setZoneInactive (index : nat) (now : Z) (s : System) : option System :=
  match dzones s !! index with
  | None => Some s
  | Some zone =>
      match zones s !! uuid zone with
      | None => Some s
      | Some _ =>
          if negb (enabled zone) then Some s
          else if power s then stopZone (uuid zone) now s
          else Some s
      end
  end.

(** The callback of the two loops over [deviceData.zones] that stop the
    zones whose service is active. *)
Definition stopIfActive (now : Z) (index : nat) (s : System) : option System :=
  match dzones s !! index with
  | None => Some s
  | Some zone =>
      match zones s !! uuid zone with
      | Some z => if Active (service z) then setZoneInactive index now s else Some s
      | None => Some s
      end
  end.

Definition stopActiveZones (now : Z) (s : System) : option System :=
  forEach (stopIfActive now) (seq 0 (length (dzones s))) s.

Definition started (d : Z) (sv : Service) : Service :=
  set_RemainingDuration d (set_InUse true (set_Active true sv)).

(** The body of the first test of [setZoneActive].  The interval it creates
    replaces the handle kept in [timer]. *)
Definition startZone (index : nat) (zone : ZoneConfig) (now : Z) (s : System)
    : option System :=
  s1 ← (if negb (numberRunningZones s =? 0)%nat
        then stopActiveZones now s else Some s);
  let id := uuid zone in
  let s2 := update_zone id (with_totals 0 0) s1 in
  z ← zones s2 !! id;
  s3 ← (if (0 <? length (valves z))%nat then openValve id 0 now s2 else Some s2);
  z3 ← zones s3 !! id;
  let d := SetDuration (service z3) in
  Some (update_zone id
          (fun z => with_timer (Some (index, now + d)) (with_service (started d) z))
          s3).

(** The callback of the 500 ms timeout set when a zone is asked to start
    while the power is off.  It tests nothing and closes no valve. *)
Definition revertTimeout (id : string) (s : System) : option System :=
  _ ← zones s !! id;
  Some (update_zone id (fun z => with_service stopped (with_timer None z)) s).

(** Whether [setZoneActive] sets that timeout: the guards, and the second
    test. *)
Definition setsRevertTimeout (index : nat) (value : Value) (s : System) : bool :=
  match dzones s !! index with
  | None => false
  | Some zone =>
      validValue value
      && bool_decide (is_Some (zones s !! uuid zone))
      && enabled zone
      && negb (power s) && isActiveValue value
  end.

Definition setZoneActive (index : nat) (value : Value) (now : Z) (s : System)
    : option System :=
  match dzones s !! index with
  | None => Some s
  | Some zone =>
      if negb (validValue value) then Some s
      else
        match zones s !! uuid zone with
        | None => Some s
        | Some _ =>
            if negb (enabled zone) then Some s
            else
              s1 ← (if power s && isActiveValue value
                    then startZone index zone now s else Some s);
              (* power off and an activation: only the timeout is set *)
              if power s1 && isInactiveValue value
              then stopZone (uuid zone) now s1 else Some s1
        end
  end.

(** The end time of the valve at [index]:
    [endTime - (SetDuration / valves.length) * (valves.length - index - 1)] *)
Definition valveEndTime (endTime duration : Z) (count index : nat) : Q :=
  (inject_Z endTime
   - inject_Z duration / inject_Z (Z.of_nat count)
     * inject_Z (Z.of_nat count - Z.of_nat index - 1))%Q.

(** The callback of [valves.forEach] in the interval. *)
Definition handOver (id : string) (endTime now : Z) (index : nat) (s : System)
    : option System :=
  z ← zones s !! id;
  v ← valves z !! index;
  if Valve.isOpen v
  then
    let count := length (valves z) in
    let zoneEndTime := valveEndTime endTime (SetDuration (service z)) count index in
    if Qle_bool zoneEndTime (inject_Z now) && (Z.of_nat index <? Z.of_nat count - 1)
    then s1 ← closeValve id index now s; openValve id (index + 1) now s1
    else Some s
  else Some s.

(** The callback of the 1 s interval of a running zone. *)
Definition zoneTimer (index : nat) (endTime now : Z) (s : System) : option System :=
  zone ← dzones s !! index;
  s1 ← (if now <? endTime
        then
          z ← zones s !! uuid zone;
          forEach (handOver (uuid zone) endTime now) (seq 0 (length (valves z)))
            (update_zone (uuid zone)
               (with_service (set_RemainingDuration (endTime - now))) s)
        else Some s);
  if endTime <? now then setZoneInactive index now s1 else Some s1.

(** *** Power and pause *)

Definition NO_PROGRAM_SCHEDULED : Z := 0.
Definition PROGRAM_SCHEDULED_MANUAL_MODE : Z := 2.

Definition isOffValue (v : Value) : bool :=
  match v with
  | VBool false | VNum 0 => true
  | VStr t => if decide (t = "off"%string \/ t = "OFF"%string) then true else false
  | _ => false
  end.

Definition isOnValue (v : Value) : bool :=
  match v with
  | VBool true | VNum 1 => true
  | VStr t => if decide (t = "on"%string \/ t = "ON"%string) then true else false
  | _ => false
  end.

(** [this.set] hands the values to the configuration file writer and
    changes nothing that is modelled here. *)
Definition setPower (value : Value) (now : Z) (s : System) : option System :=
  let s0 := with_power (power s) (irrigationActive s) false (programMode s) s in
  s1 ← (if isOffValue value
        then
          s' ← stopActiveZones now s0;
          Some (with_power false false (irrigationInUse s') NO_PROGRAM_SCHEDULED s')
        else Some s0);
  Some (if isOnValue value
        then with_power true true (irrigationInUse s1)
               PROGRAM_SCHEDULED_MANUAL_MODE s1
        else s1).

(** The callback of the 5 s interval; the boolean tells whether
    [setPower(true)] was called. *)
Definition pauseTimer (now : Z) (s : System) : option (System * bool) :=
  if negb (pauseTimeout s =? 0) && (pauseTimeout s <=? now)
  then s' ← setPower (VBool true) now s; Some (s', true)
  else Some (s, false).

(** *** Zone settings *)

Definition setConfig (index : nat) (f : ZoneConfig -> ZoneConfig) (s : System)
    : System :=
  with_dzones (alter f index (dzones s)) s.

Definition set_enabled (b : bool) (c : ZoneConfig) : ZoneConfig :=
  mkZoneConfig (uuid c) (name c) b (runtime c).
Definition set_runtime (r : Z) (c : ZoneConfig) : ZoneConfig :=
  mkZoneConfig (uuid c) (name c) (enabled c) r.
Definition set_name (n : string) (c : ZoneConfig) : ZoneConfig :=
  mkZoneConfig (uuid c) n (enabled c) (runtime c).

(** [value] is the number that the handler of SetDuration receives from
    HomeKit, [None] standing for NaN; values of other types are not
    modelled.  The SetDuration characteristic is taken to store the number
    as it is. *)
Definition setZoneRuntime (index : nat) (value : option Z) (s : System)
    : option System :=
  match dzones s !! index, value with
  | Some zone, Some v =>
      match zones s !! uuid zone with
      | None => Some s
      | Some _ =>
          Some (update_zone (uuid zone) (with_service (set_SetDuration v))
                  (setConfig index (set_runtime v) s))
      end
  | _, _ => Some s
  end.

(** [value] is [None] when it is not a string. *)
Definition setZoneName (index : nat) (value : option string) (s : System)
    : option System :=
  match dzones s !! index, value with
  | Some zone, Some v =>
      if decide (v = ""%string) then Some s
      else
        match zones s !! uuid zone with
        | None => Some s
        | Some _ =>
            Some (update_zone (uuid zone) (with_service (set_ConfiguredName v))
                    (setConfig index (set_name v) s))
        end
  | _, _ => Some s
  end.

(** [CONFIGURED] is 1 and [NOT_CONFIGURED] is 0. *)
Definition setZoneEnabled (index : nat) (value : Value) (now : Z) (s : System)
    : option System :=
  match dzones s !! index with
  | None => Some s
  | Some zone =>
      if negb (validValue value) then Some s
      else
        match zones s !! uuid zone with
        | None => Some s
        | Some z =>
            s1 ← (if isInactiveValue value && Active (service z)
                  then setZoneInactive index now s else Some s);
            let on := isActiveValue value in
            Some (update_zone (uuid zone) (with_service (set_IsConfigured on))
                    (setConfig index (set_enabled on) s1))
        end
  end.

(** *** Requests from HomeKit: [#processActiveCharacteristic] *)

Definition processActiveCharacteristic (ctx : option nat) (v : Value)
    (t : RequestType) (s : System) : System :=
  with_activeCheck (activeCheck s ++ [mkCheck ctx v t true]) true s.

(** A write request from HomeKit to the Active characteristic of the zone
    at [index], or of the irrigation service: the library calls the handler
    set with [onSet], which is [#processActiveCharacteristic], and stores the
    written value in the characteristic when the handler has returned, long
    before the 500 ms timeout of the batch.  The two 500 ms workarounds of
    the source, which put Active back to INACTIVE, rely on it.  The uuids of
    the zone objects are taken to be distinct, so that the service written
    is the one of the entry. *)
Definition onSetZoneActive (index : nat) (v : Value) (s : System) : System :=
  let s1 := processActiveCharacteristic (Some index) v valve s in
  match dzones s !! index with
  | Some zone =>
      update_zone (uuid zone) (with_service (set_Active (isActiveValue v))) s1
  | None => s1
  end.

Definition onSetSystemActive (v : Value) (s : System) : System :=
  let s1 := processActiveCharacteristic None v system s in
  with_power (power s1) (isActiveValue v) (irrigationInUse s1) (programMode s1) s1.

Definition isSystemType (t : RequestType) : bool :=
  match t with system | switch => true | valve => false end.
Definition isValveType (t : RequestType) : bool :=
  match t with valve => true | _ => false end.
Definition isSystem (t : RequestType) : bool :=
  match t with system => true | _ => false end.

Definition systemCount (l : list ActiveCheck) : nat :=
  length (List.filter (fun c => isSystemType (type c)) l).
Definition valveCount (l : list ActiveCheck) : nat :=
  length (List.filter (fun c => isValveType (type c)) l).

(** The callback of the 500 ms timeout set for a dropped zone request.  Its
    [context] is the zone object of [deviceData.zones], which has no
    [service]: the first statement throws and nothing is changed. *)
Definition revertDropped (ctx : option nat) (s : System) : option System := None.

(** What the timeout callback does for the requests, in order. *)
Inductive Call :=
| CallSetPower (v : Value)
| CallSetZoneActive (ctx : option nat) (v : Value)
| CallRevertZone (ctx : option nat).      (* the 500 ms timeout of a dropped request *)

(** [takeaction] after the two filters. *)
Definition takesAction (sc vc : nat) (c : ActiveCheck) (s : System) : bool :=
  let t := if isSystem (type c) && (vc =? 1)%nat then false else takeaction c in
  if isValveType (type c) && (sc =? 1)%nat && (numberEnabledZones s =? vc)%nat
  then false else t.

Definition processRequest (sc vc : nat) (now : Z) (c : ActiveCheck)
    (st : System * list Call) : option (System * list Call) :=
  let '(s, calls) := st in
  let take := takesAction sc vc c s in
  if isSystemType (type c)
  then
    if take
    then s' ← setPower (value c) now s; Some (s', calls ++ [CallSetPower (value c)])
    else Some (s, calls)
  else
    if take
    then
      s' ← match context c with
           | Some i => setZoneActive i (value c) now s
           | None => Some s
           end;
      Some (s', calls ++ [CallSetZoneActive (context c) (value c)])
    else Some (s, calls ++ [CallRevertZone (context c)]).

Fixpoint processRequests (sc vc : nat) (now : Z) (l : list ActiveCheck)
    (st : System * list Call) : option (System * list Call) :=
  match l with
  | [] => Some st
  | c :: l' => st' ← processRequest sc vc now c st; processRequests sc vc now l' st'
  end.

(** The callback of the 500 ms timeout over the collected requests. *)
Definition activeCheckTimeout (now : Z) (s : System) : option (System * list Call) :=
  let l := activeCheck s in
  st ← processRequests (systemCount l) (valveCount l) now l (s, []);
  Some (with_activeCheck [] false st.1, st.2).

(** *** [addServices]: the entries of [#zones] *)

(** The [relayPin] of a configured zone; every pin comes with the uuid that
    the valve object created for it draws. *)
Inductive RelayPin :=
| NoPin
| Pin (p : string * Z)
| Pins (ps : list (string * Z)).

Definition newService (zone : ZoneConfig) : Service :=
  mkService false false 0 (runtime zone) (enabled zone) (name zone).

Definition newValve (p : string * Z) : Valve.t := Valve.new p.1 (Some p.2).

Definition newZone (zone : ZoneConfig) (rp : RelayPin) : option Zone :=
  match rp with
  | NoPin => None
  | Pin p => Some (mkZone (newService zone) [newValve p] None 0 0)
  | Pins ps => Some (mkZone (newService zone) (newValve <$> ps) None 0 0)
  end.

Definition addZones (cfg : list (ZoneConfig * RelayPin)) : gmap string Zone :=
  foldl (fun m c =>
           match newZone c.1 c.2 with
           | Some z => <[uuid c.1 := z]> m
           | None => m
           end)
        ∅ cfg.

(** The state after [addServices].  The Active characteristic of the
    irrigation service is not written at start-up: it holds its initial
    value, INACTIVE. *)
Definition addServices (pw : bool) (pause : Z) (alert leakSensor : bool)
    (cfg : list (ZoneConfig * RelayPin)) (ts : list WaterTank.t) : System :=
  mkSystem pw pause alert (fst <$> cfg) (addZones cfg) ts 0 [] false
    (if leakSensor then Some false else None)
    false false 0 None [] false.

(** *** The flow sensor *)

(** The callback of the 1 s interval of the flow sensor: the rate and the
    volume of the sample it emits, from the pulses counted since
    [lastFlowTime] and the calibration [flowRate], each operation rounded as
    JavaScript rounds it. *)
Definition flowSampler (flowPulseCounter lastFlowTime nowMs : Z)
    (flowRate : Double.t) : Double.t * Double.t :=
  let intervalDuration := Double.ofZ (nowMs - lastFlowTime) in
  let rate :=
    Double.mul
      (Double.div (Double.ofZ flowPulseCounter)
                  (Double.div intervalDuration (Double.ofZ 1000)))
      flowRate in
  let volume := Double.mul rate (Double.div intervalDuration (Double.ofZ 60000)) in
  (rate, volume).

(** *** Termination signals *)

(** The handler of SIGINT and SIGTERM, up to [process.exit]: every zone of
    [#zones], in the order [order] of [Object.values], has its open valves
    closed. *)
Definition closeZoneValves (now : Z) (id : string) (s : System) : option System :=
  z ← zones s !! id;
  forEach (closeIfOpen id now) (seq 0 (length (valves z))) s.

Definition onSignal (order : list string) (now : Z) (s : System) : option System :=
  forEach (closeZoneValves now) order s.

(** *** Pause from Eve Home *)

(** [Math.round] *)
Definition round (q : Q) : Z := Qfloor (q + (1 # 2))%Q.

(** The pause time stamp that [#EveHomeSetCommand] stores for a pause of
    [pause] days: [getTimezoneOffset()] is [tzOffset] minutes, [%] is the
    remainder of the truncated division. *)
Definition pauseUntil (nowMs tzOffset pause : Z) : Z :=
  Qfloor
    (inject_Z (nowMs / 1000)
     + (inject_Z 86400000
        - inject_Z (Z.rem (nowMs - tzOffset * 60000) 86400000))
       / inject_Z 60000 * inject_Z 60
     + inject_Z ((pause - 1) * 86400))%Q.

(** The pause, in days, that [#EveHomeGetCommand] reports. *)
Definition pauseShown (pauseTimeout now : Z) : Z :=
  if negb (pauseTimeout =? 0)
  then round (inject_Z (pauseTimeout - now) / inject_Z 86400)%Q
  else 0.

End IrrigationSystem.

(** ** crc32 (system.js and index.js) *)

Module Crc.

(** [ToInt32] and [ToUint32] of an integer. *)
Definition toInt32 (x : Z) : Z := (x + 2 ^ 31) mod 2 ^ 32 - 2 ^ 31.
Definition toUint32 (x : Z) : Z := x mod 2 ^ 32.

(** The operators [^], [&] and [>>>]. *)
Definition xor32 (a b : Z) : Z := Z.lxor (toInt32 a) (toInt32 b).
Definition and32 (a b : Z) : Z := Z.land (toInt32 a) (toInt32 b).
Definition ushr32 (a n : Z) : Z := Z.shiftr (toUint32 a) n.

Definition crc32HashTable : list Z := [
  0x000000000; 0x077073096; -0x11f19ed4; -0x66f6ae46; 0x0076dc419; 0x0706af48f;
  -0x169c5acb; -0x619b6a5d; 0x00edb8832; 0x079dcb8a4; -0x1f2a16e2; -0x682d2678;
  0x009b64c2b; 0x07eb17cbd; -0x1847d2f9; -0x6f40e26f; 0x01db71064; 0x06ab020f2;
  -0xc468eb8; -0x7b41be22; 0x01adad47d; 0x06ddde4eb; -0xb2b4aaf; -0x7c2c7a39;
  0x0136c9856; 0x0646ba8c0; -0x29d0686; -0x759a3614; 0x014015c4f; 0x063066cd9;
  -0x5f0c29d; -0x72f7f20b; 0x03b6e20c8; 0x04c69105e; -0x2a9fbe1c; -0x5d988e8e;
  0x03c03e4d1; 0x04b04d447; -0x2df27a03; -0x5af54a95; 0x035b5a8fa; 0x042b2986c;
  -0x2444362a; -0x534306c0; 0x032d86ce3; 0x045df5c75; -0x2329f231; -0x542ec2a7;
  0x026d930ac; 0x051de003a; -0x3728ae80; -0x402f9eea; 0x021b4f4b5; 0x056b3c423;
  -0x30456a67; -0x47425af1; 0x02802b89e; 0x05f058808; -0x39f3264e; -0x4ef416dc;
  0x02f6f7c87; 0x058684c11; -0x3e9ee255; -0x4999d2c3; 0x076dc4190; 0x001db7106;
  -0x672ddf44; -0x102aefd6; 0x071b18589; 0x006b6b51f; -0x60401b5b; -0x17472bcd;
  0x07807c9a2; 0x00f00f934; -0x69f65772; -0x1ef167e8; 0x07f6a0dbb; 0x0086d3d2d;
  -0x6e9b9369; -0x199ca3ff; 0x06b6b51f4; 0x01c6c6162; -0x7a9acf28; -0xd9dffb2;
  0x06c0695ed; 0x01b01a57b; -0x7df70b3f; -0xaf03ba9; 0x065b0d9c6; 0x012b7e950;
  -0x74414716; -0x3467784; 0x062dd1ddf; 0x015da2d49; -0x732c830d; -0x42bb39b;
  0x04db26158; 0x03ab551ce; -0x5c43ff8c; -0x2b44cf1e; 0x04adfa541; 0x03dd895d7;
  -0x5b2e3b93; -0x2c290b05; 0x04369e96a; 0x0346ed9fc; -0x529877ba; -0x259f4730;
  0x044042d73; 0x033031de5; -0x55f5b3a1; -0x22f28337; 0x05005713c; 0x0270241aa;
  -0x41f4eff0; -0x36f3df7a; 0x05768b525; 0x0206f85b3; -0x46992bf7; -0x319e1b61;
  0x05edef90e; 0x029d9c998; -0x4f2f67de; -0x3828574c; 0x059b33d17; 0x02eb40d81;
  -0x4842a3c5; -0x3f459353; -0x12477ce0; -0x65404c4a; 0x003b6e20c; 0x074b1d29a;
  -0x152ab8c7; -0x622d8851; 0x004db2615; 0x073dc1683; -0x1c9cf4ee; -0x6b9bc47c;
  0x00d6d6a3e; 0x07a6a5aa8; -0x1bf130f5; -0x6cf60063; 0x00a00ae27; 0x07d079eb1;
  -0xff06cbc; -0x78f75c2e; 0x01e01f268; 0x06906c2fe; -0x89da8a3; -0x7f9a9835;
  0x0196c3671; 0x06e6b06e7; -0x12be48a; -0x762cd420; 0x010da7a5a; 0x067dd4acc;
  -0x6462091; -0x71411007; 0x017b7be43; 0x060b08ed5; -0x29295c18; -0x5e2e6c82;
  0x038d8c2c4; 0x04fdff252; -0x2e44980f; -0x5943a899; 0x03fb506dd; 0x048b2364b;
  -0x27f2d426; -0x50f5e4b4; 0x036034af6; 0x041047a60; -0x209f103d; -0x579820ab;
  0x0316e8eef; 0x04669be79; -0x349e4c74; -0x43997ce6; 0x0256fd2a0; 0x05268e236;
  -0x33f3886b; -0x44f4b8fd; 0x0220216b9; 0x05505262f; -0x3a45c442; -0x4d42f4d8;
  0x02bb45a92; 0x05cb36a04; -0x3d280059; -0x4a2f30cf; 0x02cd99e8b; 0x05bdeae1d;
  -0x649b3d50; -0x139c0dda; 0x0756aa39c; 0x0026d930a; -0x63f6f957; -0x14f1c9c1;
  0x072076785; 0x005005713; -0x6a40b57e; -0x1d4785ec; 0x07bb12bae; 0x00cb61b38;
  -0x6d2d7165; -0x1a2a41f3; 0x07cdcefb7; 0x00bdbdf21; -0x792c2d2c; -0xe2b1dbe;
  0x068ddb3f8; 0x01fda836e; -0x7e41e933; -0x946d9a5; 0x06fb077e1; 0x018b74777;
  -0x77f7a51a; -0xf09590; 0x066063bca; 0x011010b5c; -0x709a6101; -0x79d5197;
  0x0616bffd3; 0x0166ccf45; -0x5ff51d88; -0x28f22d12; 0x04e048354; 0x03903b3c2;
  -0x5898d99f; -0x2f9fe909; 0x04969474d; 0x03e6e77db; -0x512e95b6; -0x2629a524;
  0x040df0b66; 0x037d83bf0; -0x564351ad; -0x2144613b; 0x047b2cf7f; 0x030b5ffe9;
  -0x42420de4; -0x35453d76; 0x053b39330; 0x024b4a3a6; -0x452fc9fb; -0x3228f96d;
  0x054de5729; 0x023d967bf; -0x4c9985d2; -0x3b9eb548; 0x05d681b02; 0x02a6f2b94;
  -0x4bf441c9; -0x3cf3715f; 0x05a05df1b; 0x02d02ef8d
].

(** The body of the loop.  An index outside the table would read undefined,
    which [^] takes as 0. *)
Definition update (crc32 byte : Z) : Z :=
  and32 (xor32 (nth (Z.to_nat (and32 (xor32 crc32 byte) 0xff)) crc32HashTable 0)
               (ushr32 crc32 8))
        0xffffffff.

(** [valueToHash] holds the bytes of the buffer made from the string. *)
Definition crc32 (valueToHash : list Z) : Z :=
  let crc32 := fold_left update valueToHash 0xffffffff in
  ushr32 (xor32 crc32 0xffffffff) 0.

End Crc.

(** ** index.js: what [loadConfiguration] keeps of tanks and zones *)

Module Config.

Section loadConfiguration.

(** A value of the parsed configuration file; a property that is missing
    reads undefined, which is [None].  [Number] is the conversion of
    JavaScript, [None] standing for NaN, and [isTrue v] is [v === true]. *)
Variable Json : Type.
Variable Number : option Json -> option Q.
Variable isTrue : option Json -> bool.

Definition isNaN (v : option Json) : bool :=
  match Number v with Some _ => false | None => true end.

(** [isNaN(v) === false && Number(v) > 0 ? Number(v) : 0] *)
Definition positiveOr0 (v : option Json) : Q :=
  match Number v with
  | Some q => if negb (Qle_bool q 0) then q else 0
  | None => 0
  end.

(** A tank of the file and the validated tank; [uuid] and [name], a random
    uuid or a cleaned string, are left out. *)
Record RawTank := mkRawTank {
  r_enabled : option Json;
  r_capacity : option Json;
  r_sensorTrigPin : option Json;
  r_sensorEchoPin : option Json;
  r_sensorHeight : option Json;
  r_minimumLevel : option Json
}.

Record Tank := mkTank {
  enabled : bool;
  capacity : Q;
  sensorTrigPin : option Q;
  sensorEchoPin : option Q;
  sensorHeight : Q;
  minimumLevel : Q
}.

(** A sensor pin: both pins must be numbers, this one within 0..26. *)
Definition sensorPin (own other : option Json) : option Q :=
  match Number own, Number other with
  | Some p, Some _ => if Qle_bool 0 p && Qle_bool p 26 then Some p else None
  | _, _ => None
  end.

Definition validateTank (tank : RawTank) : Tank :=
  let tempTank :=
    mkTank (isTrue (r_enabled tank))
      (positiveOr0 (r_capacity tank))
      (sensorPin (r_sensorTrigPin tank) (r_sensorEchoPin tank))
      (sensorPin (r_sensorEchoPin tank) (r_sensorTrigPin tank))
      (positiveOr0 (r_sensorHeight tank))
      (positiveOr0 (r_minimumLevel tank)) in
  if negb (Qle_bool (minimumLevel tempTank) (sensorHeight tempTank))
  then mkTank (enabled tempTank) (capacity tempTank) (sensorTrigPin tempTank)
         (sensorEchoPin tempTank) (sensorHeight tempTank) (sensorHeight tempTank)
  else tempTank.

(** The runtime of a validated zone: a number, or the value of
    [options.maxRuntime] as the file gives it. *)
Inductive Runtime := Seconds (q : Q) | AsInFile (v : option Json).

Definition runtimeNumber (r : Runtime) : option Q :=
  match r with Seconds q => Some q | AsInFile v => Number v end.

(** [zone.runtime] of the file and [options.maxRuntime] of the file. *)
Definition validateRuntime (runtime maxRuntime : option Json) : Runtime :=
  let tempRuntime :=
    match Number runtime with Some q => q | None => 300%Q end in
  match Number maxRuntime with
  | Some m =>
      if negb (Qle_bool tempRuntime m) then AsInFile maxRuntime
      else Seconds tempRuntime
  | None => Seconds tempRuntime
  end.

(** [power] after the fix-up at the end: [power] is the value computed from
    the file. *)
Definition powerAfterLoad (power : bool) (pauseTimeout : option Json) : bool :=
  power && Qeq_bool (positiveOr0 pauseTimeout) 0.

End loadConfiguration.

End Config.

(** * Specification-level definitions *)

Import IrrigationSystem.

(** ** Leak detector *)

(** How one flow event may move the leak flag: not at all, or, with no zone
    running, from false to true with more than 80 percent of the buffered
    samples non-zero, or from true to false with none of them non-zero. *)
Definition leakStep (s s' : System) : Prop :=
  leakDetected s' = leakDetected s
  \/ (numberRunningZones s = 0%nat
      /\ ((leakDetected s = false /\ leakDetected s' = true
           /\ (80 < nonZeroPercent (flowData s'))%Q)
          \/ (leakDetected s = true /\ leakDetected s' = false
              /\ nonZeroVolume (flowData s') = 0%nat
              /\ (nonZeroPercent (flowData s') == 0)%Q))).

(** [n] one-second samples from [firstMs] on, the first [zeros] of them
    without volume. *)
Fixpoint samples (n : nat) (zeros : nat) (firstMs : Z) : list FlowSample :=
  match n with
  | O => []
  | S n' =>
      mkFlow firstMs 0 (match zeros with O => (1 # 10)%Q | S _ => 0%Q end)
      :: samples n' (Nat.pred zeros) (firstMs + 1000)
  end.

(** At second [now]: no zone is configured, the leak sensor exists, the
    samples of the last 29 seconds are buffered (5 of them without volume)
    and the last valve closed at second [lastClose]. *)
Definition leakScenario (now lastClose : Z) : System :=
  with_flowData (samples 29 5 (now * 1000 - 29000))
    (with_lastValveClose lastClose (addServices true 0 true true [] [])).

(** The sample of second [now], with volume. *)
Definition sampleAt (now : Z) : FlowSample := mkFlow (now * 1000) 6 (1 # 10)%Q.

(** ** Zones and valves *)

(** What scheduling reads and writes of an entry of [#zones]: its service,
    its valves and its timer. *)
Definition Core : Type := Service * list Valve.t * option (nat * Z).

Definition core (z : Zone) : Core := (service z, valves z, timer z).

Definition on_valves (g : list Valve.t -> list Valve.t) (c : Core) : Core :=
  (c.1.1, g c.1.2, c.2).

(** The fields that the valve and zone operations leave alone. *)
Definition base (s s' : System) : Prop :=
  dzones s' = dzones s /\ power s' = power s
  /\ pauseTimeout s' = pauseTimeout s /\ leakDetected s' = leakDetected s.

(** Every entry keeps its service, valves and timer. *)
Definition same_cores (s s' : System) : Prop :=
  forall id, core <$> zones s' !! id = core <$> zones s !! id.

(** Only the entry [id] changes, by [F]. *)
Definition cores_altered (id : string) (F : Core -> Core) (s s' : System) : Prop :=
  forall id',
    core <$> zones s' !! id'
    = if decide (id = id') then F <$> (core <$> zones s !! id')
      else core <$> zones s !! id'.

(** What [closeIfOpen] does to a valve, and to the valves from [k] on. *)
Definition closeIf (now : Z) (v : Valve.t) : Valve.t :=
  if Valve.isOpen v then (Valve.close now v).1 else v.

Fixpoint close_range (now : Z) (k m : nat) (vs : list Valve.t) : list Valve.t :=
  match m with
  | O => vs
  | S m' => close_range now (S k) m' (alter (closeIf now) k vs)
  end.

(** A valve without relay pin is never open. *)
Definition valve_ok (v : Valve.t) : Prop :=
  Valve.GPIO_ValvePin v = None -> Valve.valveOpenedTime v = None.

(** The invariant of an entry: at most one of its valves is open, and none
    while its service is inactive. *)
Definition core_ok (c : Core) : Prop :=
  Forall valve_ok c.1.2
  /\ (Valve.open_count c.1.2 <= 1)%nat
  /\ (Active c.1.1 = false -> Valve.all_closed c.1.2).

Definition zones_ok (s : System) : Prop :=
  forall id z, zones s !! id = Some z -> core_ok (core z).

(** Every element of [deviceData.zones] has its entry in [#zones]. *)
Definition entries_ok (s : System) : Prop :=
  Forall (fun zone => is_Some (zones s !! uuid zone)) (dzones s).

(** What [stopZone] does to the entry. *)
Definition stop_core (now : Z) (c : Core) : Core :=
  (stopped c.1.1, close_range now 0 (length c.1.2) c.1.2, None).

(** An inactive service stays inactive, and the entries stay the same ones. *)
Definition stays_inactive (s s' : System) : Prop :=
  forall id,
    match zones s !! id, zones s' !! id with
    | Some z, Some z' => Active (service z) = false -> Active (service z') = false
    | None, None => True
    | _, _ => False
    end.

(** What [startZone] does to the entry, once the running zones are stopped. *)
Definition start_core (index : nat) (now : Z) (c : Core) : Core :=
  let d := SetDuration c.1.1 in
  (started d c.1.1, alter (fun v => (Valve.open now v).1) 0%nat c.1.2,
   Some (index, now + d)).

(** The test of [handOver] on the valve at [index] of the entry [z]: its end
    time is reached and it is not the last valve. *)
Definition dueAt (endTime now : Z) (z : Zone) (index : nat) : bool :=
  Qle_bool (valveEndTime endTime (SetDuration (service z)) (length (valves z)) index)
           (inject_Z now)
  && (Z.of_nat index <? Z.of_nat (length (valves z)) - 1).

(** What a hand-over does to the valves: the one at [index] closes, the next
    one opens. *)
Definition hand_over_valves (now : Z) (index : nat) (vs : list Valve.t)
    : list Valve.t :=
  alter (fun v => (Valve.open now v).1) (index + 1)%nat
    (alter (fun v => (Valve.close now v).1) index vs).

(** ** The events of the controller *)

(** One callback of the controller's own code, run to its end: the setters,
    the intervals, the events, a request and the timeout of its batch, and the
    two 500 ms timeouts, the one that settles a start refused for lack of
    power and the one of a dropped request.  Every
    constructor admits at least the firings that the source can produce: the
    interval of a zone may fire for any end time, the 500 ms timeout on any
    entry.  What the HomeKit library itself writes is no part of it. *)
Inductive Step : System -> System -> Prop :=
| step_setZoneActive index v now s s' :
    setZoneActive index v now s = Some s' -> Step s s'
| step_setZoneEnabled index v now s s' :
    setZoneEnabled index v now s = Some s' -> Step s s'
| step_setZoneRuntime index v s s' :
    setZoneRuntime index v s = Some s' -> Step s s'
| step_setZoneName index v s s' :
    setZoneName index v s = Some s' -> Step s s'
| step_setPower v now s s' :
    setPower v now s = Some s' -> Step s s'
| step_zoneTimer index endTime now s s' :
    zoneTimer index endTime now s = Some s' -> Step s s'
| step_pauseTimer now s s' called :
    pauseTimer now s = Some (s', called) -> Step s s'
| step_flowEvent f now s s' :
    flowEvent f now s = Some s' -> Step s s'
| step_tankReading index r now s s' :
    tankReading index r now s = Some s' -> Step s s'
| step_request ctx v t s :
    Step s (processActiveCharacteristic ctx v t s)
| step_activeCheckTimeout now s s' calls :
    activeCheckTimeout now s = Some (s', calls) -> Step s s'
| step_revertTimeout id s s' :
    revertTimeout id s = Some s' -> Step s s'
| step_revertDropped ctx s s' :
    revertDropped ctx s = Some s' -> Step s s'.


(** ** The scenario of a zone with three valves *)

(** The interval of the zone [id] fires at second [now], if it is running. *)
Definition fireTimer (id : string) (now : Z) (s : System) : option System :=
  match zones s !! id with
  | Some z =>
      match timer z with
      | Some (index, endTime) => zoneTimer index endTime now s
      | None => Some s
      end
  | None => Some s
  end.

(** The interval fires at the seconds [from], [from + 1], ... ([n] times). *)
Fixpoint tickEverySecond (id : string) (n : nat) (from : Z) (s : System)
    : option System :=
  match n with
  | O => Some s
  | S n' => s' ← fireTimer id from s; tickEverySecond id n' (from + 1) s'
  end.

Definition lawn : ZoneConfig := mkZoneConfig "lawn" "Lawn" true 300.

(** Power on, one enabled zone of 300 s over the relay pins 14, 15 and 16. *)
Definition lawnSystem : System :=
  addServices true 0 false true
    [(lawn, Pins [("v0"%string, 14); ("v1"%string, 15); ("v2"%string, 16)])] [].

(** The zone is started at second 0 and its interval has fired at the seconds
    1 to [k]. *)
Definition lawnRun (k : nat) : option System :=
  s ← setZoneActive 0 (VNum 1) 0 lawnSystem; tickEverySecond "lawn" k 1 s.

(** The indices of the open valves of a zone, and its Active characteristic. *)
Definition openValves (id : string) (s : System) : list nat :=
  match zones s !! id with
  | Some z =>
      List.filter
        (fun i => match valves z !! i with Some v => Valve.isOpen v | None => false end)
        (seq 0 (length (valves z)))
  | None => []
  end.

Definition zoneActive (id : string) (s : System) : bool :=
  match zones s !! id with Some z => Active (service z) | None => false end.

(** At every second from [lo] on, [n] times, the run shows the open valves
    [open] and the activity [act]. *)
Definition lawnShows (lo n : nat) (open : list nat) (act : bool) : bool :=
  forallb
    (fun k =>
       match lawnRun k with
       | Some s =>
           bool_decide (openValves "lawn" s = open)
           && Bool.eqb (zoneActive "lawn" s) act
       | None => false
       end)
    (seq lo n).

(** The state of the run after [k] ticks. *)
Definition lawnAfter (k : nat) : System := default lawnSystem (lawnRun k).

(** ** Pause, tanks *)

(** Paused until second 86400, hence powered off; one zone. *)
Definition pausedSystem : System :=
  addServices false 86400 false false [(lawn, Pin ("v0"%string, 14))] [].

(** A tank whose usable range, 400 - 200, equals the minimum range of the
    sensor, and a tank whose minimum level is its sensor height. *)
Definition tankNarrow : WaterTank.t := WaterTank.mk "narrow" 400 200 None None.
Definition tankFlat : WaterTank.t := WaterTank.mk "flat" 1970 1970 None None.

(** A tank of 2000 mm with 200 mm unusable, alone in a system. *)
Definition tankGood : WaterTank.t := WaterTank.mk "good" 2000 200 None None.
Definition tankSystem : System := addServices true 0 false false [] [tankGood].

(** The percentage is the number [q]. *)
Definition percentageIs (q : Q) (tank : WaterTank.t) : bool :=
  match WaterTank.percentage tank with
  | Some (JsNum.Fin x) => Qeq_bool x q
  | _ => false
  end.

(** A tank that reported 40 percent and a tank without any reading yet. *)
Definition tankRead40 : WaterTank.t :=
  WaterTank.mk "a" 2000 200 (Some (JsNum.ofZ 1080)) (Some (JsNum.ofZ 40)).
Definition tankUnread : WaterTank.t := WaterTank.mk "b" 2000 200 None None.

(** ** What the zone operations keep of the configuration *)

(** The zone objects and, entry by entry, the IsConfigured characteristic. *)
Definition config_kept (s s' : System) : Prop :=
  dzones s' = dzones s
  /\ forall id,
      (fun z => IsConfigured (service z)) <$> zones s' !! id
      = (fun z => IsConfigured (service z)) <$> zones s !! id.

(** ** Commands on zones *)

(** The zone object at [index] does not exist or has no entry in [#zones]. *)
Definition unknownZone (index : nat) (s : System) : Prop :=
  match dzones s !! index with
  | None => True
  | Some zone => zones s !! uuid zone = None
  end.

(** The default of [options.maxRuntime] in the configuration. *)
Definition maxRuntimeDefault : Z := 7200.

Definition shed : ZoneConfig := mkZoneConfig "shed" "Shed" false 300.
Definition ghost : ZoneConfig := mkZoneConfig "ghost" "Ghost" true 300.

(** The lawn, a disabled zone, and a zone configured without relay pin. *)
Definition gardenSystem : System :=
  addServices true 0 false true
    [(lawn, Pins [("v0"%string, 14); ("v1"%string, 15); ("v2"%string, 16)]);
     (shed, Pin ("s0"%string, 17));
     (ghost, NoPin)] [].

(** ** Activation while zones are running *)

Definition front : ZoneConfig := mkZoneConfig "front" "Front" true 300.
Definition back : ZoneConfig := mkZoneConfig "back" "Back" true 300.
Definition side : ZoneConfig := mkZoneConfig "side" "Side" true 300.

(** An entry whose zone runs since second [since] until [endTime], with
    [remaining] seconds shown. *)
Definition running (index : nat) (since endTime remaining : Z) (z : Zone) : Zone :=
  mkZone (started remaining (service z))
         ((fun v => (Valve.open since v).1) <$> valves z)
         (Some (index, endTime)) 0 0.

(** At second 1000 the services of two zones are ACTIVE, with 50 s and 200 s
    remaining; a third zone is inactive. *)
Definition twoRunning : System :=
  update_zone "back" (running 1 900 1200 200)
    (update_zone "front" (running 0 750 1050 50)
       (addServices true 0 false true
          [(front, Pin ("f"%string, 14)); (back, Pin ("b"%string, 15));
           (side, Pin ("s"%string, 16))] [])).

Definition remainingOf (id : string) (s : System) : option Z :=
  (fun z => RemainingDuration (service z)) <$> zones s !! id.

(** ** Requests *)

(** Requests arriving one after the other within the window. *)
Definition submit (reqs : list (option nat * Value * RequestType)) (s : System)
    : System :=
  foldl (fun s r => processActiveCharacteristic r.1.1 r.1.2 r.2 s) s reqs.

Definition systemRequests (reqs : list (option nat * Value * RequestType))
    : list (option nat * Value * RequestType) :=
  List.filter (fun r => isSystemType r.2) reqs.

Definition valveRequests (reqs : list (option nat * Value * RequestType))
    : list (option nat * Value * RequestType) :=
  List.filter (fun r => isValveType r.2) reqs.

(** The calls that act on the system: everything but the settling of a
    dropped zone request. *)
Definition isAction (c : Call) : bool :=
  match c with CallRevertZone _ => false | _ => true end.

(** Power off and the lawn as the only zone. *)
Definition lawnOff : System :=
  addServices false 0 false true
    [(lawn, Pins [("v0"%string, 14); ("v1"%string, 15); ("v2"%string, 16)])] [].

(** Power off and two enabled zones. *)
Definition twoZonesOff : System :=
  addServices false 0 false true
    [(front, Pin ("f"%string, 14)); (back, Pin ("b"%string, 15))] [].

(** "Turn the system on" as it arrives: one system request and one zone
    request per enabled zone. *)
Definition turnOn1 : list (option nat * Value * RequestType) :=
  [(None, VNum 1, system); (Some 0%nat, VNum 1, valve)].
Definition turnOn2 : list (option nat * Value * RequestType) :=
  [(None, VNum 1, system); (Some 0%nat, VNum 1, valve); (Some 1%nat, VNum 1, valve)].

(** An entry that turns active does so for an enabled zone object of its
    uuid. *)
Definition activates_enabled (s s' : System) : Prop :=
  forall id z z',
    zones s !! id = Some z -> zones s' !! id = Some z' ->
    Active (service z) = false -> Active (service z') = true ->
    exists index zone,
      dzones s !! index = Some zone /\ uuid zone = id /\ enabled zone = true.

(** ** A start that follows a refused start *)

(** A write request from HomeKit to an Active characteristic. *)
Inductive Write :=
| WriteZone (index : nat) (v : Value)
| WriteSystem (v : Value).

Definition homekitWrite (w : Write) (s : System) : System :=
  match w with
  | WriteZone index v => onSetZoneActive index v s
  | WriteSystem v => onSetSystemActive v s
  end.

(** Write requests that arrive within one window of 500 ms. *)
Definition homekitWrites (ws : list Write) (s : System) : System :=
  foldl (fun s w => homekitWrite w s) s ws.

(** The timeout of the batch at second [now]. *)
Definition batchTimeout (now : Z) (s : System) : option System :=
  fst <$> activeCheckTimeout now s.

(** Power on; the lawn with its three valves and two more enabled zones. *)
Definition yard : System :=
  addServices true 0 false true
    [(lawn, Pins [("v0"%string, 14); ("v1"%string, 15); ("v2"%string, 16)]);
     (front, Pin ("f"%string, 17));
     (back, Pin ("b"%string, 18))] [].

(** "Lawn on" at second 0; the interval of the lawn has fired at the seconds
    1 to 150. *)
Definition yardRunning : option System :=
  s ← batchTimeout 0 (homekitWrites [WriteZone 0 (VNum 1)] yard);
  tickEverySecond "lawn" 150 1 s.

(** "System off, lawn off, front off" in one window, its timeout at second
    151, then the interval of the lawn. *)
Definition yardPoweredOff : option System :=
  s ← yardRunning;
  s ← batchTimeout 151
        (homekitWrites
           [WriteSystem (VNum 0); WriteZone 0 (VNum 0); WriteZone 1 (VNum 0)] s);
  fireTimer "lawn" 151 s.

(** "Lawn on" arrives while the power is off. *)
Definition yardAsked : option System :=
  s ← yardPoweredOff; Some (homekitWrites [WriteZone 0 (VNum 1)] s).

(** Its timeout at second 152: the start is refused. *)
Definition yardRefused : option System :=
  s ← yardAsked; batchTimeout 152 s.

(** Within the next 500 ms "system on, lawn on, front off" arrives; the
    interval of the lawn fires, then the 500 ms timeout of the refused start,
    then the timeout of the batch. *)
Definition yardRestarted : option System :=
  s ← yardRefused;
  s ← fireTimer "lawn" 152
        (homekitWrites
           [WriteSystem (VNum 1); WriteZone 0 (VNum 1); WriteZone 1 (VNum 0)] s);
  s ← revertTimeout "lawn" s;
  batchTimeout 152 s.

(** The new interval of the lawn has fired at the seconds 153 to
    [152 + k]. *)
Definition yardAfter (k : nat) : option System :=
  s ← yardRestarted; tickEverySecond "lawn" k 153 s.

(** The open valves of the lawn in the state [r], if any. *)
Definition lawnOpen (r : option System) : option (list nat) :=
  openValves "lawn" <$> r.

(** After each of the first [n] ticks of the new interval the open valves of
    the lawn are [open]. *)
Definition yardShows (n : nat) (open : list nat) : bool :=
  forallb (fun k => bool_decide (lawnOpen (yardAfter k) = Some open)) (seq 0 (S n)).

(** ** Further scenarios *)

(** The leak scenario with every buffered sample and the new one without
    volume, and the flag already raised. *)
Definition dryScenario (now : Z) : System :=
  with_leak true (Some true)
    (with_flowData (samples 29 29 (now * 1000 - 29000))
       (addServices true 0 true true [] [])).

Definition drySampleAt (now : Z) : FlowSample := mkFlow (now * 1000) 0 0.

(** ** Stopping zones *)

(** The entry shows a stopped zone: inactive, not in use, nothing remaining,
    no interval. *)
Definition stoppedEntry (z : Zone) : Prop :=
  Active (service z) = false /\ InUse (service z) = false
  /\ RemainingDuration (service z) = 0 /\ timer z = None.

(** Every entry is still there, and either keeps its service, valves and
    timer, or showed ACTIVE and is stopped, with all its valves closed unless
    a valve without relay pin was open. *)
Definition stops_closing (s s' : System) : Prop :=
  forall id z,
    zones s !! id = Some z ->
    exists z',
      zones s' !! id = Some z'
      /\ (core z' = core z
          \/ (Active (service z) = true /\ stoppedEntry z'
              /\ (Forall valve_ok (valves z) -> Valve.all_closed (valves z')))).

(** ** Valves on their own *)



(** A call on a valve object. *)
Inductive ValveCall :=
| DoOpen (now : Z)
| DoClose (now : Z)
| HearFlow (volume : Q).

(** The valve after the calls and the events it emitted, oldest first. *)
Fixpoint callValve (calls : list ValveCall) (v : Valve.t)
    : Valve.t * list Valve.Event :=
  match calls with
  | [] => (v, [])
  | c :: calls' =>
      let r :=
        match c with
        | DoOpen now => Valve.open now v
        | DoClose now => Valve.close now v
        | HearFlow q => (Valve.onFlow q v, None)
        end in
      let rest := callValve calls' r.1 in
      (rest.1, match r.2 with Some e => e :: rest.2 | None => rest.2 end)
  end.

(** ** One tick of a running zone *)

(** The valve at [p] is the only open one. *)
Definition onlyOpen (p : nat) (vs : list Valve.t) : Prop :=
  forall k v, vs !! k = Some v -> (Valve.isOpen v = true <-> k = p).

Definition has_pins (vs : list Valve.t) : Prop :=
  Forall (fun v => Valve.GPIO_ValvePin v <> None) vs.

(** The test of [handOver], read on the service and valves of an entry. *)
Definition dueCore (endTime now : Z) (c : Core) (k : nat) : bool :=
  Qle_bool (valveEndTime endTime (SetDuration c.1.1) (length c.1.2) k)
           (inject_Z now)
  && (Z.of_nat k <? Z.of_nat (length c.1.2) - 1).

(** What [handOver] at [k] does to the entry, and what the loop over the
    valves from [k] on does. *)
Definition hand_step (endTime now : Z) (k : nat) (c : Core) : Core :=
  match c.1.2 !! k with
  | Some v =>
      if Valve.isOpen v && dueCore endTime now c k
      then on_valves (hand_over_valves now k) c else c
  | None => c
  end.

Fixpoint hand_range (endTime now : Z) (k m : nat) (c : Core) : Core :=
  match m with
  | O => c
  | S m' => hand_range endTime now (S k) m' (hand_step endTime now k c)
  end.

(** ** Termination signals *)

(** Every valve without relay pin is closed. *)
Definition valves_ok (s : System) : Prop :=
  forall id z, zones s !! id = Some z -> Forall valve_ok (valves z).

(** Every entry keeps its service and its timer, and valves that were all
    closed still are. *)
Definition keeps_closed (s s' : System) : Prop :=
  forall id z,
    zones s !! id = Some z ->
    exists z',
      zones s' !! id = Some z'
      /\ service z' = service z /\ timer z' = timer z
      /\ (Valve.all_closed (valves z) -> Valve.all_closed (valves z')).

(** ** Pause from Eve Home *)

(** The milliseconds from [nowMs] to the next local midnight. *)
Definition toMidnight (nowMs tzOffset : Z) : Z :=
  86400000 - (nowMs - tzOffset * 60000) mod 86400000.

(** ** CRC-32, bit by bit *)

(** One step of the reflected CRC-32 of polynomial 0xEDB88320, the eight
    steps that take in a byte, and the check sum of a list of bytes. *)
Definition crcBit (c : Z) : Z :=
  if Z.testbit c 0 then Z.lxor (Z.shiftr c 1) 0xEDB88320 else Z.shiftr c 1.

Definition crcByte (c byte : Z) : Z := Nat.iter 8 crcBit (Z.lxor c byte).

Definition crc32Bitwise (bytes : list Z) : Z :=
  Z.lxor (fold_left crcByte bytes 0xFFFFFFFF) 0xFFFFFFFF.

Definition isByte (b : Z) : Prop := 0 <= b < 256.

(** ** Set-up *)

(** A fresh entry: stopped, with closed valves and empty totals. *)
Definition freshEntry (z : Zone) : Prop :=
  stoppedEntry z /\ Valve.all_closed (valves z)
  /\ totalduration z = 0 /\ (totalwater z == 0)%Q.

(** ** The flow sensor *)

(** The double nearest to 0.1. *)
Definition tenth : Double.t := S754_finite false 7205759403792794 (-56).

(** * Properties *)

(** ** Leak detector *)

Lemma numberRunningZones_fmap_valves (g : list Valve.t -> list Valve.t) (s : System) :
  numberRunningZones
    (with_zones ((fun z => with_valves (g (valves z)) z) <$> zones s) s)
  = numberRunningZones s.
Proof.
  unfold numberRunningZones. simpl. by rewrite map_fold_fmap.
Qed.

Lemma nonZeroPercent_zero fd :
  nonZeroVolume fd = 0%nat -> (nonZeroPercent fd == 0)%Q.
Proof.
  intros H. unfold nonZeroPercent. rewrite H. simpl. unfold Qdiv.
  by rewrite !Qmult_0_l.
Qed.

Lemma Qgt_bool_lt a b : Qgt_bool a b = true -> (b < a)%Q.
Proof.
  unfold Qgt_bool. intros H. apply negb_true_iff in H.
  apply Qnot_le_lt. intros Hle. apply Qle_bool_iff in Hle. congruence.
Qed.

Lemma raiseLeak_frame now s :
  flowData (raiseLeak now s) = flowData s /\ zones (raiseLeak now s) = zones s.
Proof. unfold raiseLeak. repeat (case_match; simpl); done. Qed.

Lemma clearLeak_flowData s : flowData (clearLeak s) = flowData s.
Proof. unfold clearLeak. repeat (case_match; simpl); done. Qed.

Lemma raiseLeak_cases now s :
  raiseLeak now s = s
  \/ (numberRunningZones s = 0%nat /\ leakDetected s = false
      /\ leakDetected (raiseLeak now s) = true
      /\ (80 < nonZeroPercent (flowData s))%Q).
Proof.
  unfold raiseLeak.
  destruct (numberRunningZones s =? 0)%nat eqn:Hrun; simpl; [|by left].
  destruct (Qgt_bool _ 80) eqn:Hpc; simpl; [|by left].
  destruct (_ || _); [|by left].
  destruct (leakDetected s) eqn:Hl; simpl; [by left|].
  right. apply Nat.eqb_eq in Hrun. apply Qgt_bool_lt in Hpc. done.
Qed.

Lemma clearLeak_cases s :
  clearLeak s = s
  \/ (numberRunningZones s = 0%nat /\ leakDetected s = true
      /\ leakDetected (clearLeak s) = false
      /\ nonZeroVolume (flowData s) = 0%nat).
Proof.
  unfold clearLeak.
  destruct (numberRunningZones s =? 0)%nat eqn:Hrun; simpl; [|by left].
  destruct (nonZeroVolume _ =? 0)%nat eqn:Hnz; simpl; [|by left].
  destruct (leakDetected s) eqn:Hl; simpl; [|by left].
  right. apply Nat.eqb_eq in Hrun, Hnz. done.
Qed.

Lemma nonZeroVolume_zero_percent fd :
  nonZeroVolume fd = 0%nat -> ~ (80 < nonZeroPercent fd)%Q.
Proof.
  intros H Hlt. apply nonZeroPercent_zero in H. rewrite H in Hlt.
  by apply Qlt_not_le in Hlt; apply Hlt.
Qed.

Lemma onFlow_leakStep f now s : leakStep s (onFlow f now s).
Proof.
  unfold leakStep, onFlow.
  set (s0 := with_flowData (pushFlow f (flowData s)) s).
  destruct (leakSensorService s0); [|by left].
  destruct (raiseLeak_frame now s0) as [Hfd Hz].
  assert (Hrun : numberRunningZones (raiseLeak now s0) = numberRunningZones s)
    by (unfold numberRunningZones; by rewrite Hz).
  rewrite clearLeak_flowData, Hfd.
  destruct (clearLeak_cases (raiseLeak now s0)) as [->|(H0 & Hl & Hl' & Hnz)];
    destruct (raiseLeak_cases now s0) as [Hr|(H0' & Hl0 & Hl0' & Hpc)].
  - left. by rewrite Hr.
  - right. split; [done|]. by left.
  - right. rewrite Hrun in H0. rewrite Hfd in Hnz. split; [done|]. right.
    rewrite Hr in Hl. repeat split; try done.
    by apply nonZeroPercent_zero.
  - exfalso. rewrite Hfd in Hnz. by apply nonZeroVolume_zero_percent in Hnz.
Qed.

(** C4.  A flow event, delivered to the valves and then to the system, ends
    without exception and moves the leak flag only as [leakStep] allows:
    never while a zone is running, from false to true only above 80 percent
    of non-zero samples, from true to false only at exactly none. *)
Theorem leak_flag_changes_only_when_idle (f : FlowSample) (now : Z) (s : System) :
  exists s', flowEvent f now s = Some s' /\ leakStep s s'.
Proof.
  unfold flowEvent, messageServices.
  set (s0 := with_zones _ s).
  exists (onFlow f now s0). split.
  - repeat case_decide; try done.
  - pose proof (onFlow_leakStep f now s0) as H.
    unfold leakStep in *.
    change (leakDetected s0) with (leakDetected s) in H.
    unfold s0 in H at 2. rewrite (numberRunningZones_fmap_valves (fmap (Valve.onFlow (volume f)))) in H.
    exact H.
Qed.

(** C3.  With 25 of 30 buffered samples non-zero and no zone running, the
    flag is raised when no valve ever closed and when the last close is more
    than 10000 seconds old; it stays false when the last valve closed 20
    seconds ago, and still 10000 seconds after the close: the guard constant,
    10000 by its millisecond comment, is compared with seconds. *)
Theorem leak_guard_interval_is_10000_seconds :
  let after lastClose := onFlow (sampleAt 20000) 20000 (leakScenario 20000 lastClose) in
  nonZeroVolume (flowData (after 19980)) = 25%nat
  /\ length (flowData (after 19980)) = 30%nat
  /\ numberRunningZones (leakScenario 20000 19980) = 0%nat
  /\ leakDetected (leakScenario 20000 19980) = false
  /\ leakDetected (after 0) = true
  /\ leakDetected (after 19980) = false
  /\ leakDetected (after 10000) = false
  /\ leakDetected (after 9999) = true.
Proof. vm_compute. repeat split; reflexivity. Qed.

(** ** Frames of the valve operations *)

Lemma base_refl s : base s s.
Proof. by unfold base. Qed.

Lemma base_trans s1 s2 s3 : base s1 s2 -> base s2 s3 -> base s1 s3.
Proof. unfold base. intros (?&?&?&?) (?&?&?&?). repeat split; congruence. Qed.

Lemma same_cores_refl s : same_cores s s.
Proof. by intros id. Qed.

Lemma same_cores_trans s1 s2 s3 :
  same_cores s1 s2 -> same_cores s2 s3 -> same_cores s1 s3.
Proof. intros H1 H2 id. by rewrite H2, H1. Qed.

Lemma zones_update_zone id f s :
  zones (update_zone id f s) = alter f id (zones s).
Proof. reflexivity. Qed.

Lemma update_zone_cores id f F s :
  (forall z, core (f z) = F (core z)) ->
  cores_altered id F s (update_zone id f s).
Proof.
  intros Hf id'. rewrite zones_update_zone, lookup_alter.
  case_decide; subst; [|done].
  destruct (zones s !! id'); simpl; [|done]. by rewrite Hf.
Qed.

Lemma update_zone_same_cores id f s :
  (forall z, core (f z) = core z) -> same_cores s (update_zone id f s).
Proof.
  intros Hf id'. rewrite (update_zone_cores id f (fun c => c) s Hf).
  case_decide; [|done]. by destruct (zones s !! id').
Qed.

Lemma cores_altered_same_l id F s1 s2 s3 :
  same_cores s1 s2 -> cores_altered id F s2 s3 -> cores_altered id F s1 s3.
Proof. intros H1 H2 id'. rewrite H2, !H1. done. Qed.

Lemma cores_altered_trans id F G s1 s2 s3 :
  cores_altered id F s1 s2 -> cores_altered id G s2 s3 ->
  cores_altered id (fun c => G (F c)) s1 s3.
Proof.
  intros H1 H2 id'. rewrite H2, !H1. case_decide; [|done].
  by destruct (zones s1 !! id').
Qed.

Lemma cores_altered_ext id F G s s' :
  (forall z, zones s !! id = Some z -> F (core z) = G (core z)) ->
  cores_altered id F s s' -> cores_altered id G s s'.
Proof.
  intros Hext H id'. rewrite H. case_decide; [subst|done].
  destruct (zones s !! id') eqn:Hz; simpl; [|done]. by rewrite (Hext z).
Qed.

Lemma cores_altered_id id F s s' :
  (forall z, zones s !! id = Some z -> F (core z) = core z) ->
  cores_altered id F s s' -> same_cores s s'.
Proof.
  intros Hext H id'. rewrite H. case_decide; [subst|done].
  destruct (zones s !! id') eqn:Hz; simpl; [|done]. by rewrite (Hext z).
Qed.

Lemma same_cores_altered id s s' :
  same_cores s s' -> cores_altered id (fun c => c) s s'.
Proof. intros H id'. rewrite H. case_decide; [|done]. by destruct (zones s !! id'). Qed.

Lemma cores_altered_lookup id F s s' id' z' :
  cores_altered id F s s' -> zones s' !! id' = Some z' ->
  exists z, zones s !! id' = Some z
            /\ core z' = if decide (id = id') then F (core z) else core z.
Proof.
  intros H Hz'. specialize (H id'). rewrite Hz' in H. simpl in H.
  destruct (zones s !! id') as [z|]; [|by case_decide].
  exists z. split; [done|]. case_decide; simpl in H; congruence.
Qed.

Lemma same_cores_lookup s s' id z' :
  same_cores s s' -> zones s' !! id = Some z' ->
  exists z, zones s !! id = Some z /\ core z' = core z.
Proof.
  intros H Hz'. specialize (H id). rewrite Hz' in H.
  destruct (zones s !! id) as [z|]; [|done]. exists z. simpl in H. split; congruence.
Qed.

Lemma same_cores_lookup_r s s' id z :
  same_cores s s' -> zones s !! id = Some z ->
  exists z', zones s' !! id = Some z' /\ core z' = core z.
Proof.
  intros H Hz. specialize (H id). rewrite Hz in H.
  destruct (zones s' !! id) as [z'|]; [|done]. exists z'. simpl in H. split; congruence.
Qed.

Lemma onValveEvent_frame m s s' :
  onValveEvent m s = Some s' -> base s s' /\ same_cores s s'.
Proof.
  unfold onValveEvent. intros H.
  destruct (associatedZone _ s) as [a|]; simpl in H; [|done].
  destruct (Valve.e_status m), a as [zone|]; simplify_eq;
    try (split; [apply base_refl|apply same_cores_refl]).
  destruct (zones s !! uuid zone); simplify_eq;
    try (split; [apply base_refl|apply same_cores_refl]).
  split; [done|].
  eapply same_cores_trans; [|by apply update_zone_same_cores].
  by intros id.
Qed.

Lemma emit_frame e now s s' :
  emit e now s = Some s' -> base s s' /\ same_cores s s'.
Proof.
  unfold emit, messageServices. destruct e as [m|]; intros H.
  - repeat case_decide; try done. by eapply onValveEvent_frame.
  - simplify_eq. split; [apply base_refl|apply same_cores_refl].
Qed.

Lemma list_insert_alter_lookup {A} (f : A -> A) (l : list A) i x :
  l !! i = Some x -> <[i := f x]> l = alter f i l.
Proof.
  intros H. apply list_eq. intros j.
  destruct (decide (i = j)) as [->|Hne].
  - rewrite list_lookup_alter_eq, H. simpl.
    apply list_lookup_insert_eq. by eapply lookup_lt_Some.
  - by rewrite list_lookup_insert_ne, list_lookup_alter_ne.
Qed.

Lemma list_alter_fixed {A} (f : A -> A) (l : list A) i x :
  l !! i = Some x -> f x = x -> alter f i l = l.
Proof.
  intros H Hf. rewrite <- (list_insert_alter_lookup f l i x H), Hf.
  by apply list_insert_id.
Qed.

Lemma setValve_spec id i v s :
  base s (setValve id i v s)
  /\ cores_altered id (on_valves (fun vs => <[i := v]> vs)) s (setValve id i v s).
Proof. split; [done|]. by apply update_zone_cores. Qed.

Lemma valve_op_spec (op : Z -> Valve.t -> Valve.t * option Valve.Event)
    id i now s s' :
  (z ← zones s !! id; v ← valves z !! i;
   s1 ← emit (op now v).2 now s; Some (setValve id i (op now v).1 s1)) = Some s' ->
  base s s'
  /\ cores_altered id (on_valves (alter (fun v => (op now v).1) i)) s s'.
Proof.
  intros H.
  destruct (zones s !! id) as [z|] eqn:Hz; simpl in H; [|done].
  destruct (valves z !! i) as [v|] eqn:Hv; simpl in H; [|done].
  destruct (emit _ now s) as [s1|] eqn:He; simpl in H; [|done].
  simplify_eq. apply emit_frame in He as [Hb Hc].
  destruct (setValve_spec id i (op now v).1 s1) as [Hb' Hc'].
  split; [by eapply base_trans|].
  eapply cores_altered_ext; [|by eapply cores_altered_same_l].
  intros z0 Hz0. simplify_eq. unfold on_valves, core. simpl.
  by rewrite (list_insert_alter_lookup (fun v => (op now v).1) _ _ _ Hv).
Qed.

Lemma closeValve_spec id i now s s' :
  closeValve id i now s = Some s' ->
  base s s'
  /\ cores_altered id (on_valves (alter (fun v => (Valve.close now v).1) i)) s s'.
Proof. apply (valve_op_spec Valve.close). Qed.

Lemma openValve_spec id i now s s' :
  openValve id i now s = Some s' ->
  base s s'
  /\ cores_altered id (on_valves (alter (fun v => (Valve.open now v).1) i)) s s'.
Proof. apply (valve_op_spec Valve.open). Qed.

Lemma closeIfOpen_spec id now i s s' :
  closeIfOpen id now i s = Some s' ->
  base s s' /\ cores_altered id (on_valves (alter (closeIf now) i)) s s'.
Proof.
  unfold closeIfOpen. intros H.
  destruct (zones s !! id) as [z|] eqn:Hz; simpl in H; [|done].
  destruct (valves z !! i) as [v|] eqn:Hv; simpl in H; [|done].
  destruct (Valve.isOpen v) eqn:Ho.
  - apply closeValve_spec in H as [Hb Hc]. split; [done|].
    eapply cores_altered_ext; [|done].
    intros z0 Hz0. simplify_eq. unfold on_valves, core; simpl. f_equal. f_equal.
    rewrite <- !(list_insert_alter_lookup _ _ _ _ Hv). unfold closeIf. by rewrite Ho.
  - simplify_eq. split; [apply base_refl|].
    eapply cores_altered_ext; [|apply same_cores_altered, same_cores_refl].
    intros z0 Hz0. simplify_eq. unfold on_valves, core; simpl. f_equal. f_equal.
    symmetry. eapply list_alter_fixed; [done|]. unfold closeIf. by rewrite Ho.
Qed.

(** ** Loops *)

Lemma forEach_inv {A} (P : System -> Prop) (f : A -> System -> option System) l :
  (forall x s s', P s -> f x s = Some s' -> P s') ->
  forall s s', P s -> forEach f l s = Some s' -> P s'.
Proof.
  intros Hf. induction l as [|x l IH]; intros s s' HP H; simpl in H.
  - by simplify_eq.
  - destruct (f x s) as [s1|] eqn:Hx; simpl in H; [|done]. eauto.
Qed.

Lemma forEach_rel {A} (R : System -> System -> Prop)
    (f : A -> System -> option System) l :
  (forall s, R s s) -> (forall s1 s2 s3, R s1 s2 -> R s2 s3 -> R s1 s3) ->
  (forall x s s', f x s = Some s' -> R s s') ->
  forall s s', forEach f l s = Some s' -> R s s'.
Proof.
  intros Hr Ht Hf. induction l as [|x l IH]; intros s s' H; simpl in H.
  - by simplify_eq.
  - destruct (f x s) as [s1|] eqn:Hx; simpl in H; [|done]. eauto.
Qed.

Lemma close_loop id now m : forall k s s',
  forEach (closeIfOpen id now) (seq k m) s = Some s' ->
  base s s' /\ cores_altered id (on_valves (close_range now k m)) s s'.
Proof.
  induction m as [|m IH]; intros k s s' H; simpl in H.
  - simplify_eq. split; [apply base_refl|].
    eapply cores_altered_ext; [|apply same_cores_altered, same_cores_refl].
    by intros [[??]?] _.
  - destruct (closeIfOpen id now k s) as [s1|] eqn:H1; simpl in H; [|done].
    apply closeIfOpen_spec in H1 as [Hb1 Hc1]. apply IH in H as [Hb2 Hc2].
    split; [by eapply base_trans|].
    eapply cores_altered_ext; [|by eapply cores_altered_trans]. done.
Qed.

Lemma stopZone_spec id now s s' :
  stopZone id now s = Some s' ->
  base s s' /\ cores_altered id (stop_core now) s s'.
Proof.
  unfold stopZone. intros H.
  destruct (zones s !! id) as [z|] eqn:Hz; simpl in H; [|done].
  apply close_loop in H as [Hb Hc]. split; [done|].
  eapply cores_altered_ext; [|eapply cores_altered_trans; [|exact Hc]].
  2:{ apply (update_zone_cores id _ (fun c => (stopped c.1.1, c.1.2, None))). done. }
  intros z0 Hz0. simplify_eq. done.
Qed.

(** ** Lists of valves *)

Lemma all_closed_count vs : Valve.all_closed vs -> Valve.open_count vs = 0%nat.
Proof.
  unfold Valve.all_closed, Valve.open_count. induction 1 as [|v vs Hv _ IH]; [done|].
  rewrite filter_cons. case_decide; [congruence|done].
Qed.

Lemma closeIf_closed now v : valve_ok v -> Valve.isOpen (closeIf now v) = false.
Proof.
  unfold closeIf. intros Hok. destruct (Valve.isOpen v) eqn:Ho; [|done].
  unfold Valve.close. destruct (Valve.GPIO_ValvePin v) eqn:Hp; [done|].
  unfold Valve.isOpen in Ho. by rewrite (Hok Hp) in Ho.
Qed.

Lemma closeIf_ok now v : valve_ok v -> valve_ok (closeIf now v).
Proof.
  unfold closeIf. intros Hok. destruct (Valve.isOpen v); [|done].
  unfold Valve.close. by destruct (Valve.GPIO_ValvePin v).
Qed.

Lemma close_range_length now m : forall k vs,
  length (close_range now k m vs) = length vs.
Proof.
  induction m as [|m IH]; intros k vs; simpl; [done|].
  by rewrite IH, length_alter.
Qed.

Lemma Forall_alter_ok {A} (P : A -> Prop) (f : A -> A) i (l : list A) :
  (forall x, P x -> P (f x)) -> Forall P l -> Forall P (alter f i l).
Proof.
  intros Hf Hl. apply Forall_lookup. intros j y Hy.
  rewrite list_lookup_alter in Hy. case_decide as Hd.
  - subst. destruct (l !! j) as [x|] eqn:Hx; simplify_eq/=.
    apply Hf. by eapply Forall_lookup_1.
  - by eapply Forall_lookup_1.
Qed.

Lemma close_range_ok now m : forall k vs,
  Forall valve_ok vs -> Forall valve_ok (close_range now k m vs).
Proof.
  induction m as [|m IH]; intros k vs H; simpl; [done|].
  apply IH. apply Forall_alter_ok; [|done]. intros; by apply closeIf_ok.
Qed.

Lemma close_range_closed now m : forall k vs,
  Forall valve_ok vs -> (length vs <= k + m)%nat ->
  (forall i v, (i < k)%nat -> vs !! i = Some v -> Valve.isOpen v = false) ->
  Valve.all_closed (close_range now k m vs).
Proof.
  induction m as [|m IH]; intros k vs Hok Hlen Hpre; simpl.
  - apply Forall_lookup. intros i v Hv. apply (Hpre i v); [|done].
    apply lookup_lt_Some in Hv. lia.
  - apply IH.
    + apply Forall_alter_ok; [|done]. intros; by apply closeIf_ok.
    + rewrite length_alter. lia.
    + intros i v Hi Hv. rewrite list_lookup_alter in Hv. case_decide as Hd.
      * subst. destruct (vs !! i) as [x|] eqn:Hx; simplify_eq/=.
        apply closeIf_closed. by eapply Forall_lookup_1.
      * apply (Hpre i v); [lia|done].
Qed.

Lemma stop_core_ok now c : Forall valve_ok c.1.2 -> core_ok (stop_core now c).
Proof.
  intros Hok. unfold core_ok, stop_core; simpl.
  assert (Valve.all_closed (close_range now 0 (length c.1.2) c.1.2)) as Hc.
  { apply close_range_closed; [done|lia|]. intros; lia. }
  split; [by apply close_range_ok|]. split; [|done].
  rewrite all_closed_count; [lia|done].
Qed.

Lemma open_count_cons v vs :
  Valve.open_count (v :: vs)
  = ((if Valve.isOpen v then 1 else 0) + Valve.open_count vs)%nat.
Proof.
  unfold Valve.open_count. rewrite filter_cons.
  destruct (Valve.isOpen v); case_decide; simpl; congruence.
Qed.





Lemma all_closed_alter_count (f : Valve.t -> Valve.t) vs k :
  Valve.all_closed vs -> (Valve.open_count (alter f k vs) <= 1)%nat.
Proof.
  revert k. induction vs as [|a vs IH]; intros k H; [destruct k; compute; lia|].
  inversion H as [|? ? Ha Hvs]; subst. destruct k as [|k].
  - change (alter f 0%nat (a :: vs)) with (f a :: vs).
    rewrite open_count_cons, all_closed_count by done.
    destruct (Valve.isOpen (f a)); lia.
  - change (alter f (S k) (a :: vs)) with (a :: alter f k vs).
    rewrite open_count_cons, Ha. specialize (IH k Hvs). lia.
Qed.

Lemma valve_open_ok now v : valve_ok v -> valve_ok (Valve.open now v).1.
Proof.
  unfold valve_ok, Valve.open. intros Hok.
  destruct (Valve.GPIO_ValvePin v) eqn:Hp; simpl; [done|]. by rewrite Hp.
Qed.


(** ** The invariant under the zone operations *)

Lemma zones_ok_altered id F s s' :
  zones_ok s -> cores_altered id F s s' ->
  (forall z, zones s !! id = Some z -> core_ok (core z) -> core_ok (F (core z))) ->
  zones_ok s'.
Proof.
  intros Hok Hc HF id' z' Hz'.
  destruct (cores_altered_lookup _ _ _ _ _ _ Hc Hz') as (z & Hz & Hcore).
  rewrite Hcore. case_decide; [subst|]; eauto.
Qed.

Lemma zones_ok_same s s' : zones_ok s -> same_cores s s' -> zones_ok s'.
Proof.
  intros Hok Hc id z' Hz'.
  destruct (same_cores_lookup _ _ _ _ Hc Hz') as (z & Hz & ->). eauto.
Qed.

Lemma stopZone_ok id now s s' :
  zones_ok s -> stopZone id now s = Some s' -> zones_ok s'.
Proof.
  intros Hok H. apply stopZone_spec in H as [_ Hc].
  eapply zones_ok_altered; [done..|].
  intros z _ (Hv & _). by apply stop_core_ok.
Qed.

Lemma setZoneInactive_base index now s s' :
  setZoneInactive index now s = Some s' -> base s s'.
Proof.
  unfold setZoneInactive. intros H.
  repeat case_match; simplify_eq; try apply base_refl.
  by apply stopZone_spec in H as [? _].
Qed.

Lemma setZoneInactive_ok index now s s' :
  zones_ok s -> setZoneInactive index now s = Some s' -> zones_ok s'.
Proof.
  unfold setZoneInactive. intros Hok H.
  repeat case_match; simplify_eq; try done. by eapply stopZone_ok.
Qed.

Lemma stays_inactive_refl s : stays_inactive s s.
Proof. intros id. by destruct (zones s !! id). Qed.

Lemma stays_inactive_trans s1 s2 s3 :
  stays_inactive s1 s2 -> stays_inactive s2 s3 -> stays_inactive s1 s3.
Proof.
  intros H1 H2 id. specialize (H1 id). specialize (H2 id).
  destruct (zones s1 !! id), (zones s2 !! id), (zones s3 !! id); naive_solver.
Qed.

Lemma cores_altered_stays_inactive id F s s' :
  cores_altered id F s s' ->
  (forall c, Active c.1.1 = false -> Active (F c).1.1 = false) ->
  stays_inactive s s'.
Proof.
  intros Hc HF id'. specialize (Hc id').
  destruct (zones s !! id') as [z|], (zones s' !! id') as [z'|];
    simpl in Hc; try (by case_decide).
  intros Hz. case_decide; simplify_eq.
  - specialize (HF (core z) Hz). rewrite <- Hc in HF. done.
  - unfold core in Hc. congruence.
Qed.

Lemma stopZone_stays id now s s' :
  stopZone id now s = Some s' -> stays_inactive s s'.
Proof.
  intros H. apply stopZone_spec in H as [_ Hc].
  eapply cores_altered_stays_inactive; [done|]. done.
Qed.

Lemma setZoneInactive_stays index now s s' :
  setZoneInactive index now s = Some s' -> stays_inactive s s'.
Proof.
  unfold setZoneInactive. intros H.
  repeat case_match; simplify_eq; try apply stays_inactive_refl.
  by eapply stopZone_stays.
Qed.

Lemma forEach_app {A} (f : A -> System -> option System) l1 l2 s :
  forEach f (l1 ++ l2) s = (s1 ← forEach f l1 s; forEach f l2 s1).
Proof.
  revert s. induction l1 as [|x l1 IH]; intros s; simpl; [done|].
  destruct (f x s); simpl; [apply IH|done].
Qed.

Lemma seq_split_at (n j : nat) :
  (j < n)%nat -> seq 0 n = seq 0 j ++ j :: seq (S j) (n - S j).
Proof.
  intros Hj. replace n with (j + S (n - S j))%nat at 1 by lia.
  by rewrite seq_app.
Qed.

Lemma stopIfActive_base now j s s' : stopIfActive now j s = Some s' -> base s s'.
Proof.
  unfold stopIfActive. intros H.
  repeat case_match; simplify_eq; try apply base_refl.
  by eapply setZoneInactive_base.
Qed.

Lemma stopIfActive_ok now j s s' :
  zones_ok s -> stopIfActive now j s = Some s' -> zones_ok s'.
Proof.
  unfold stopIfActive. intros Hok H.
  repeat case_match; simplify_eq; try done. by eapply setZoneInactive_ok.
Qed.

Lemma stopIfActive_stays now j s s' :
  stopIfActive now j s = Some s' -> stays_inactive s s'.
Proof.
  unfold stopIfActive. intros H.
  repeat case_match; simplify_eq; try apply stays_inactive_refl.
  by eapply setZoneInactive_stays.
Qed.

Lemma stopIfActive_stops now j s s' zone z' :
  stopIfActive now j s = Some s' ->
  dzones s !! j = Some zone -> enabled zone = true -> power s = true ->
  zones s' !! uuid zone = Some z' -> Active (service z') = false.
Proof.
  unfold stopIfActive, setZoneInactive. intros H Hj Hen Hpw Hz'.
  rewrite Hj in H. destruct (zones s !! uuid zone) as [z|] eqn:Hz.
  - destruct (Active (service z)) eqn:Ha.
    + rewrite ?Hj, ?Hz, Hen, Hpw in H. simpl in H.
      apply stopZone_spec in H as [_ Hc].
      destruct (cores_altered_lookup _ _ _ _ _ _ Hc Hz') as (z0 & Hz0 & Hcore).
      rewrite decide_True in Hcore by done.
      unfold core, stop_core in Hcore. simpl in Hcore.
      injection Hcore as Hsv _ _. by rewrite Hsv.
    + by simplify_eq.
  - by simplify_eq.
Qed.

Lemma stopActiveZones_base now s s' : stopActiveZones now s = Some s' -> base s s'.
Proof.
  apply (forEach_rel base); [apply base_refl|apply base_trans|].
  intros; by eapply stopIfActive_base.
Qed.

Lemma stopActiveZones_ok now s s' :
  zones_ok s -> stopActiveZones now s = Some s' -> zones_ok s'.
Proof.
  intros Hok. apply (forEach_inv zones_ok); [|done].
  intros; by eapply stopIfActive_ok.
Qed.

Lemma stopActiveZones_stays now s s' :
  stopActiveZones now s = Some s' -> stays_inactive s s'.
Proof.
  apply (forEach_rel stays_inactive);
    [apply stays_inactive_refl|apply stays_inactive_trans|].
  intros; by eapply stopIfActive_stays.
Qed.

(** After the loop, the entry of every enabled zone is inactive. *)
Lemma stopActiveZones_stops now s s' j zone z' :
  stopActiveZones now s = Some s' ->
  dzones s !! j = Some zone -> enabled zone = true -> power s = true ->
  zones s' !! uuid zone = Some z' -> Active (service z') = false.
Proof.
  unfold stopActiveZones. intros H Hj Hen Hpw Hz'.
  rewrite (seq_split_at _ j) in H by (by eapply lookup_lt_Some).
  rewrite forEach_app in H.
  destruct (forEach _ (seq 0 j) s) as [sa|] eqn:Ha; simpl in H; [|done].
  destruct (stopIfActive now j sa) as [sb|] eqn:Hb; simpl in H; [|done].
  assert (base s sa) as (Hd & Hp & _).
  { revert Ha. apply (forEach_rel base); [apply base_refl|apply base_trans|].
    intros; by eapply stopIfActive_base. }
  assert (stays_inactive sb s') as Hst.
  { revert H. apply (forEach_rel stays_inactive);
      [apply stays_inactive_refl|apply stays_inactive_trans|].
    intros; by eapply stopIfActive_stays. }
  specialize (Hst (uuid zone)). rewrite Hz' in Hst.
  destruct (zones sb !! uuid zone) as [zb|] eqn:Hzb; [|done].
  apply Hst. eapply (stopIfActive_stops now j sa sb zone); try done; congruence.
Qed.

(** No zone counted as running: every service is inactive. *)
Lemma numberRunningZones_zero s id z :
  numberRunningZones s = 0%nat -> zones s !! id = Some z ->
  Active (service z) = false.
Proof.
  unfold numberRunningZones. revert id z.
  apply (map_fold_weak_ind
           (fun n (m : gmap string Zone) =>
              forall id z, n = 0%nat -> m !! id = Some z -> Active (service z) = false)).
  - intros id z _ H. by rewrite lookup_empty in H.
  - intros i x m r Hi IH id z Hn Hz.
    destruct (Active (service x)) eqn:Hx; [done|].
    rewrite lookup_insert in Hz. case_decide; simplify_eq; [done|]. eauto.
Qed.

Lemma startZone_spec index zone now s s' :
  startZone index zone now s = Some s' ->
  exists s1,
    (if (numberRunningZones s =? 0)%nat then s1 = s
     else stopActiveZones now s = Some s1)
    /\ base s1 s'
    /\ is_Some (zones s1 !! uuid zone)
    /\ cores_altered (uuid zone) (start_core index now) s1 s'.
Proof.
  unfold startZone. intros H.
  apply bind_Some in H as (s1 & H1 & H).
  exists s1. split.
  { destruct (numberRunningZones s =? 0)%nat; simpl in H1; by simplify_eq. }
  set (id := uuid zone) in *.
  set (s2 := update_zone id (with_totals 0 0) s1) in *.
  assert (same_cores s1 s2) as H12 by (by apply update_zone_same_cores).
  apply bind_Some in H as (z & Hz & H).
  apply bind_Some in H as (s3 & H3 & H).
  apply bind_Some in H as (z3 & Hz3 & H).
  simplify_eq.
  assert (base s2 s3
          /\ cores_altered id (on_valves (alter (fun v => (Valve.open now v).1) 0%nat))
               s2 s3) as [Hb23 Hc23].
  { destruct (0 <? length (valves z))%nat eqn:Hlen.
    - by apply openValve_spec.
    - simplify_eq. split; [apply base_refl|].
      eapply cores_altered_ext; [|apply same_cores_altered, same_cores_refl].
      intros z0 Hz0. assert (z0 = z) as -> by congruence.
      apply Nat.ltb_ge in Hlen. unfold on_valves, core. simpl.
      destruct (valves z); [done|simpl in Hlen; lia]. }
  destruct (same_cores_lookup _ _ _ _ H12 Hz) as (z1 & Hz1 & Hcore1).
  split; [by eapply base_trans|]. split; [by eexists|].
  eapply cores_altered_ext;
    [|eapply cores_altered_same_l; [exact H12|];
      eapply cores_altered_trans; [exact Hc23|];
      apply (update_zone_cores id _
               (fun c => (started (SetDuration (service z3)) c.1.1, c.1.2,
                          Some (index, now + SetDuration (service z3)))));
      done].
  intros z0 Hz0. assert (z0 = z1) as -> by congruence.
  destruct (cores_altered_lookup _ _ _ _ _ _ Hc23 Hz3) as (z2 & Hz2 & Hcore3).
  rewrite decide_True in Hcore3 by done. assert (z2 = z) as -> by congruence.
  unfold start_core, on_valves, core in *. simpl in *.
  injection Hcore3 as Hs3 _ _. injection Hcore1 as Hs1 _ _.
  by rewrite Hs3, Hs1.
Qed.

Lemma start_core_ok index now c :
  core_ok c -> Active c.1.1 = false -> core_ok (start_core index now c).
Proof.
  intros (Hv & Hc & Hall) Ha. specialize (Hall Ha).
  unfold core_ok, start_core; simpl. split; [|split].
  - apply Forall_alter_ok; [|done]. intros; by apply valve_open_ok.
  - by apply all_closed_alter_count.
  - done.
Qed.

Lemma startZone_ok index zone now s s' :
  zones_ok s -> dzones s !! index = Some zone -> enabled zone = true ->
  power s = true -> startZone index zone now s = Some s' -> zones_ok s'.
Proof.
  intros Hok Hi Hen Hpw H.
  apply startZone_spec in H as (s1 & H1 & _ & _ & Hc).
  assert (zones_ok s1 /\ forall z1, zones s1 !! uuid zone = Some z1 ->
                                    Active (service z1) = false) as [Hok1 Hin].
  { destruct (numberRunningZones s =? 0)%nat eqn:Hn.
    - subst. split; [done|]. intros z1 Hz1. apply Nat.eqb_eq in Hn.
      by eapply numberRunningZones_zero.
    - split; [by eapply stopActiveZones_ok|]. intros z1 Hz1.
      by eapply (stopActiveZones_stops now s s1 index zone). }
  eapply zones_ok_altered; [done..|].
  intros z Hz Hcz. apply start_core_ok; [done|]. by apply Hin.
Qed.

Lemma setZoneActive_ok index v now s s' :
  zones_ok s -> setZoneActive index v now s = Some s' -> zones_ok s'.
Proof.
  unfold setZoneActive. intros Hok H.
  destruct (dzones s !! index) as [zone|] eqn:Hi; [|by simplify_eq].
  destruct (validValue v); simpl in H; [|by simplify_eq].
  destruct (zones s !! uuid zone) as [z|] eqn:Hz; [|by simplify_eq].
  destruct (enabled zone) eqn:Hen; simpl in H; [|by simplify_eq].
  apply bind_Some in H as (s1 & H1 & H).
  assert (zones_ok s1) as Hok1.
  { destruct (power s) eqn:Hpw, (isActiveValue v); simpl in H1; simplify_eq;
      try done.
    by eapply startZone_ok. }
  destruct (power s1 && isInactiveValue v); simplify_eq; [|done].
  by eapply stopZone_ok.
Qed.

(** ** The interval of a running zone *)

Lemma handOver_spec id endTime now index s s' :
  handOver id endTime now index s = Some s' ->
  exists z v,
    zones s !! id = Some z /\ valves z !! index = Some v
    /\ if Valve.isOpen v && dueAt endTime now z index
       then base s s'
            /\ cores_altered id (on_valves (hand_over_valves now index)) s s'
       else s' = s.
Proof.
  unfold handOver. intros H.
  apply bind_Some in H as (z & Hz & H). apply bind_Some in H as (v & Hv & H).
  exists z, v. split; [done|]. split; [done|]. fold (dueAt endTime now z index) in H.
  destruct (Valve.isOpen v); simpl; [|by simplify_eq].
  destruct (dueAt endTime now z index); [|by simplify_eq].
  apply bind_Some in H as (s1 & H1 & H).
  apply closeValve_spec in H1 as [Hb1 Hc1]. apply openValve_spec in H as [Hb2 Hc2].
  split; [by eapply base_trans|].
  eapply cores_altered_ext; [|by eapply cores_altered_trans]. done.
Qed.


Lemma handOver_base id endTime now index s s' :
  handOver id endTime now index s = Some s' -> base s s'.
Proof.
  intros H. apply handOver_spec in H as (z & v & _ & _ & H).
  destruct (_ && _); [by destruct H|subst; apply base_refl].
Qed.



(** ** The invariant under the other callbacks *)









Lemma onFlow_zones f now s : zones (onFlow f now s) = zones s.
Proof.
  unfold onFlow, clearLeak, raiseLeak. repeat (case_match; simpl); done.
Qed.


Lemma waterLevelEvent_id id l p now s : waterLevelEvent id l p now s = Some s.
Proof. unfold waterLevelEvent, messageServices. by repeat case_decide. Qed.

Lemma tankReading_zones index r now s s' :
  tankReading index r now s = Some s' -> zones s' = zones s.
Proof.
  unfold tankReading. intros H.
  repeat case_match; simplify_eq; try done;
    rewrite waterLevelEvent_id in H; by simplify_eq.
Qed.





(** ** No exception while every configured zone has its entry *)

Lemma entries_ok_same s s' :
  entries_ok s -> dzones s' = dzones s ->
  (forall id, is_Some (zones s !! id) -> is_Some (zones s' !! id)) ->
  entries_ok s'.
Proof.
  unfold entries_ok. intros He Hd Hz. rewrite Hd.
  eapply Forall_impl; [done|]. intros zone. apply Hz.
Qed.

Lemma cores_altered_is_Some id F s s' id' :
  cores_altered id F s s' -> is_Some (zones s !! id') -> is_Some (zones s' !! id').
Proof.
  intros Hc [z Hz]. specialize (Hc id'). rewrite Hz in Hc.
  destruct (zones s' !! id'); [by eexists|]. by case_decide.
Qed.

Lemma entries_ok_altered id F s s' :
  entries_ok s -> base s s' -> cores_altered id F s s' -> entries_ok s'.
Proof.
  intros He (Hd & _) Hc. eapply entries_ok_same; [done..|].
  intros id'. by eapply cores_altered_is_Some.
Qed.

Lemma associatedZone_total id s :
  entries_ok s -> is_Some (associatedZone id s).
Proof.
  unfold associatedZone, entries_ok. generalize (@None ZoneConfig) as a.
  induction (dzones s) as [|zone l IH]; intros a He; simpl; [by eexists|].
  inversion He as [|? ? [z Hz] Hl]; subst.
  rewrite Hz. simpl. by apply IH.
Qed.

Lemma emit_total e now s : entries_ok s -> is_Some (emit e now s).
Proof.
  intros He. unfold emit, messageServices. destruct e as [m|]; [|by eexists].
  repeat case_decide; try done. unfold onValveEvent.
  destruct (associatedZone_total (Valve.e_uuid m) s He) as [a ->]. simpl.
  repeat case_match; by eexists.
Qed.

Lemma valve_op_total (op : Z -> Valve.t -> Valve.t * option Valve.Event)
    id i now s z v :
  entries_ok s -> zones s !! id = Some z -> valves z !! i = Some v ->
  is_Some (z ← zones s !! id; v ← valves z !! i;
           s1 ← emit (op now v).2 now s; Some (setValve id i (op now v).1 s1)).
Proof.
  intros He Hz Hv. rewrite Hz. simpl. rewrite Hv. simpl.
  destruct (emit_total (op now v).2 now s He) as [s1 ->]. by eexists.
Qed.

Lemma handOver_total id endTime now index s z v :
  entries_ok s -> zones s !! id = Some z -> valves z !! index = Some v ->
  is_Some (handOver id endTime now index s).
Proof.
  intros He Hz Hv. unfold handOver. rewrite Hz. simpl. rewrite Hv. simpl.
  destruct (Valve.isOpen v); [|by eexists].
  destruct (Qle_bool _ _); simpl; [|by eexists].
  destruct (Z.of_nat index <? _) eqn:Hlast; [|by eexists].
  apply Z.ltb_lt in Hlast.
  destruct (valve_op_total Valve.close id index now s z v He Hz Hv) as [s1 H1].
  change (closeValve id index now s = Some s1) in H1. rewrite H1. simpl.
  pose proof H1 as H1'. apply closeValve_spec in H1' as [Hb Hc].
  destruct (cores_altered_is_Some _ _ _ _ id Hc) as [z1 Hz1]; [by eexists|].
  destruct (cores_altered_lookup _ _ _ _ _ _ Hc Hz1) as (z0 & Hz0 & Hcore).
  rewrite decide_True in Hcore by done. assert (z0 = z) as -> by congruence.
  assert (is_Some (valves z1 !! (index + 1)%nat)) as [w Hw].
  { apply lookup_lt_is_Some. unfold core, on_valves in Hcore. simpl in Hcore.
    injection Hcore as _ -> _. rewrite length_alter. lia. }
  apply (valve_op_total Valve.open id (index + 1) now s1 z1 w); try done.
  by eapply entries_ok_altered.
Qed.


(** ** The scenario *)

Lemma lawnShows_spec lo n open act :
  lawnShows lo n open act = true ->
  forall k, (lo <= k < lo + n)%nat ->
    openValves "lawn" <$> lawnRun k = Some open
    /\ zoneActive "lawn" <$> lawnRun k = Some act.
Proof.
  unfold lawnShows. intros H k Hk. rewrite forallb_forall in H.
  specialize (H k). rewrite in_seq in H. specialize (H Hk).
  destruct (lawnRun k) as [s|]; [|done]. simpl.
  apply andb_true_iff in H as [H1 H2]. apply bool_decide_eq_true in H1.
  apply Bool.eqb_prop in H2. by rewrite H1, H2.
Qed.

Lemma hand_over_closes now index vs v :
  valve_ok v -> vs !! index = Some v -> Valve.isOpen v = true ->
  Valve.isOpen <$> hand_over_valves now index vs !! index = Some false.
Proof.
  intros Hok Hv Ho. unfold hand_over_valves.
  rewrite list_lookup_alter_ne by lia. rewrite list_lookup_alter_eq, Hv. simpl.
  f_equal. unfold Valve.close. destruct (Valve.GPIO_ValvePin v) eqn:Hp; [done|].
  unfold Valve.isOpen in *. by rewrite (Hok Hp) in Ho.
Qed.

Lemma hand_over_opens now index vs w :
  vs !! (index + 1)%nat = Some w -> Valve.GPIO_ValvePin w <> None ->
  Valve.isOpen <$> hand_over_valves now index vs !! (index + 1)%nat = Some true.
Proof.
  intros Hw Hp. unfold hand_over_valves.
  rewrite list_lookup_alter_eq, list_lookup_alter_ne by lia. rewrite Hw. simpl.
  f_equal. unfold Valve.open. by destruct (Valve.GPIO_ValvePin w).
Qed.

(** C1 (amended).  In the interval of a running zone, an open valve whose end
    time [endTime - (T / N) * (N - index - 1)] is reached, and which is not
    the last one, is closed and the next valve is opened; otherwise nothing
    changes.  For T = 300 and N = 3, started at second 0 and ticked every
    second: valve 0 alone is open during the seconds 0 to 99, valve 1 during
    100 to 199, valve 2 during 200 to 300, the zone being ACTIVE up to and
    including second 300; at second 301 the zone is INACTIVE and every valve
    is closed. *)
Theorem valve_sequencing :
  (forall id endTime now index s z v,
      entries_ok s -> valve_ok v ->
      zones s !! id = Some z -> valves z !! index = Some v ->
      Valve.isOpen v = true ->
      exists s', handOver id endTime now index s = Some s'
        /\ if Qle_bool
                (inject_Z endTime
                 - inject_Z (SetDuration (service z))
                   / inject_Z (Z.of_nat (length (valves z)))
                   * inject_Z (Z.of_nat (length (valves z)) - Z.of_nat index - 1))%Q
                (inject_Z now)
              && (Z.of_nat index <? Z.of_nat (length (valves z)) - 1)
           then exists z', zones s' !! id = Some z'
                  /\ valves z' = hand_over_valves now index (valves z)
                  /\ Valve.isOpen <$> valves z' !! index = Some false
                  /\ (forall w, valves z !! (index + 1)%nat = Some w ->
                                Valve.GPIO_ValvePin w <> None ->
                                Valve.isOpen <$> valves z' !! (index + 1)%nat
                                = Some true)
           else s' = s)
  /\ (valveEndTime 300 300 3 0 == 100 /\ valveEndTime 300 300 3 1 == 200
      /\ valveEndTime 300 300 3 2 == 300)%Q
  /\ (forall k, (k < 100)%nat ->
        openValves "lawn" <$> lawnRun k = Some [0%nat]
        /\ zoneActive "lawn" <$> lawnRun k = Some true)
  /\ (forall k, (100 <= k < 200)%nat ->
        openValves "lawn" <$> lawnRun k = Some [1%nat]
        /\ zoneActive "lawn" <$> lawnRun k = Some true)
  /\ (forall k, (200 <= k <= 300)%nat ->
        openValves "lawn" <$> lawnRun k = Some [2%nat]
        /\ zoneActive "lawn" <$> lawnRun k = Some true)
  /\ (openValves "lawn" <$> lawnRun 301 = Some []
      /\ zoneActive "lawn" <$> lawnRun 301 = Some false).
Proof.
  split; [|split; [|split; [|split; [|split]]]].
  - intros id endTime now index s z v He Hok Hz Hv Ho.
    destruct (handOver_total id endTime now index s z v He Hz Hv) as [s' H].
    exists s'. split; [done|].
    apply handOver_spec in H as (z0 & v0 & Hz0 & Hv0 & H).
    assert (z0 = z) as -> by congruence. assert (v0 = v) as -> by congruence.
    rewrite Ho in H. simpl in H. unfold dueAt, valveEndTime in H.
    destruct (_ && _); [|done]. destruct H as [_ Hc].
    destruct (cores_altered_is_Some _ _ _ _ id Hc) as [z' Hz']; [by eexists|].
    destruct (cores_altered_lookup _ _ _ _ _ _ Hc Hz') as (z1 & Hz1 & Hcore).
    rewrite decide_True in Hcore by done. assert (z1 = z) as -> by congruence.
    unfold core, on_valves in Hcore. simpl in Hcore. injection Hcore as _ Hvs _.
    exists z'. rewrite Hvs. repeat split; try done.
    + by eapply hand_over_closes.
    + intros w Hw Hp. by eapply hand_over_opens.
  - vm_compute. repeat split; reflexivity.
  - intros k Hk. apply (lawnShows_spec 0 100); [by vm_compute|lia].
  - intros k Hk. apply (lawnShows_spec 100 100); [by vm_compute|lia].
  - intros k Hk. apply (lawnShows_spec 200 101); [by vm_compute|lia].
  - by vm_compute.
Qed.

Lemma lawnAfter99_entries : entries_ok (lawnAfter 99).
Proof. vm_compute. constructor; [by eexists|constructor]. Qed.

Lemma valve_sequencing_witness :
  exists z v,
    zones (lawnAfter 99) !! "lawn"%string = Some z
    /\ valves z !! 0%nat = Some v
    /\ Valve.isOpen v = true
    /\ valve_ok v
    /\ entries_ok (lawnAfter 99)
    /\ exists s', handOver "lawn" 300 100 0 (lawnAfter 99) = Some s'.
Proof.
  eexists. eexists.
  split; [vm_compute; reflexivity|].
  split; [vm_compute; reflexivity|].
  split; [vm_compute; reflexivity|].
  assert (valve_ok (Valve.mk "v0" (Some 14) (Some 0) 0)) as Hok
    by (intros H; discriminate H).
  split; [exact Hok|].
  split; [exact lawnAfter99_entries|].
  destruct valve_sequencing as [H _].
  destruct (H "lawn"%string 300 100 0%nat (lawnAfter 99) _ _
              lawnAfter99_entries Hok
              ltac:(vm_compute; reflexivity) ltac:(vm_compute; reflexivity)
              ltac:(vm_compute; reflexivity)) as (s' & Hs' & _).
  exists s'. exact Hs'.
Defined.

(** C1, as stated, fails at second 300: the zone is still ACTIVE and valve 2
    is still open. *)
Lemma lawn_still_running_at_300 :
  zoneActive "lawn" <$> lawnRun 300 = Some true
  /\ openValves "lawn" <$> lawnRun 300 = Some [2%nat].
Proof. by vm_compute. Qed.

(** ** At most one open valve *)

Lemma new_valve_closed p : Valve.isOpen (newValve p) = false.
Proof. reflexivity. Qed.

Lemma newZone_ok zone rp z : newZone zone rp = Some z -> core_ok (core z).
Proof.
  assert (forall ps, Valve.all_closed (newValve <$> ps)) as Hall.
  { intros ps. apply Forall_fmap, Forall_true. intros p. apply new_valve_closed. }
  assert (forall ps, Forall valve_ok (newValve <$> ps)) as Hok.
  { intros ps. apply Forall_fmap, Forall_true. by intros p _. }
  destruct rp as [|p|ps]; intros H; simplify_eq/=; unfold core_ok; simpl.
  - split; [apply (Hok [p])|]. split; [|intros _; apply (Hall [p])].
    rewrite (all_closed_count [newValve p]); [lia|apply (Hall [p])].
  - split; [apply Hok|]. split; [|intros _; apply Hall].
    rewrite all_closed_count; [lia|apply Hall].
Qed.

Lemma addZones_ok cfg id z : addZones cfg !! id = Some z -> core_ok (core z).
Proof.
  unfold addZones.
  assert (forall (m : gmap string Zone),
             (forall id z, m !! id = Some z -> core_ok (core z)) ->
             forall id z,
               foldl (fun m c => match newZone c.1 c.2 with
                                 | Some z => <[uuid c.1 := z]> m
                                 | None => m
                                 end) m cfg !! id = Some z ->
               core_ok (core z)) as H.
  { induction cfg as [|c cfg IH]; intros m Hm id' z' Hz'; simpl in Hz'; [eauto|].
    eapply IH; [|done]. intros id0 z0 Hz0.
    destruct (newZone c.1 c.2) as [zn|] eqn:Hn; [|eauto].
    rewrite lookup_insert in Hz0. case_decide; simplify_eq; [|eauto].
    by eapply newZone_ok. }
  apply H. intros id0 z0 Hz0. by rewrite lookup_empty in Hz0.
Qed.

Lemma addServices_ok pw pause alert leak cfg ts :
  zones_ok (addServices pw pause alert leak cfg ts).
Proof. intros id z Hz. exact (addZones_ok cfg id z Hz). Qed.

(** C2.  The lawn, a zone of three valves beside two other enabled zones,
    runs since second 0 and has handed over to its second valve.  "System
    off, lawn off, front off" arrive in one window: HomeKit has stored
    INACTIVE in the lawn's Active characteristic, so [setPower] does not stop
    it, and the request "lawn off" finds the power off: the lawn keeps its
    interval and its open valve.  "Lawn on" is then refused and sets the
    500 ms timeout; within that delay "system on, lawn on, front off" arrive;
    the timeout cancels the interval and stores INACTIVE without closing the
    valve; the batch turns the power on and starts the lawn, which stops
    nothing since no zone shows ACTIVE, and opens the first valve.  The lawn
    is ACTIVE with its first and its second valve open, and stays so for 99
    ticks, until the first valve hands over at second 252. *)
Theorem two_valves_open_after_refused_start :
  exists off asked restarted z,
    yardPoweredOff = Some off
    /\ power off = false /\ openValves "lawn" off = [1%nat]
    /\ zoneActive "lawn" off = false
    /\ yardAsked = Some asked
    /\ setsRevertTimeout 0 (VNum 1) asked = true
    /\ yardRestarted = Some restarted
    /\ power restarted = true
    /\ zoneActive "lawn" restarted = true
    /\ openValves "lawn" restarted = [0%nat; 1%nat]
    /\ zones restarted !! "lawn"%string = Some z
    /\ Valve.open_count (valves z) = 2%nat
    /\ yardShows 99 [0%nat; 1%nat] = true
    /\ lawnOpen (yardAfter 100) = Some [1%nat].
Proof.
  do 4 eexists.
  split; [vm_compute; reflexivity|].
  split; [reflexivity|]. split; [vm_compute; reflexivity|].
  split; [vm_compute; reflexivity|].
  split; [vm_compute; reflexivity|].
  split; [vm_compute; reflexivity|].
  split; [vm_compute; reflexivity|].
  split; [reflexivity|]. split; [vm_compute; reflexivity|].
  split; [vm_compute; reflexivity|].
  split; [vm_compute; reflexivity|].
  split; [vm_compute; reflexivity|].
  split; vm_compute; reflexivity.
Qed.

(** ** Pause *)

Lemma setPower_pauseTimeout v now s s' :
  setPower v now s = Some s' -> pauseTimeout s' = pauseTimeout s.
Proof.
  unfold setPower. intros H. apply bind_Some in H as (s1 & H1 & H).
  assert (pauseTimeout s1 = pauseTimeout s) as Hp.
  { destruct (isOffValue v); [|by simplify_eq].
    apply bind_Some in H1 as (s2 & H2 & H1). simplify_eq.
    apply stopActiveZones_base in H2 as (_ & _ & Hp & _). exact Hp. }
  simplify_eq. by destruct (isOnValue v).
Qed.

(** The resuming tick leaves the pause time stamp as it was. *)
Lemma pauseTimer_keeps_pauseTimeout now s s' called :
  pauseTimer now s = Some (s', called) -> pauseTimeout s' = pauseTimeout s.
Proof.
  unfold pauseTimer. intros H. destruct (_ && _); [|by simplify_eq].
  apply bind_Some in H as (s1 & H1 & H). simplify_eq.
  by eapply setPower_pauseTimeout.
Qed.

(** C6.  With a pause ending at second 86400: the tick at 86399 does nothing;
    the tick at 86400 calls [setPower(true)] and the power is on, but the
    pause time stamp is still 86400, and the tick at 86405 calls
    [setPower(true)] again. *)
Theorem pause_is_not_cleared_on_resume :
  pauseTimer 86399 pausedSystem = Some (pausedSystem, false)
  /\ exists s1 s2,
      pauseTimer 86400 pausedSystem = Some (s1, true)
      /\ power s1 = true
      /\ pauseTimeout s1 = 86400
      /\ pauseTimer 86405 s1 = Some (s2, true)
      /\ pauseTimeout s2 = 86400.
Proof.
  split; [by vm_compute|].
  eexists. eexists.
  split; [vm_compute; reflexivity|].
  split; [reflexivity|]. split; [reflexivity|].
  split; [vm_compute; reflexivity|]. reflexivity.
Qed.

(** ** Tanks *)

(** C9.  A reading of 30 cm in a tank of 400 mm with 200 mm unusable, and any
    reading in a tank whose minimum level is its sensor height, succeed and
    emit the level event with a percentage that is NaN, outside 0..100. *)
Theorem tank_percentage_can_be_NaN :
  let narrow := WaterTank.readUsonicSensor (WaterTank.Distance 30) tankNarrow in
  let flat := WaterTank.readUsonicSensor (WaterTank.Distance 100) tankFlat in
  let flat' := WaterTank.readUsonicSensor WaterTank.OutOfRange tankFlat in
  (WaterTank.percentage narrow.1 = Some JsNum.NaN /\ narrow.2 = true)
  /\ (WaterTank.percentage flat.1 = Some JsNum.NaN /\ flat.2 = true)
  /\ (WaterTank.percentage flat'.1 = Some JsNum.NaN /\ flat'.2 = true)
  /\ ~ JsNum.in_0_100 JsNum.NaN.
Proof. vm_compute. repeat split; try reflexivity. by intros []. Qed.

(** C10.  The listener of the tanks' level event passes the tag
    [WaterTank.WATERLEVEL] to [messageServices], which tests it against
    [Valve.WATERLEVEL], an undefined property: the event changes nothing and
    no aggregate is ever written to the WaterLevel characteristic.  A reading
    of 100 cm gives the tank 50 percent and leaves WaterLevel unset.  The sum
    that the dead branch would report is NaN as soon as one tank has no
    reading yet, and equals the capped sum otherwise. *)
Theorem water_level_event_reports_nothing :
  (forall id level pct now s, waterLevelEvent id level pct now s = Some s)
  /\ (exists s',
        tankReading 0 (WaterTank.Distance 100) 0 tankSystem = Some s'
        /\ percentageIs 50 <$> tanks s' !! 0%nat = Some true
        /\ WaterLevel s' = None)
  /\ totalPercentage [tankRead40; tankUnread] = JsNum.NaN
  /\ totalPercentage [tankRead40; tankRead40; tankRead40] = JsNum.ofZ 100.
Proof.
  split; [intros; apply waterLevelEvent_id|].
  split; [eexists; split; [vm_compute; reflexivity|by vm_compute]|].
  by vm_compute.
Qed.

(** ** The configuration under the zone operations *)

Lemma config_kept_refl s : config_kept s s.
Proof. by split. Qed.

Lemma config_kept_trans s1 s2 s3 :
  config_kept s1 s2 -> config_kept s2 s3 -> config_kept s1 s3.
Proof.
  intros [Hd1 H1] [Hd2 H2]. split; [congruence|]. intros id. by rewrite H2, H1.
Qed.

Lemma cores_altered_config_kept id F s s' :
  base s s' -> cores_altered id F s s' ->
  (forall c, IsConfigured (F c).1.1 = IsConfigured c.1.1) ->
  config_kept s s'.
Proof.
  intros (Hd & _) Hc HF. split; [done|]. intros id'. specialize (Hc id').
  destruct (zones s !! id') as [z|], (zones s' !! id') as [z'|];
    simpl in *; try (by case_decide).
  f_equal. case_decide; simplify_eq.
  - specialize (HF (core z)). rewrite <- Hc in HF. exact HF.
  - unfold core in Hc. congruence.
Qed.

Lemma config_kept_is_Some s s' id :
  config_kept s s' -> is_Some (zones s !! id) -> is_Some (zones s' !! id).
Proof.
  intros [_ H] [z Hz]. specialize (H id). rewrite Hz in H.
  by destruct (zones s' !! id); [eexists|].
Qed.

Lemma config_kept_entries s s' :
  config_kept s s' -> entries_ok s -> entries_ok s'.
Proof.
  intros Hk He. eapply entries_ok_same; [done|apply Hk|].
  intros id. by apply config_kept_is_Some.
Qed.

Lemma config_kept_enabled s s' :
  config_kept s s' -> numberEnabledZones s' = numberEnabledZones s.
Proof.
  intros [_ H]. unfold numberEnabledZones.
  rewrite <- !(map_fold_fmap (fun _ (b : bool) n => if b then S n else n)
                 (fun z => IsConfigured (service z))).
  f_equal. apply map_eq. intros id. rewrite !lookup_fmap. apply H.
Qed.

Lemma stopZone_kept id now s s' : stopZone id now s = Some s' -> config_kept s s'.
Proof.
  intros H. apply stopZone_spec in H as [Hb Hc].
  by eapply cores_altered_config_kept.
Qed.

Lemma setZoneInactive_kept index now s s' :
  setZoneInactive index now s = Some s' -> config_kept s s'.
Proof.
  unfold setZoneInactive. intros H.
  repeat case_match; simplify_eq; try apply config_kept_refl.
  by eapply stopZone_kept.
Qed.

Lemma stopIfActive_kept now j s s' :
  stopIfActive now j s = Some s' -> config_kept s s'.
Proof.
  unfold stopIfActive. intros H.
  repeat case_match; simplify_eq; try apply config_kept_refl.
  by eapply setZoneInactive_kept.
Qed.

Lemma stopActiveZones_kept now s s' :
  stopActiveZones now s = Some s' -> config_kept s s'.
Proof.
  apply (forEach_rel config_kept); [apply config_kept_refl|apply config_kept_trans|].
  intros; by eapply stopIfActive_kept.
Qed.

Lemma startZone_kept index zone now s s' :
  startZone index zone now s = Some s' -> config_kept s s'.
Proof.
  intros H. apply startZone_spec in H as (s1 & H1 & Hb & _ & Hc).
  eapply config_kept_trans; [|by eapply cores_altered_config_kept].
  destruct (numberRunningZones s =? 0)%nat; [subst; apply config_kept_refl|].
  by eapply stopActiveZones_kept.
Qed.

Lemma setZoneActive_kept index v now s s' :
  setZoneActive index v now s = Some s' -> config_kept s s'.
Proof.
  unfold setZoneActive. intros H.
  destruct (dzones s !! index) as [zone|]; [|simplify_eq; apply config_kept_refl].
  destruct (validValue v); simpl in H; [|simplify_eq; apply config_kept_refl].
  destruct (zones s !! uuid zone); [|simplify_eq; apply config_kept_refl].
  destruct (enabled zone); simpl in H; [|simplify_eq; apply config_kept_refl].
  apply bind_Some in H as (s1 & H1 & H).
  eapply (config_kept_trans _ s1).
  - destruct (power s && isActiveValue v); [|simplify_eq; apply config_kept_refl].
    by eapply startZone_kept.
  - destruct (power s1 && isInactiveValue v); [|simplify_eq; apply config_kept_refl].
    by eapply stopZone_kept.
Qed.

Lemma setPower_kept v now s s' : setPower v now s = Some s' -> config_kept s s'.
Proof.
  unfold setPower. intros H. apply bind_Some in H as (s1 & H1 & H).
  assert (config_kept s s1) as Hk.
  { destruct (isOffValue v); [|simplify_eq; by split].
    apply bind_Some in H1 as (s2 & H2 & H1). simplify_eq.
    apply stopActiveZones_kept in H2. exact H2. }
  simplify_eq. destruct (isOnValue v); exact Hk.
Qed.

(** ** No exception in the zone operations *)

Lemma forEach_total {A} (P : System -> Prop) (f : A -> System -> option System) l :
  (forall x s, In x l -> P s -> exists s', f x s = Some s' /\ P s') ->
  forall s, P s -> exists s', forEach f l s = Some s' /\ P s'.
Proof.
  induction l as [|x l IH]; intros Hf s HP; simpl; [by exists s|].
  destruct (Hf x s) as (s1 & H1 & HP1); [by left|done|].
  rewrite H1. simpl. apply IH; [|done]. intros y s2 Hy. apply Hf. by right.
Qed.

Lemma closeIfOpen_total id now i s z :
  entries_ok s -> zones s !! id = Some z -> (i < length (valves z))%nat ->
  is_Some (closeIfOpen id now i s).
Proof.
  intros He Hz Hi. unfold closeIfOpen. rewrite Hz. simpl.
  destruct (lookup_lt_is_Some_2 (valves z) i Hi) as [v Hv]. rewrite Hv. simpl.
  destruct (Valve.isOpen v); [|by eexists].
  by apply (valve_op_total Valve.close id i now s z v).
Qed.

Lemma stopZone_total id now s :
  entries_ok s -> is_Some (zones s !! id) -> is_Some (stopZone id now s).
Proof.
  intros He [z Hz]. unfold stopZone. rewrite Hz. simpl.
  set (s0 := update_zone id _ s).
  destruct (forEach_total
              (fun s1 => entries_ok s1
                         /\ exists z1, zones s1 !! id = Some z1
                                       /\ length (valves z1) = length (valves z))
              (closeIfOpen id now) (seq 0 (length (valves z)))) with (s := s0)
    as (s' & H & _).
  - intros i s1 Hi (He1 & z1 & Hz1 & Hlen). apply in_seq in Hi.
    destruct (closeIfOpen_total id now i s1 z1 He1 Hz1) as [s2 H2]; [lia|].
    exists s2. split; [done|]. apply closeIfOpen_spec in H2 as [Hb Hc].
    split; [by eapply entries_ok_altered|].
    destruct (cores_altered_is_Some _ _ _ _ id Hc) as [z2 Hz2]; [by eexists|].
    exists z2. split; [done|].
    destruct (cores_altered_lookup _ _ _ _ _ _ Hc Hz2) as (z0 & Hz0 & Hcore).
    rewrite decide_True in Hcore by done. assert (z0 = z1) as -> by congruence.
    unfold core, on_valves in Hcore. simpl in Hcore. injection Hcore as _ -> _.
    by rewrite length_alter.
  - split.
    + eapply entries_ok_same; [done..|]. intros id' [z' Hz'].
      unfold s0. rewrite zones_update_zone, lookup_alter.
      case_decide; [subst; rewrite Hz'|rewrite Hz']; by eexists.
    + eexists. split; [unfold s0; rewrite zones_update_zone, lookup_alter_eq, Hz; done|].
      done.
  - by eexists.
Qed.

Lemma setZoneInactive_total index now s :
  entries_ok s -> is_Some (setZoneInactive index now s).
Proof.
  intros He. unfold setZoneInactive.
  destruct (dzones s !! index) as [zone|]; [|by eexists].
  destruct (zones s !! uuid zone) eqn:Hz; [|by eexists].
  destruct (enabled zone); simpl; [|by eexists].
  destruct (power s); [|by eexists]. apply stopZone_total; [done|by eexists].
Qed.

Lemma stopActiveZones_total now s :
  entries_ok s -> exists s', stopActiveZones now s = Some s' /\ entries_ok s'.
Proof.
  intros He. apply (forEach_total entries_ok); [|done].
  intros j s1 _ He1. unfold stopIfActive.
  assert (exists s', setZoneInactive j now s1 = Some s' /\ entries_ok s') as Hin.
  { destruct (setZoneInactive_total j now s1 He1) as [s2 H2]. exists s2.
    split; [done|]. eapply config_kept_entries; [|done].
    by eapply setZoneInactive_kept. }
  repeat case_match; try done; by exists s1.
Qed.

Lemma openValve_total id i now s z :
  entries_ok s -> zones s !! id = Some z -> (i < length (valves z))%nat ->
  is_Some (openValve id i now s).
Proof.
  intros He Hz Hi. destruct (lookup_lt_is_Some_2 (valves z) i Hi) as [v Hv].
  by apply (valve_op_total Valve.open id i now s z v).
Qed.

Local Opaque update_zone.

Lemma startZone_total index zone now s :
  entries_ok s -> is_Some (zones s !! uuid zone) ->
  is_Some (startZone index zone now s).
Proof.
  intros He Hz. unfold startZone.
  assert (exists s1, (if negb (numberRunningZones s =? 0)%nat
                      then stopActiveZones now s else Some s) = Some s1
                     /\ entries_ok s1 /\ is_Some (zones s1 !! uuid zone))
    as (s1 & -> & He1 & [z1 Hz1]).
  { destruct (numberRunningZones s =? 0)%nat; simpl; [by exists s|].
    destruct (stopActiveZones_total now s He) as (s1 & H1 & He1).
    exists s1. split; [done|]. split; [done|].
    eapply config_kept_is_Some; [|done]. by eapply stopActiveZones_kept. }
  simpl. set (s2 := update_zone (uuid zone) (with_totals 0 0) s1).
  assert (zones s2 !! uuid zone = Some (with_totals 0 0 z1)) as Hz2.
  { unfold s2. by rewrite zones_update_zone, lookup_alter_eq, Hz1. }
  assert (entries_ok s2) as He2.
  { eapply entries_ok_same; [done..|]. intros id' [z' Hz'].
    unfold s2. rewrite zones_update_zone, lookup_alter.
    case_decide; [subst; rewrite Hz'|rewrite Hz']; by eexists. }
  rewrite Hz2. simpl.
  destruct (0 <? length (valves z1))%nat eqn:Hlen.
  - apply Nat.ltb_lt in Hlen.
    destruct (openValve_total (uuid zone) 0 now s2 _ He2 Hz2 Hlen) as [s3 H3].
    rewrite H3. simpl. apply openValve_spec in H3 as [_ Hc].
    destruct (cores_altered_is_Some _ _ _ _ (uuid zone) Hc) as [z3 ->];
      [by eexists|]. by eexists.
  - simpl. rewrite Hz2. by eexists.
Qed.

Local Transparent update_zone.

Lemma setZoneActive_total index v now s :
  entries_ok s -> is_Some (setZoneActive index v now s).
Proof.
  intros He. unfold setZoneActive.
  destruct (dzones s !! index) as [zone|]; [|by eexists].
  destruct (validValue v); simpl; [|by eexists].
  destruct (zones s !! uuid zone) eqn:Hz; [|by eexists].
  destruct (enabled zone); simpl; [|by eexists].
  assert (exists s1, (if power s && isActiveValue v
                      then startZone index zone now s else Some s) = Some s1
                     /\ entries_ok s1 /\ is_Some (zones s1 !! uuid zone))
    as (s1 & -> & He1 & Hz1).
  { destruct (power s && isActiveValue v); [|exists s; by eauto].
    destruct (startZone_total index zone now s He) as [s1 H1]; [by eexists|].
    exists s1. split; [done|]. pose proof (startZone_kept _ _ _ _ _ H1) as Hk.
    split; [by eapply config_kept_entries|].
    eapply config_kept_is_Some; [done|by eexists]. }
  simpl. destruct (power s1 && isInactiveValue v); [|by eexists].
  by apply stopZone_total.
Qed.

Lemma setPower_total v now s : entries_ok s -> is_Some (setPower v now s).
Proof.
  intros He. unfold setPower.
  destruct (isOffValue v); simpl; [|by eexists].
  destruct (stopActiveZones_total now
              (with_power (power s) (irrigationActive s) false (programMode s) s))
    as (s1 & -> & _); [done|]. by eexists.
Qed.

(** ** Commands on zones *)

Lemma stays_inactive_activates s s' : stays_inactive s s' -> activates_enabled s s'.
Proof.
  intros H id z z' Hz Hz' Ha Ha'. specialize (H id). rewrite Hz, Hz' in H.
  rewrite (H Ha) in Ha'. done.
Qed.

Lemma activates_enabled_trans s1 s2 s3 :
  config_kept s1 s2 -> activates_enabled s1 s2 -> activates_enabled s2 s3 ->
  activates_enabled s1 s3.
Proof.
  intros Hk H12 H23 id z1 z3 Hz1 Hz3 Ha1 Ha3.
  destruct (config_kept_is_Some s1 s2 id Hk) as [z2 Hz2]; [by eexists|].
  destruct (Active (service z2)) eqn:Ha2; [by eapply H12|].
  destruct (H23 id z2 z3 Hz2 Hz3 Ha2 Ha3) as (index & zone & Hi & Hu & He).
  exists index, zone. destruct Hk as [Hd _]. by rewrite <- Hd.
Qed.

Lemma startZone_activates index zone now s s' :
  dzones s !! index = Some zone -> enabled zone = true ->
  startZone index zone now s = Some s' -> activates_enabled s s'.
Proof.
  intros Hi Hen H. apply startZone_spec in H as (s1 & H1 & _ & _ & Hc).
  assert (stays_inactive s s1) as Hst.
  { destruct (numberRunningZones s =? 0)%nat; [subst; apply stays_inactive_refl|].
    by eapply stopActiveZones_stays. }
  intros id z z' Hz Hz' Ha Ha'.
  destruct (decide (uuid zone = id)) as [Hid|Hid]; [by exists index, zone|].
  exfalso. destruct (cores_altered_lookup _ _ _ _ _ _ Hc Hz') as (z1 & Hz1 & Hcore).
  rewrite decide_False in Hcore by done. specialize (Hst id).
  rewrite Hz, Hz1 in Hst. unfold core in Hcore. injection Hcore as Hsv _ _.
  rewrite Hsv, (Hst Ha) in Ha'. done.
Qed.

Lemma setZoneActive_activates index v now s s' :
  setZoneActive index v now s = Some s' -> activates_enabled s s'.
Proof.
  unfold setZoneActive. intros H.
  pose proof (stays_inactive_activates s s (stays_inactive_refl s)) as Hrefl.
  destruct (dzones s !! index) as [zone|] eqn:Hi; [|by simplify_eq].
  destruct (validValue v); simpl in H; [|by simplify_eq].
  destruct (zones s !! uuid zone); [|by simplify_eq].
  destruct (enabled zone) eqn:Hen; simpl in H; [|by simplify_eq].
  apply bind_Some in H as (s1 & H1 & H).
  assert (config_kept s s1 /\ activates_enabled s s1) as [Hk Ha1].
  { destruct (power s && isActiveValue v); [|by simplify_eq].
    split; [by eapply startZone_kept|by eapply startZone_activates]. }
  eapply activates_enabled_trans; [done..|].
  apply stays_inactive_activates.
  destruct (power s1 && isInactiveValue v);
    [by eapply stopZone_stays|simplify_eq; apply stays_inactive_refl].
Qed.

Lemma setPower_stays v now s s' : setPower v now s = Some s' -> stays_inactive s s'.
Proof.
  unfold setPower. intros H. apply bind_Some in H as (s1 & H1 & H).
  assert (stays_inactive s s1) as Hst.
  { destruct (isOffValue v); [|simplify_eq; exact (stays_inactive_refl s)].
    apply bind_Some in H1 as (s2 & H2 & H1). simplify_eq.
    apply stopActiveZones_stays in H2. exact H2. }
  simplify_eq. destruct (isOnValue v); exact Hst.
Qed.

Lemma update_service_stays (f : Service -> Service) id s :
  (forall sv, Active (f sv) = Active sv) ->
  stays_inactive s (update_zone id (with_service f) s).
Proof.
  intros Hf. eapply cores_altered_stays_inactive.
  - apply (update_zone_cores _ _ (fun c => (f c.1.1, c.1.2, c.2))). done.
  - intros c Hc. simpl. by rewrite Hf.
Qed.

Lemma handOver_stays id endTime now index s s' :
  handOver id endTime now index s = Some s' -> stays_inactive s s'.
Proof.
  intros H. apply handOver_spec in H as (z & v & _ & _ & H).
  destruct (_ && _); [|subst; apply stays_inactive_refl].
  destruct H as [_ Hc]. by eapply cores_altered_stays_inactive.
Qed.

Lemma zoneTimer_stays index endTime now s s' :
  zoneTimer index endTime now s = Some s' -> stays_inactive s s'.
Proof.
  unfold zoneTimer. intros H.
  apply bind_Some in H as (zone & Hi & H). apply bind_Some in H as (s1 & H1 & H).
  eapply (stays_inactive_trans _ s1).
  - destruct (now <? endTime); [|simplify_eq; apply stays_inactive_refl].
    apply bind_Some in H1 as (z & Hz & H1).
    set (s0 := update_zone (uuid zone)
                 (with_service (set_RemainingDuration (endTime - now))) s) in *.
    apply (stays_inactive_trans _ s0); [by apply update_service_stays|].
    revert H1. apply (forEach_rel stays_inactive);
      [apply stays_inactive_refl|apply stays_inactive_trans|].
    intros; by eapply handOver_stays.
  - destruct (endTime <? now); [|simplify_eq; apply stays_inactive_refl].
    by eapply setZoneInactive_stays.
Qed.

Lemma processRequests_activates sc vc now l : forall st st',
  processRequests sc vc now l st = Some st' ->
  config_kept st.1 st'.1 /\ activates_enabled st.1 st'.1.
Proof.
  induction l as [|c l IH]; intros st st' H; simpl in H.
  - simplify_eq. split; [apply config_kept_refl|].
    apply stays_inactive_activates, stays_inactive_refl.
  - apply bind_Some in H as (st1 & H1 & H). apply IH in H as [Hk2 Ha2].
    assert (config_kept st.1 st1.1 /\ activates_enabled st.1 st1.1) as [Hk1 Ha1].
    { destruct st as [s calls]. unfold processRequest in H1. simpl.
      pose proof (stays_inactive_activates s s (stays_inactive_refl s)) as Hrefl.
      destruct (isSystemType (type c)), (takesAction sc vc c s).
      - apply bind_Some in H1 as (s2 & H2 & H1). simplify_eq. simpl.
        split; [by eapply setPower_kept|].
        apply stays_inactive_activates. by eapply setPower_stays.
      - simplify_eq. split; [apply config_kept_refl|done].
      - apply bind_Some in H1 as (s2 & H2 & H1). simplify_eq. simpl.
        destruct (context c);
          [|simplify_eq; split; [apply config_kept_refl|done]].
        split; [by eapply setZoneActive_kept|by eapply setZoneActive_activates].
      - simplify_eq. split; [apply config_kept_refl|done]. }
    split; [by eapply config_kept_trans|by eapply activates_enabled_trans].
Qed.

Lemma stays_inactive_zones s s' : zones s' = zones s -> stays_inactive s s'.
Proof. intros H id. rewrite H. by destruct (zones s !! id). Qed.

(** A callback turns an entry active only for an enabled zone object. *)
Lemma Step_activates s s' : Step s s' -> activates_enabled s s'.
Proof.
  intros H. destruct H.
  - by eapply setZoneActive_activates.
  - apply stays_inactive_activates.
    unfold setZoneEnabled in *.
    destruct (dzones s !! index) as [zone|];
      [|simplify_eq; apply stays_inactive_refl].
    destruct (validValue v); simpl in *; [|simplify_eq; apply stays_inactive_refl].
    destruct (zones s !! uuid zone) as [z|];
      [|simplify_eq; apply stays_inactive_refl].
    match goal with
    | H : _ ≫= _ = Some _ |- _ => apply bind_Some in H as (s1 & H1 & H)
    end. simplify_eq.
    eapply (stays_inactive_trans _ s1).
    + destruct (_ && _); [by eapply setZoneInactive_stays|].
      simplify_eq. apply stays_inactive_refl.
    + apply (update_service_stays _ _ (setConfig index _ s1)). done.
  - apply stays_inactive_activates. unfold setZoneRuntime in *.
    repeat case_match; simplify_eq; try apply stays_inactive_refl.
    apply (update_service_stays _ _ (setConfig index _ s)). done.
  - apply stays_inactive_activates. unfold setZoneName in *.
    repeat case_match; simplify_eq; try apply stays_inactive_refl.
    apply (update_service_stays _ _ (setConfig index _ s)). done.
  - apply stays_inactive_activates. by eapply setPower_stays.
  - apply stays_inactive_activates. by eapply zoneTimer_stays.
  - apply stays_inactive_activates. unfold pauseTimer in *.
    case_match; simplify_eq; [|apply stays_inactive_refl].
    match goal with
    | H : _ ≫= _ = Some _ |- _ => apply bind_Some in H as (s2 & H2 & H)
    end. simplify_eq. by eapply setPower_stays.
  - apply stays_inactive_activates.
    unfold flowEvent, messageServices in *. repeat case_decide; try done.
    simplify_eq. intros id. rewrite onFlow_zones. simpl. rewrite lookup_fmap.
    destruct (zones s !! id); simpl; done.
  - apply stays_inactive_activates, stays_inactive_zones.
    by eapply tankReading_zones.
  - apply stays_inactive_activates, stays_inactive_zones.
    unfold processActiveCharacteristic. by repeat case_match.
  - match goal with
    | H : activeCheckTimeout _ _ = Some _ |- _ =>
        unfold activeCheckTimeout in H; apply bind_Some in H as (st & Hst & H)
    end. simplify_eq.
    by apply (processRequests_activates _ _ _ _ (s, []) st) in Hst as [_ Ha].
  - apply stays_inactive_activates.
    match goal with
    | H : revertTimeout _ _ = Some _ |- _ =>
        unfold revertTimeout in H; apply bind_Some in H as (z0 & Hz0 & H)
    end. simplify_eq.
    eapply cores_altered_stays_inactive.
    + apply (update_zone_cores _ _ (fun c => (stopped c.1.1, c.1.2, None))). done.
    + done.
  - done.
Qed.

(** C8 (amended); X29.  A request to activate a zone that is disabled, a
    request to activate, enable, disable or rename a zone that is unknown, and
    an Active or IsConfigured value that is neither a boolean nor 0 or 1 end
    without exception and leave the whole state as it was; so a disabled zone
    is not made active and none of its valves is opened by a request. *)
Theorem zone_commands_fail_closed (index : nat) (now : Z) (s : System) :
  (unknownZone index s \/ enabled <$> dzones s !! index = Some false ->
   forall v, setZoneActive index v now s = Some s)
  /\ (unknownZone index s ->
      (forall v, setZoneEnabled index v now s = Some s)
      /\ (forall v, setZoneName index v s = Some s))
  /\ (forall v, validValue v = false ->
        setZoneActive index v now s = Some s
        /\ setZoneEnabled index v now s = Some s).
Proof.
  unfold unknownZone, setZoneActive, setZoneEnabled, setZoneName.
  destruct (dzones s !! index) as [zone|] eqn:Hi; simpl.
  - split; [|split].
    + intros [Hz|He] v.
      * rewrite Hz. by destruct (validValue v).
      * simplify_eq. rewrite He. simpl.
        destruct (validValue v); [|done]. by destruct (zones s !! uuid zone).
    + intros Hz. rewrite Hz. split; intros v.
      * by destruct (validValue v).
      * destruct v as [v|]; [|done]. by case_decide.
    + intros v Hv. by rewrite Hv.
  - repeat split; done.
Qed.

Lemma zone_commands_fail_closed_witness :
  enabled <$> dzones gardenSystem !! 1%nat = Some false
  /\ unknownZone 2 gardenSystem
  /\ unknownZone 7 gardenSystem
  /\ setZoneActive 1 (VNum 1) 0 gardenSystem = Some gardenSystem
  /\ setZoneActive 2 (VNum 1) 0 gardenSystem = Some gardenSystem
  /\ setZoneEnabled 7 (VNum 0) 0 gardenSystem = Some gardenSystem.
Proof.
  assert (unknownZone 2 gardenSystem) as H2 by (vm_compute; reflexivity).
  assert (unknownZone 7 gardenSystem) as H7 by (vm_compute; exact I).
  split; [reflexivity|]. split; [exact H2|]. split; [exact H7|].
  split; [|split].
  - destruct (zone_commands_fail_closed 1 0 gardenSystem) as (H & _).
    apply H. right. reflexivity.
  - destruct (zone_commands_fail_closed 2 0 gardenSystem) as (H & _).
    apply H. left. exact H2.
  - destruct (zone_commands_fail_closed 7 0 gardenSystem) as (_ & H & _).
    apply (H H7).
Defined.

(** C8, as stated, fails for a runtime out of range: 100000 s, above the
    maximum of 7200 s, is stored as the runtime of the zone. *)
Lemma out_of_range_runtime_is_stored :
  maxRuntimeDefault < 100000
  /\ exists s',
      setZoneRuntime 0 (Some 100000) lawnSystem = Some s'
      /\ runtime <$> dzones s' !! 0%nat = Some 100000
      /\ runtime <$> dzones lawnSystem !! 0%nat = Some 300
      /\ s' <> lawnSystem.
Proof.
  split; [done|]. eexists. split; [vm_compute; reflexivity|].
  split; [reflexivity|]. split; [reflexivity|].
  intros E. apply (f_equal (fun s => runtime <$> dzones s !! 0%nat)) in E.
  vm_compute in E. discriminate E.
Qed.

(** ** Activation while zones are running *)

(** C7 (amended); X28.  A request to activate an enabled zone while the
    power is on ends without exception with the zone ACTIVE and its interval
    set to end after its duration; if any zone was running, every enabled zone other
    than the requested one is INACTIVE afterwards, whatever its remaining
    duration (no maximum and no remaining duration is consulted). *)
Theorem activation_stops_every_running_zone index zone now s :
  entries_ok s -> dzones s !! index = Some zone -> enabled zone = true ->
  power s = true ->
  exists s',
    setZoneActive index (VNum 1) now s = Some s'
    /\ (exists z', zones s' !! uuid zone = Some z'
                   /\ Active (service z') = true
                   /\ timer z' = Some (index, now + SetDuration (service z')))
    /\ (numberRunningZones s <> 0%nat ->
        forall j other z',
          dzones s !! j = Some other -> enabled other = true ->
          uuid other <> uuid zone ->
          zones s' !! uuid other = Some z' -> Active (service z') = false).
Proof.
  intros He Hi Hen Hpw.
  assert (is_Some (zones s !! uuid zone)) as [z Hz].
  { unfold entries_ok in He. rewrite Forall_forall in He. apply He.
    by eapply list_elem_of_lookup_2. }
  destruct (startZone_total index zone now s He) as [s' H]; [by eexists|].
  exists s'. split.
  { unfold setZoneActive. rewrite Hi. simpl. rewrite Hz, Hen, Hpw. simpl.
    rewrite H. simpl. by rewrite andb_false_r. }
  apply startZone_spec in H as (s1 & H1 & Hb & [z1 Hz1] & Hc).
  split.
  - destruct (cores_altered_is_Some _ _ _ _ (uuid zone) Hc) as [z' Hz'];
      [by eexists|].
    destruct (cores_altered_lookup _ _ _ _ _ _ Hc Hz') as (z0 & Hz0 & Hcore).
    rewrite decide_True in Hcore by done. assert (z0 = z1) as -> by congruence.
    unfold core, start_core in Hcore. simpl in Hcore.
    injection Hcore as Hsv _ Ht. exists z'. rewrite Hsv, Ht. done.
  - intros Hn j other z' Hj Heo Hne Hz'.
    destruct (cores_altered_lookup _ _ _ _ _ _ Hc Hz') as (z0 & Hz0 & Hcore).
    rewrite decide_False in Hcore by done.
    destruct (numberRunningZones s =? 0)%nat eqn:Hn0;
      [by apply Nat.eqb_eq in Hn0|].
    unfold core in Hcore. injection Hcore as -> _ _.
    by eapply (stopActiveZones_stops now s s1 j other).
Qed.

Lemma twoRunning_entries : entries_ok twoRunning.
Proof. vm_compute. repeat constructor; by eexists. Qed.

Lemma activation_stops_every_running_zone_witness :
  entries_ok twoRunning
  /\ dzones twoRunning !! 2%nat = Some side
  /\ enabled side = true
  /\ power twoRunning = true
  /\ exists s', setZoneActive 2 (VNum 1) 1000 twoRunning = Some s'.
Proof.
  split; [exact twoRunning_entries|]. split; [reflexivity|].
  split; [reflexivity|]. split; [reflexivity|].
  destruct (activation_stops_every_running_zone 2 side 1000 twoRunning
              twoRunning_entries eq_refl eq_refl eq_refl) as (s' & H & _).
  exists s'. exact H.
Defined.

(** C7, as stated, fails where two services are ACTIVE with 50 s and 200 s
    remaining: the activation of a third zone makes both INACTIVE, the one
    with the longer remaining duration included. *)
Lemma zone_with_longer_remaining_is_stopped_too :
  zoneActive "front" twoRunning = true
  /\ zoneActive "back" twoRunning = true
  /\ remainingOf "front" twoRunning = Some 50
  /\ remainingOf "back" twoRunning = Some 200
  /\ numberRunningZones twoRunning = 2%nat
  /\ exists s',
      setZoneActive 2 (VNum 1) 1000 twoRunning = Some s'
      /\ zoneActive "front" s' = false
      /\ zoneActive "back" s' = false
      /\ zoneActive "side" s' = true
      /\ openValves "back" s' = [].
Proof.
  split; [by vm_compute|]. split; [by vm_compute|]. split; [by vm_compute|].
  split; [by vm_compute|]. split; [by vm_compute|].
  eexists. split; [vm_compute; reflexivity|]. by vm_compute.
Qed.

(** ** Requests *)

Lemma submit_spec reqs : forall s,
  activeCheck (submit reqs s)
  = activeCheck s ++ ((fun r => mkCheck r.1.1 r.1.2 r.2 true) <$> reqs)
  /\ zones (submit reqs s) = zones s /\ dzones (submit reqs s) = dzones s.
Proof.
  unfold submit. induction reqs as [|r reqs IH]; intros s; simpl.
  - by rewrite app_nil_r.
  - destruct (IH (processActiveCharacteristic r.1.1 r.1.2 r.2 s)) as (-> & -> & ->).
    simpl. by rewrite <- app_assoc.
Qed.

Lemma filter_isAction_revert calls ctx :
  List.filter isAction (calls ++ [CallRevertZone ctx]) = List.filter isAction calls.
Proof. rewrite List.filter_app. simpl. by rewrite app_nil_r. Qed.

(** One system request among [sc = 1], as many zone requests as enabled
    zones, and not exactly one of them: the zone requests are dropped and the
    system requests are passed to [setPower]. *)
Lemma processRequests_trace vc now l : forall s calls,
  entries_ok s -> numberEnabledZones s = vc -> vc <> 1%nat ->
  Forall (fun c => takeaction c = true) l ->
  exists s' calls',
    processRequests 1 vc now l (s, calls) = Some (s', calls')
    /\ List.filter isAction calls'
       = List.filter isAction calls
         ++ ((fun c => CallSetPower (value c))
               <$> List.filter (fun c => isSystemType (type c)) l).
Proof.
  induction l as [|c l IH]; intros s calls He Hn Hv Ht; simpl.
  - exists s, calls. by rewrite app_nil_r.
  - apply Forall_cons in Ht as [Hc Hl].
    unfold processRequest, takesAction.
    rewrite (proj2 (Nat.eqb_neq vc 1) Hv), Hn, !Nat.eqb_refl.
    rewrite andb_false_r, Hc. simpl.
    destruct (type c) eqn:Hty; simpl.
    + destruct (setPower_total (value c) now s He) as [s1 H1]. rewrite H1. simpl.
      pose proof (setPower_kept _ _ _ _ H1) as Hk.
      destruct (IH s1 (calls ++ [CallSetPower (value c)])) as (s' & calls' & H & Hf);
        [by eapply config_kept_entries|by rewrite (config_kept_enabled _ _ Hk)|done..|].
      exists s', calls'. split; [done|]. rewrite Hf, List.filter_app. simpl.
      by rewrite <- app_assoc.
    + destruct (setPower_total (value c) now s He) as [s1 H1]. rewrite H1. simpl.
      pose proof (setPower_kept _ _ _ _ H1) as Hk.
      destruct (IH s1 (calls ++ [CallSetPower (value c)])) as (s' & calls' & H & Hf);
        [by eapply config_kept_entries|by rewrite (config_kept_enabled _ _ Hk)|done..|].
      exists s', calls'. split; [done|]. rewrite Hf, List.filter_app. simpl.
      by rewrite <- app_assoc.
    + destruct (IH s (calls ++ [CallRevertZone (context c)])) as (s' & calls' & H & Hf);
        [done..|].
      exists s', calls'. split; [done|]. by rewrite Hf, filter_isAction_revert.
Qed.

Lemma filter_fmap_comm {A B} (f : B -> bool) (g : A -> B) (l : list A) :
  List.filter f (g <$> l) = g <$> List.filter (fun x => f (g x)) l.
Proof.
  induction l as [|x l IH]; [done|].
  change (List.filter f (g <$> x :: l))
    with (if f (g x) then g x :: List.filter f (g <$> l)
          else List.filter f (g <$> l)).
  change (List.filter (fun x => f (g x)) (x :: l))
    with (if f (g x) then x :: List.filter (fun x => f (g x)) l
          else List.filter (fun x => f (g x)) l).
  rewrite IH. by destruct (f (g x)).
Qed.

(** C5 (amended); X27.  A batch with exactly one system-type request and K
    zone-type requests, K the number of enabled zones and K different from 1,
    is resolved without exception by exactly one call, [setPower] with the
    value of the system request; no zone request reaches [setZoneActive]. *)
Theorem system_request_with_all_zone_requests reqs v now s :
  activeCheck s = [] -> entries_ok s ->
  (fun r => r.1.2) <$> systemRequests reqs = [v] ->
  length (valveRequests reqs) = numberEnabledZones s ->
  length (valveRequests reqs) <> 1%nat ->
  exists s' calls,
    activeCheckTimeout now (submit reqs s) = Some (s', calls)
    /\ List.filter isAction calls = [CallSetPower v]
    /\ activeCheck s' = [].
Proof.
  intros Hempty He Hsys Hk Hk1.
  destruct (submit_spec reqs s) as (Hac & Hz & Hd). rewrite Hempty in Hac.
  simpl in Hac. unfold activeCheckTimeout. rewrite Hac.
  set (mk := fun r : option nat * Value * RequestType => mkCheck r.1.1 r.1.2 r.2 true).
  assert (systemCount (mk <$> reqs) = 1%nat) as ->.
  { unfold systemCount. rewrite filter_fmap_comm, length_fmap.
    change (length (systemRequests reqs) = 1%nat).
    apply (f_equal length) in Hsys. by rewrite length_fmap in Hsys. }
  assert (valveCount (mk <$> reqs) = length (valveRequests reqs)) as ->.
  { unfold valveCount. by rewrite filter_fmap_comm, length_fmap. }
  destruct (processRequests_trace (length (valveRequests reqs)) now (mk <$> reqs)
              (submit reqs s) [])
    as (s' & calls & H & Hf).
  - eapply entries_ok_same; [done..|]. intros id. by rewrite Hz.
  - unfold numberEnabledZones. by rewrite Hz.
  - done.
  - apply Forall_fmap, Forall_true. done.
  - rewrite H. simpl. eexists. eexists. split; [done|]. split; [|done].
    rewrite Hf. change (List.filter isAction []) with (@nil Call).
    rewrite app_nil_l, filter_fmap_comm, <- list_fmap_compose.
    change [CallSetPower v] with (CallSetPower <$> [v]).
    rewrite <- Hsys, <- list_fmap_compose. reflexivity.
Qed.

Lemma twoZonesOff_entries : entries_ok twoZonesOff.
Proof. vm_compute. repeat constructor; by eexists. Qed.

Lemma system_request_with_all_zone_requests_witness :
  activeCheck twoZonesOff = []
  /\ entries_ok twoZonesOff
  /\ (fun r => r.1.2) <$> systemRequests turnOn2 = [VNum 1]
  /\ length (valveRequests turnOn2) = numberEnabledZones twoZonesOff
  /\ length (valveRequests turnOn2) <> 1%nat
  /\ exists s' calls,
      activeCheckTimeout 0 (submit turnOn2 twoZonesOff) = Some (s', calls)
      /\ List.filter isAction calls = [CallSetPower (VNum 1)]
      /\ activeCheck s' = [].
Proof.
  assert (length (valveRequests turnOn2) = numberEnabledZones twoZonesOff) as Hk
    by (vm_compute; reflexivity).
  assert (length (valveRequests turnOn2) <> 1%nat) as Hk1
    by (vm_compute; discriminate).
  split; [reflexivity|]. split; [exact twoZonesOff_entries|].
  split; [reflexivity|]. split; [exact Hk|]. split; [exact Hk1|].
  exact (system_request_with_all_zone_requests turnOn2 (VNum 1) 0 twoZonesOff
           eq_refl twoZonesOff_entries eq_refl Hk Hk1).
Defined.

(** C5, as stated, fails for K = 1: with a single enabled zone, the system
    request is dropped together with the zone request; [setPower] is not
    called and the power stays off. *)
Lemma lone_zone_drops_the_system_request :
  length (systemRequests turnOn1) = 1%nat
  /\ length (valveRequests turnOn1) = numberEnabledZones lawnOff
  /\ numberEnabledZones lawnOff = 1%nat
  /\ exists s',
      activeCheckTimeout 0 (submit turnOn1 lawnOff)
      = Some (s', [CallRevertZone (Some 0%nat)])
      /\ power s' = false.
Proof.
  split; [reflexivity|]. split; [by vm_compute|]. split; [by vm_compute|].
  eexists. split; [vm_compute; reflexivity|]. reflexivity.
Qed.

(** * Further properties of the controller *)

(** ** Pause *)

(** X1.  The 5 s interval of the pause does nothing while no pause is set or
    the pause has not ended.  Once the pause has ended it calls
    [setPower(true)]: the power is on, zones and zone objects are untouched,
    and the pause time stamp is kept, so that every later tick calls
    [setPower(true)] again. *)
Theorem pause_tick_resumes_at_every_tick (now : Z) (s : System) :
  (pauseTimeout s = 0 \/ now < pauseTimeout s ->
   pauseTimer now s = Some (s, false))
  /\ (pauseTimeout s <> 0 -> pauseTimeout s <= now ->
      exists s',
        pauseTimer now s = Some (s', true)
        /\ power s' = true
        /\ pauseTimeout s' = pauseTimeout s
        /\ zones s' = zones s /\ dzones s' = dzones s
        /\ forall later, now <= later ->
             exists s'', pauseTimer later s' = Some (s'', true)).
Proof.
  unfold pauseTimer. split.
  - intros [H|H].
    + by rewrite H.
    + destruct (pauseTimeout s =? 0); [done|]. simpl.
      by rewrite (proj2 (Z.leb_gt _ _) H).
  - intros Hn Hle.
    rewrite (proj2 (Z.eqb_neq _ _) Hn), (proj2 (Z.leb_le _ _) Hle). simpl.
    eexists. split; [reflexivity|]. simpl. repeat split.
    intros later Hl.
    rewrite (proj2 (Z.eqb_neq _ _) Hn).
    assert ((pauseTimeout s <=? later) = true) as -> by (apply Z.leb_le; lia).
    simpl. by eexists.
Qed.

Lemma pause_tick_resumes_at_every_tick_witness :
  pauseTimeout pausedSystem <> 0
  /\ pauseTimeout pausedSystem <= 86400
  /\ exists s',
      pauseTimer 86400 pausedSystem = Some (s', true)
      /\ pauseTimeout s' = 86400
      /\ exists s'', pauseTimer 90000 s' = Some (s'', true).
Proof.
  assert (pauseTimeout pausedSystem <> 0) as Hn by (vm_compute; discriminate).
  assert (pauseTimeout pausedSystem <= 86400) as Hle by (vm_compute; discriminate).
  split; [exact Hn|]. split; [exact Hle|].
  destruct (pause_tick_resumes_at_every_tick 86400 pausedSystem) as (_ & H).
  destruct (H Hn Hle) as (s' & Hs' & _ & Hp & _ & _ & Hlater).
  exists s'. split; [exact Hs'|]. split; [exact Hp|].
  apply Hlater. vm_compute. discriminate.
Defined.

(** ** Flow samples *)

Lemma onFlow_flowData f now s :
  flowData (onFlow f now s) = pushFlow f (flowData s).
Proof.
  unfold onFlow. cbv zeta.
  destruct (leakSensorService _); [|done].
  rewrite clearLeak_flowData. by destruct (raiseLeak_frame now
    (with_flowData (pushFlow f (flowData s)) s)) as [-> _].
Qed.

(** X2.  After a flow event the buffer ends with the new sample, so it is
    never empty when the share of non-zero samples is computed; the event
    removes at most one sample, the oldest one, and only when the new sample
    is more than [FLOWDATABUFFER] ms younger. *)
Theorem flow_buffer_keeps_newest_sample (f : FlowSample) (now : Z) (s : System) :
  last (flowData (onFlow f now s)) = Some f
  /\ (flowData (onFlow f now s) = flowData s ++ [f]
      \/ exists first,
           flowData s ++ [f] = first :: flowData (onFlow f now s)
           /\ FLOWDATABUFFER < time f - time first).
Proof.
  rewrite onFlow_flowData. unfold pushFlow. cbv zeta.
  destruct (flowData s) as [|a fd] eqn:E; simpl.
  - rewrite Z.sub_diag. split; [done|by left].
  - destruct (FLOWDATABUFFER <? time f - time a) eqn:Hc.
    + split; [apply last_snoc|]. right. exists a. split; [done|].
      by apply Z.ltb_lt.
    + split; [|by left]. apply (last_snoc f (a :: fd)).
Qed.

(** ** Leak alarm *)

Lemma flowEvent_onFlow f now s :
  flowEvent f now s
  = Some (onFlow f now
            (with_zones
               ((fun z => with_valves (Valve.onFlow (volume f) <$> valves z) z)
                  <$> zones s) s)).
Proof. unfold flowEvent, messageServices. by repeat case_decide. Qed.

Lemma raiseLeak_guarded now s :
  lastValveClose s <> 0 -> now - lastValveClose s <= WATERLEAKTIMEOUT ->
  raiseLeak now s = s.
Proof.
  intros Hn Hle. unfold raiseLeak.
  rewrite (proj2 (Z.eqb_neq _ _) Hn), (proj2 (Z.ltb_ge _ _) Hle). simpl.
  by destruct (_ && _).
Qed.

Lemma clearLeak_not_raised s : leakDetected s = false -> clearLeak s = s.
Proof. intros H. unfold clearLeak. rewrite H. by destruct (_ && _). Qed.

Lemma raiseLeak_raises now s :
  numberRunningZones s = 0%nat ->
  (80 < nonZeroPercent (flowData s))%Q ->
  lastValveClose s = 0 \/ WATERLEAKTIMEOUT < now - lastValveClose s ->
  raiseLeak now s
  = if leakDetected s then s
    else with_leak true
           (if waterLeakAlert s then Some true else leakSensorService s) s.
Proof.
  intros Hrun Hpc Hg. unfold raiseLeak. rewrite Hrun. simpl.
  assert (Qgt_bool (nonZeroPercent (flowData s)) 80 = true) as ->.
  { unfold Qgt_bool. apply negb_true_iff.
    destruct (Qle_bool _ 80) eqn:E; [|done].
    apply Qle_bool_iff in E. by apply Qlt_not_le in Hpc. }
  assert ((lastValveClose s =? 0)
          || negb (lastValveClose s =? 0)
             && (WATERLEAKTIMEOUT <? now - lastValveClose s) = true) as ->.
  { destruct Hg as [->|Hg]; [done|].
    apply Z.ltb_lt in Hg. rewrite Hg. by destruct (lastValveClose s =? 0). }
  by destruct (leakDetected s).
Qed.

Lemma clearLeak_keeps s : nonZeroVolume (flowData s) <> 0%nat -> clearLeak s = s.
Proof.
  intros H. unfold clearLeak. apply Nat.eqb_neq in H. rewrite H.
  by rewrite andb_false_r.
Qed.

Lemma raiseLeak_dry now s : nonZeroVolume (flowData s) = 0%nat -> raiseLeak now s = s.
Proof.
  intros H. unfold raiseLeak.
  assert (Qgt_bool (nonZeroPercent (flowData s)) 80 = false) as ->.
  { destruct (Qgt_bool _ 80) eqn:E; [|done].
    apply Qgt_bool_lt in E. by apply nonZeroVolume_zero_percent in H. }
  by rewrite andb_false_r.
Qed.

Lemma clearLeak_clears s :
  numberRunningZones s = 0%nat -> nonZeroVolume (flowData s) = 0%nat ->
  clearLeak s = if leakDetected s then with_leak false (Some false) s else s.
Proof. intros Hrun Hnz. unfold clearLeak. by rewrite Hrun, Hnz. Qed.

(** X3.  While the last valve close is not more than [WATERLEAKTIMEOUT]
    seconds old, a flow event never raises the leak flag, whatever the
    buffered samples are; the sensor's characteristic is left alone. *)
Theorem no_leak_alarm_after_valve_close (f : FlowSample) (now : Z) (s : System) :
  lastValveClose s <> 0 -> now - lastValveClose s <= WATERLEAKTIMEOUT ->
  leakDetected s = false ->
  exists s',
    flowEvent f now s = Some s'
    /\ leakDetected s' = false
    /\ leakSensorService s' = leakSensorService s.
Proof.
  intros Hn Hle Hl. rewrite flowEvent_onFlow. eexists. split; [reflexivity|].
  unfold onFlow. cbv zeta.
  match goal with |- context [raiseLeak now ?x] => set (s1 := x) end.
  destruct (leakSensorService s1) eqn:E; [|done].
  rewrite (raiseLeak_guarded now s1 Hn Hle), (clearLeak_not_raised s1 Hl).
  done.
Qed.

Lemma no_leak_alarm_after_valve_close_witness :
  lastValveClose (leakScenario 20000 10000) <> 0
  /\ 20000 - lastValveClose (leakScenario 20000 10000) <= WATERLEAKTIMEOUT
  /\ (80 < nonZeroPercent
             (pushFlow (sampleAt 20000) (flowData (leakScenario 20000 10000))))%Q
  /\ exists s',
      flowEvent (sampleAt 20000) 20000 (leakScenario 20000 10000) = Some s'
      /\ leakDetected s' = false.
Proof.
  assert (lastValveClose (leakScenario 20000 10000) <> 0) as Hn
    by (vm_compute; discriminate).
  assert (20000 - lastValveClose (leakScenario 20000 10000) <= WATERLEAKTIMEOUT)
    as Hle by (vm_compute; discriminate).
  split; [exact Hn|]. split; [exact Hle|]. split; [vm_compute; reflexivity|].
  destruct (no_leak_alarm_after_valve_close (sampleAt 20000) 20000
              (leakScenario 20000 10000) Hn Hle eq_refl) as (s' & Hs' & Hl & _).
  exists s'. split; [exact Hs'|exact Hl].
Defined.

(** X4.  With a leak sensor and no zone running: a flow event that leaves
    more than 80 percent of the buffered samples non-zero, when no valve ever
    closed or the last close is more than [WATERLEAKTIMEOUT] seconds old,
    ends with the leak flag raised, and the sensor's characteristic is set
    only when the flag was not raised before and [waterLeakAlert] is on; a
    flow event that leaves no buffered sample non-zero ends with the flag
    cleared, and clears the characteristic when the flag had been raised. *)
Theorem leak_alarm_raised_and_cleared
    (f : FlowSample) (now : Z) (s : System) (sensor : bool) :
  leakSensorService s = Some sensor -> numberRunningZones s = 0%nat ->
  (lastValveClose s = 0 \/ WATERLEAKTIMEOUT < now - lastValveClose s ->
   (80 < nonZeroPercent (pushFlow f (flowData s)))%Q ->
   exists s',
     flowEvent f now s = Some s'
     /\ leakDetected s' = true
     /\ leakSensorService s'
        = Some (if leakDetected s then sensor
                else if waterLeakAlert s then true else sensor))
  /\ (nonZeroVolume (pushFlow f (flowData s)) = 0%nat ->
      exists s',
        flowEvent f now s = Some s'
        /\ leakDetected s' = false
        /\ leakSensorService s' = Some (if leakDetected s then false else sensor)).
Proof.
  intros Hs Hrun. rewrite flowEvent_onFlow. unfold onFlow. cbv zeta.
  match goal with |- context [raiseLeak now ?x] => set (s1 := x) end.
  assert (leakSensorService s1 = Some sensor) as Hs1 by exact Hs.
  assert (numberRunningZones s1 = 0%nat) as Hrun1.
  { rewrite <- Hrun.
    exact (numberRunningZones_fmap_valves (fmap (Valve.onFlow (volume f))) s). }
  rewrite Hs1. split.
  - intros Hg Hpc. eexists. split; [reflexivity|].
    rewrite (raiseLeak_raises now s1 Hrun1 Hpc Hg).
    assert (nonZeroVolume (pushFlow f (flowData s)) <> 0%nat) as Hnz.
    { intros E. by apply nonZeroVolume_zero_percent in E. }
    change (leakDetected s1) with (leakDetected s).
    destruct (leakDetected s) eqn:Hl; rewrite clearLeak_keeps by exact Hnz.
    + split; [exact Hl|exact Hs].
    + simpl. change (leakSensorService s1) with (leakSensorService s). rewrite Hs.
      split; [done|]. by destruct (waterLeakAlert s).
  - intros Hnz. eexists. split; [reflexivity|].
    rewrite (raiseLeak_dry now s1) by exact Hnz.
    rewrite (clearLeak_clears s1 Hrun1 Hnz).
    change (leakDetected s1) with (leakDetected s).
    destruct (leakDetected s) eqn:Hl; [done|].
    split; [exact Hl|exact Hs].
Qed.

Lemma leak_alarm_raised_and_cleared_witness :
  (exists s',
      flowEvent (sampleAt 20000) 20000 (leakScenario 20000 0) = Some s'
      /\ leakDetected (leakScenario 20000 0) = false
      /\ leakDetected s' = true
      /\ leakSensorService s' = Some true)
  /\ (exists s',
        flowEvent (drySampleAt 20000) 20000 (dryScenario 20000) = Some s'
        /\ leakDetected (dryScenario 20000) = true
        /\ leakDetected s' = false
        /\ leakSensorService s' = Some false).
Proof.
  split.
  - destruct (leak_alarm_raised_and_cleared (sampleAt 20000) 20000
                (leakScenario 20000 0) false eq_refl
                ltac:(vm_compute; reflexivity)) as (H & _).
    destruct (H ltac:(left; reflexivity) ltac:(vm_compute; reflexivity))
      as (s' & Hs' & Hl & Hsv).
    exists s'. split; [exact Hs'|]. split; [reflexivity|]. split; [exact Hl|].
    exact Hsv.
  - destruct (leak_alarm_raised_and_cleared (drySampleAt 20000) 20000
                (dryScenario 20000) true eq_refl
                ltac:(vm_compute; reflexivity)) as (_ & H).
    destruct (H ltac:(vm_compute; reflexivity)) as (s' & Hs' & Hl & Hsv).
    exists s'. split; [exact Hs'|]. split; [reflexivity|]. split; [exact Hl|].
    exact Hsv.
Defined.

(** ** Power off *)

Lemma cores_altered_entry id F s s' id' z :
  cores_altered id F s s' -> zones s !! id' = Some z ->
  exists z',
    zones s' !! id' = Some z'
    /\ core z' = if decide (id = id') then F (core z) else core z.
Proof.
  intros Hc Hz. specialize (Hc id'). rewrite Hz in Hc. simpl in Hc.
  destruct (zones s' !! id') as [z'|];
    [|destruct (decide (id = id')); discriminate Hc].
  exists z'. split; [done|].
  destruct (decide (id = id')); simpl in Hc; congruence.
Qed.

Lemma stops_closing_refl s : stops_closing s s.
Proof. intros id z Hz. exists z. split; [done|]. by left. Qed.

Lemma core_eq z z' :
  core z' = core z ->
  service z' = service z /\ valves z' = valves z /\ timer z' = timer z.
Proof. unfold core. intros E. by injection E. Qed.

Lemma stops_closing_trans s1 s2 s3 :
  stops_closing s1 s2 -> stops_closing s2 s3 -> stops_closing s1 s3.
Proof.
  intros H12 H23 id z1 Hz1.
  destruct (H12 id z1 Hz1) as (z2 & Hz2 & H2).
  destruct (H23 id z2 Hz2) as (z3 & Hz3 & H3).
  exists z3. split; [done|].
  destruct H2 as [E2|(Ha1 & Hst2 & Hcl2)].
  - destruct (core_eq _ _ E2) as (Hsv & Hv & _).
    destruct H3 as [E3|(Ha2 & Hst3 & Hcl3)].
    + left. congruence.
    + right. rewrite Hsv in Ha2. rewrite Hv in Hcl3. done.
  - destruct H3 as [E3|(Ha2 & _)].
    + right. destruct (core_eq _ _ E3) as (Hsv & Hv & Ht).
      split; [done|]. split.
      * unfold stoppedEntry in *. by rewrite Hsv, Ht.
      * intros Hok. rewrite Hv. by apply Hcl2.
    + destruct Hst2 as (Hf & _). congruence.
Qed.

Lemma stopZone_stops_closing id now s s' z :
  zones s !! id = Some z -> Active (service z) = true ->
  stopZone id now s = Some s' -> stops_closing s s'.
Proof.
  intros Hz Ha H. apply stopZone_spec in H as [_ Hc].
  intros id' z0 Hz0.
  destruct (cores_altered_entry _ _ _ _ _ _ Hc Hz0) as (z' & Hz' & Hcore).
  exists z'. split; [done|]. case_decide as Hd; [|by left].
  subst id'. assert (z0 = z) as -> by congruence. right.
  unfold core, stop_core in Hcore. simpl in Hcore. injection Hcore as Hsv Hv Ht.
  split; [done|]. split.
  - unfold stoppedEntry. by rewrite Hsv, Ht.
  - intros Hok. rewrite Hv. apply close_range_closed; [done|lia|]. intros; lia.
Qed.

Lemma stopIfActive_stops_closing now j s s' :
  stopIfActive now j s = Some s' -> stops_closing s s'.
Proof.
  unfold stopIfActive, setZoneInactive. intros H.
  destruct (dzones s !! j) as [zone|]; [|simplify_eq; apply stops_closing_refl].
  destruct (zones s !! uuid zone) as [z|] eqn:Hz;
    [|simplify_eq; apply stops_closing_refl].
  destruct (Active (service z)) eqn:Ha; [|simplify_eq; apply stops_closing_refl].
  destruct (enabled zone), (power s); simpl in H;
    try (simplify_eq; apply stops_closing_refl).
  by eapply stopZone_stops_closing.
Qed.

Lemma stopActiveZones_stops_closing now s s' :
  stopActiveZones now s = Some s' -> stops_closing s s'.
Proof.
  apply (forEach_rel stops_closing);
    [apply stops_closing_refl|apply stops_closing_trans|].
  intros; by eapply stopIfActive_stops_closing.
Qed.

Lemma isOffValue_not_on v : isOffValue v = true -> isOnValue v = false.
Proof.
  destruct v as [[]|n|t|]; try done.
  - by destruct n as [|[]|].
  - simpl. destruct (decide (t = "off"%string \/ t = "OFF"%string)) as [Ho|];
      [|done].
    intros _. destruct (decide (t = "on"%string \/ t = "ON"%string)) as [Hn|];
      [|done].
    destruct Ho as [->| ->], Hn as [Hn|Hn]; discriminate Hn.
Qed.

(** X5.  Turning the power off while it is on ends without exception when
    every zone object has its entry: the power is off, the irrigation
    service is inactive with no program scheduled and the zone objects are
    kept.  When no valve without relay pin is open, every enabled zone whose
    service showed ACTIVE is stopped, its interval cancelled and all its
    valves closed.  An entry whose service showed INACTIVE keeps its service,
    its valves and its interval: a valve that it has open stays open. *)
Theorem power_off_stops_running_zones (v : Value) (now : Z) (s : System) :
  entries_ok s -> valves_ok s -> isOffValue v = true -> power s = true ->
  exists s',
    setPower v now s = Some s'
    /\ power s' = false /\ irrigationActive s' = false
    /\ programMode s' = NO_PROGRAM_SCHEDULED
    /\ dzones s' = dzones s
    /\ (forall j zone z,
          dzones s !! j = Some zone -> enabled zone = true ->
          zones s !! uuid zone = Some z -> Active (service z) = true ->
          exists z',
            zones s' !! uuid zone = Some z'
            /\ stoppedEntry z' /\ Valve.all_closed (valves z'))
    /\ (forall id z,
          zones s !! id = Some z -> Active (service z) = false ->
          exists z',
            zones s' !! id = Some z'
            /\ service z' = service z /\ valves z' = valves z
            /\ timer z' = timer z).
Proof.
  intros He Hvok Hoff Hpw. unfold setPower. cbv zeta.
  rewrite Hoff, (isOffValue_not_on v Hoff).
  set (s0 := with_power (power s) (irrigationActive s) false (programMode s) s).
  destruct (stopActiveZones_total now s0 He) as (sa & Hsa & _). rewrite Hsa. simpl.
  eexists. split; [reflexivity|]. simpl.
  pose proof (stopActiveZones_base _ _ _ Hsa) as (Hd & _).
  pose proof (stopActiveZones_stops_closing _ _ _ Hsa) as Hsc.
  split; [done|]. split; [done|]. split; [done|]. split; [done|]. split.
  - intros j zone z Hj Hen Hz Ha.
    destruct (Hsc (uuid zone) z Hz) as (z' & Hz' & [E|(_ & Hst & Hcl)]).
    + assert (Active (service z') = false) as Ha'
        by (by eapply (stopActiveZones_stops now s0 sa j zone z')).
      destruct (core_eq _ _ E) as (Hsv & _). congruence.
    + exists z'. split; [done|]. split; [done|]. apply Hcl. by eapply Hvok.
  - intros id z Hz Ha.
    destruct (Hsc id z Hz) as (z' & Hz' & [E|(Ha' & _)]); [|congruence].
    exists z'. split; [done|]. by apply core_eq.
Qed.

Lemma lawnAfter0_run : setZoneActive 0 (VNum 1) 0 lawnSystem = Some (lawnAfter 0).
Proof. vm_compute. reflexivity. Qed.

Lemma lawnAfter0_entries : entries_ok (lawnAfter 0).
Proof. vm_compute. constructor; [by eexists|constructor]. Qed.

Lemma lawnAfter0_ok : zones_ok (lawnAfter 0).
Proof.
  eapply setZoneActive_ok; [|exact lawnAfter0_run].
  apply addServices_ok.
Qed.

Lemma lawnAfter0_valves : valves_ok (lawnAfter 0).
Proof. intros id z Hz. by destruct (lawnAfter0_ok id z Hz) as (H & _). Qed.

Lemma power_off_stops_running_zones_witness :
  entries_ok (lawnAfter 0) /\ valves_ok (lawnAfter 0)
  /\ power (lawnAfter 0) = true
  /\ zoneActive "lawn" (lawnAfter 0) = true
  /\ exists s',
      setPower (VBool false) 5 (lawnAfter 0) = Some s' /\ power s' = false.
Proof.
  split; [exact lawnAfter0_entries|]. split; [exact lawnAfter0_valves|].
  split; [vm_compute; reflexivity|]. split; [vm_compute; reflexivity|].
  destruct (power_off_stops_running_zones (VBool false) 5 (lawnAfter 0)
              lawnAfter0_entries lawnAfter0_valves eq_refl
              ltac:(vm_compute; reflexivity)) as (s' & Hs' & Hp & _).
  exists s'. split; [exact Hs'|exact Hp].
Defined.

(** ** The end of a run *)

Lemma stopZone_stopped id now s s' z :
  stopZone id now s = Some s' -> zones s !! id = Some z ->
  Forall valve_ok (valves z) ->
  exists z',
    zones s' !! id = Some z' /\ stoppedEntry z' /\ Valve.all_closed (valves z').
Proof.
  intros H Hz Hok. apply stopZone_spec in H as [_ Hc].
  destruct (cores_altered_entry _ _ _ _ _ _ Hc Hz) as (z' & Hz' & Hcore).
  rewrite decide_True in Hcore by done.
  unfold core, stop_core in Hcore. simpl in Hcore. injection Hcore as Hsv Hv Ht.
  exists z'. split; [done|]. split.
  - unfold stoppedEntry. by rewrite Hsv, Ht.
  - rewrite Hv. apply close_range_closed; [done|lia|]. intros; lia.
Qed.

(** X6.  The interval of a running zone, fired at the second [endTime]
    itself, changes nothing: the zone is stopped by the first tick after
    [endTime].  That tick stops an enabled zone while the power is on: the
    entry is inactive, its interval cancelled and all its valves closed.
    When the zone object is disabled or the power is off, the tick changes
    nothing at all, so valves that are open stay open. *)
Theorem zone_interval_stops_after_endTime
    (index : nat) (zone : ZoneConfig) (endTime now : Z) (s : System) :
  dzones s !! index = Some zone ->
  zoneTimer index endTime endTime s = Some s
  /\ (endTime < now -> enabled zone = false \/ power s = false ->
      zoneTimer index endTime now s = Some s)
  /\ (endTime < now -> enabled zone = true -> power s = true ->
      entries_ok s -> zones_ok s ->
      exists s' z',
        zoneTimer index endTime now s = Some s'
        /\ zones s' !! uuid zone = Some z'
        /\ stoppedEntry z' /\ Valve.all_closed (valves z')).
Proof.
  intros Hi. unfold zoneTimer. rewrite Hi. simpl. split; [|split].
  - by rewrite Z.ltb_irrefl.
  - intros Hlt Hoff.
    rewrite (proj2 (Z.ltb_ge now endTime)) by lia. simpl.
    rewrite (proj2 (Z.ltb_lt _ _) Hlt).
    unfold setZoneInactive. rewrite Hi.
    destruct (zones s !! uuid zone); [|done].
    destruct Hoff as [-> | ->]; [done|]. by destruct (enabled zone).
  - intros Hlt Hen Hpw He Hok.
    rewrite (proj2 (Z.ltb_ge now endTime)) by lia. simpl.
    rewrite (proj2 (Z.ltb_lt _ _) Hlt).
    assert (is_Some (zones s !! uuid zone)) as [z Hz].
    { unfold entries_ok in He. rewrite Forall_forall in He. apply He.
      by eapply list_elem_of_lookup_2. }
    unfold setZoneInactive. rewrite Hi, Hz, Hen, Hpw. simpl.
    destruct (stopZone_total (uuid zone) now s He) as [s' Hs']; [by eexists|].
    destruct (stopZone_stopped _ _ _ _ _ Hs' Hz) as (z' & Hz' & Hst & Hall).
    { by destruct (Hok _ _ Hz) as (Hv & _). }
    by exists s', z'.
Qed.

Lemma zone_interval_stops_after_endTime_witness :
  dzones (lawnAfter 0) !! 0%nat = Some lawn
  /\ openValves "lawn" (lawnAfter 0) = [0%nat]
  /\ zoneTimer 0 300 300 (lawnAfter 0) = Some (lawnAfter 0)
  /\ exists s',
      zoneTimer 0 300 301 (lawnAfter 0) = Some s'
      /\ openValves "lawn" s' = [].
Proof.
  assert (dzones (lawnAfter 0) !! 0%nat = Some lawn) as Hi
    by (vm_compute; reflexivity).
  split; [exact Hi|]. split; [vm_compute; reflexivity|].
  destruct (zone_interval_stops_after_endTime 0 lawn 300 301 (lawnAfter 0) Hi)
    as (_ & _ & H).
  destruct (zone_interval_stops_after_endTime 0 lawn 300 300 (lawnAfter 0) Hi)
    as (H0 & _).
  split; [exact H0|].
  destruct (H ltac:(vm_compute; reflexivity) eq_refl
              ltac:(vm_compute; reflexivity) lawnAfter0_entries lawnAfter0_ok)
    as (s' & z' & Hs' & _).
  exists s'. split; [exact Hs'|].
  revert Hs'. vm_compute. intros E. injection E as <-. reflexivity.
Defined.

(** ** Valves *)




(** X8.  A valve constructed without relay pin, or with a pin outside 0..26,
    never operates: whatever calls it receives, it stays as it was
    constructed, closed, and emits no event. *)
Theorem valve_without_pin_never_operates
    (id : string) (pin : option Z) (calls : list ValveCall) :
  match pin with Some p => p < 0 \/ 26 < p | None => True end ->
  callValve calls (Valve.new id pin) = (Valve.new id pin, [])
  /\ Valve.isOpen (Valve.new id pin) = false.
Proof.
  intros Hpin.
  assert (Valve.GPIO_ValvePin (Valve.new id pin) = None) as Hn.
  { unfold Valve.new. destruct pin as [p|]; [|done]. simpl.
    destruct (0 <=? p) eqn:H0; [|done]. destruct (p <=? 26) eqn:H26; [|done].
    apply Z.leb_le in H0, H26. lia. }
  split; [|done].
  assert (forall v, Valve.GPIO_ValvePin v = None ->
                    Valve.valveOpenedTime v = None ->
                    callValve calls v = (v, [])) as H.
  { induction calls as [|c calls IH]; intros v Hp Ht; [done|]. simpl.
    destruct c as [now|now|q];
      unfold Valve.open, Valve.close, Valve.onFlow, Valve.isOpen;
      rewrite ?Hp, ?Ht; simpl; by rewrite IH. }
  by apply H.
Qed.

Lemma valve_without_pin_never_operates_witness :
  callValve [DoOpen 10; HearFlow (1 # 2)%Q; DoClose 20] (Valve.new "v" (Some 27))
  = (Valve.new "v" (Some 27), []).
Proof.
  destruct (valve_without_pin_never_operates "v" (Some 27)
              [DoOpen 10; HearFlow (1 # 2)%Q; DoClose 20]
              ltac:(right; vm_compute; reflexivity)) as (H & _).
  exact H.
Defined.

(** ** Water and run time of a zone *)





(** ** One tick of a running zone *)

Lemma handOver_step id endTime now k s s' :
  handOver id endTime now k s = Some s' ->
  base s s' /\ cores_altered id (hand_step endTime now k) s s'.
Proof.
  intros H. apply handOver_spec in H as (z & v & Hz & Hv & H).
  destruct (Valve.isOpen v && dueAt endTime now z k) eqn:E.
  - destruct H as [Hb Hc]. split; [done|].
    eapply cores_altered_ext; [|exact Hc].
    intros z0 Hz0. assert (z0 = z) as -> by congruence.
    unfold hand_step. simpl. rewrite Hv.
    change (dueCore endTime now (core z) k) with (dueAt endTime now z k).
    by rewrite E.
  - subst. split; [apply base_refl|].
    eapply cores_altered_ext; [|apply same_cores_altered, same_cores_refl].
    intros z0 Hz0. assert (z0 = z) as -> by congruence.
    unfold hand_step. simpl. rewrite Hv.
    change (dueCore endTime now (core z) k) with (dueAt endTime now z k).
    by rewrite E.
Qed.

Lemma handOver_loop id endTime now m : forall k s s',
  forEach (handOver id endTime now) (seq k m) s = Some s' ->
  base s s' /\ cores_altered id (hand_range endTime now k m) s s'.
Proof.
  induction m as [|m IH]; intros k s s' H; simpl in H.
  - simplify_eq. split; [apply base_refl|].
    apply same_cores_altered, same_cores_refl.
  - destruct (handOver id endTime now k s) as [s1|] eqn:H1; simpl in H; [|done].
    apply handOver_step in H1 as [Hb1 Hc1]. apply IH in H as [Hb2 Hc2].
    split; [by eapply base_trans|].
    eapply cores_altered_ext; [|by eapply cores_altered_trans]. done.
Qed.

Lemma hand_over_valves_length now k vs :
  length (hand_over_valves now k vs) = length vs.
Proof. unfold hand_over_valves. by rewrite !length_alter. Qed.

Lemma hand_step_length endTime now k c :
  length (hand_step endTime now k c).1.2 = length c.1.2.
Proof.
  unfold hand_step. destruct (c.1.2 !! k); [|done].
  destruct (_ && _); [|done]. simpl. apply hand_over_valves_length.
Qed.

Lemma handOver_loop_total id endTime now z s :
  entries_ok s -> zones s !! id = Some z ->
  is_Some (forEach (handOver id endTime now) (seq 0 (length (valves z))) s).
Proof.
  intros He Hz.
  destruct (forEach_total
              (fun s1 => entries_ok s1
                         /\ exists z1, zones s1 !! id = Some z1
                                       /\ length (valves z1) = length (valves z))
              (handOver id endTime now) (seq 0 (length (valves z)))) with (s := s)
    as (s' & H & _).
  - intros i s1 Hi (He1 & z1 & Hz1 & Hlen). apply in_seq in Hi.
    assert (is_Some (valves z1 !! i)) as [v Hv]
      by (apply lookup_lt_is_Some; lia).
    destruct (handOver_total id endTime now i s1 z1 v He1 Hz1 Hv) as [s2 H2].
    exists s2. split; [done|]. apply handOver_step in H2 as [Hb Hc].
    split; [by eapply entries_ok_altered|].
    destruct (cores_altered_entry _ _ _ _ _ _ Hc Hz1) as (z2 & Hz2 & Hcore).
    rewrite decide_True in Hcore by done.
    exists z2. split; [done|]. rewrite <- Hlen.
    change (length (core z2).1.2 = length (core z1).1.2).
    rewrite Hcore. apply hand_step_length.
  - split; [done|]. by exists z.
  - by eexists.
Qed.

Lemma dueCore_length endTime now sv t vs vs' k :
  length vs' = length vs ->
  dueCore endTime now (sv, vs', t) k = dueCore endTime now (sv, vs, t) k.
Proof. unfold dueCore. simpl. by intros ->. Qed.

Lemma hand_over_valves_pins now k vs :
  has_pins vs -> has_pins (hand_over_valves now k vs).
Proof.
  intros H. unfold hand_over_valves, has_pins.
  apply Forall_alter_ok.
  { intros v Hv. unfold Valve.open. by destruct (Valve.GPIO_ValvePin v). }
  apply Forall_alter_ok; [|done].
  intros v Hv. unfold Valve.close. by destruct (Valve.GPIO_ValvePin v).
Qed.

Lemma hand_over_valves_onlyOpen now k vs :
  has_pins vs -> onlyOpen k vs -> onlyOpen (S k) (hand_over_valves now k vs).
Proof.
  intros Hp Ho j v Hj. unfold hand_over_valves in Hj.
  rewrite list_lookup_alter in Hj. case_decide as Hd.
  - subst j. rewrite list_lookup_alter_ne in Hj by lia.
    destruct (vs !! (k + 1)%nat) as [w|] eqn:Hw; simplify_eq/=.
    assert (Valve.GPIO_ValvePin w <> None) as Hpw
      by exact (Forall_lookup_1 (fun v => Valve.GPIO_ValvePin v <> None)
                  vs _ _ Hp Hw).
    unfold Valve.open. destruct (Valve.GPIO_ValvePin w); [|done].
    simpl. split; [lia|done].
  - rewrite list_lookup_alter in Hj. case_decide as Hd'.
    + subst j. destruct (vs !! k) as [w|] eqn:Hw; simplify_eq/=.
      assert (Valve.GPIO_ValvePin w <> None) as Hpw
        by exact (Forall_lookup_1 (fun v => Valve.GPIO_ValvePin v <> None)
                  vs _ _ Hp Hw).
      unfold Valve.close. destruct (Valve.GPIO_ValvePin w); [|done].
      simpl. split; [done|lia].
    + specialize (Ho j v Hj). split; [|lia]. intros H. apply Ho in H. lia.
Qed.

Lemma hand_range_spec endTime now sv t : forall m k vs p,
  has_pins vs -> onlyOpen p vs -> (p < length vs)%nat ->
  (k + m = length vs)%nat ->
  ((p < k)%nat -> dueCore endTime now (sv, vs, t) p = false) ->
  exists vs' q,
    hand_range endTime now k m (sv, vs, t) = (sv, vs', t)
    /\ length vs' = length vs
    /\ onlyOpen q vs'
    /\ (p <= q < length vs)%nat
    /\ dueCore endTime now (sv, vs, t) q = false
    /\ forall j, (p <= j < q)%nat -> dueCore endTime now (sv, vs, t) j = true.
Proof.
  induction m as [|m IH]; intros k vs p Hpins Ho Hp Hkm Hpast; simpl.
  - exists vs, p. split; [done|]. split; [done|]. split; [done|].
    split; [lia|]. split; [apply Hpast; lia|]. intros; lia.
  - assert (is_Some (vs !! k)) as [v Hv] by (apply lookup_lt_is_Some; lia).
    unfold hand_step. simpl. rewrite Hv.
    destruct (decide (k = p)) as [->|Hne].
    + rewrite (proj2 (Ho p v Hv) eq_refl). simpl.
      destruct (dueCore endTime now (sv, vs, t) p) eqn:Hdue.
      * assert (S p < length vs)%nat as Hnext.
        { unfold dueCore in Hdue. simpl in Hdue.
          apply andb_true_iff in Hdue as [_ Hlt]. apply Z.ltb_lt in Hlt. lia. }
        destruct (IH (S p) (hand_over_valves now p vs) (S p))
          as (vs' & q & Hr & Hlen & Hoq & Hq & Hdq & Hbefore).
        -- by apply hand_over_valves_pins.
        -- by apply hand_over_valves_onlyOpen.
        -- by rewrite hand_over_valves_length.
        -- rewrite hand_over_valves_length. lia.
        -- intros; lia.
        -- rewrite hand_over_valves_length in Hlen, Hq.
           exists vs', q. split; [exact Hr|]. split; [done|]. split; [done|].
           split; [lia|].
           rewrite (dueCore_length endTime now sv t vs _ q
                      (hand_over_valves_length now p vs)) in Hdq.
           split; [done|]. intros j Hj.
           destruct (decide (j = p)) as [->|Hjp]; [done|].
           rewrite <- (dueCore_length endTime now sv t vs _ j
                         (hand_over_valves_length now p vs)).
           apply Hbefore. lia.
      * destruct (IH (S p) vs p Hpins Ho Hp) as (vs' & q & H); [lia|done|].
        by exists vs', q.
    + assert (Valve.isOpen v = false) as ->.
      { destruct (Valve.isOpen v) eqn:E; [|done]. by apply (Ho k v Hv) in E. }
      simpl. destruct (IH (S k) vs p Hpins Ho Hp) as (vs' & q & H); [lia| |].
      * intros Hlt. apply Hpast. lia.
      * by exists vs', q.
Qed.


(** X10.  One tick of the interval of a running zone, before its end time,
    ends without exception when every zone object has its entry.  It shows
    [endTime - now] as remaining duration and keeps the timer.  When the
    valves have relay pins and the valve at [p] is the only open one, the
    only open valve afterwards is the first one from [p] on whose end time is
    not reached, or the last valve: after a late tick the zone catches up
    over several valves at once. *)
Theorem zone_interval_hands_over
    (index : nat) (zone : ZoneConfig) (endTime now : Z) (s : System)
    (z : Zone) (p : nat) :
  entries_ok s ->
  dzones s !! index = Some zone -> zones s !! uuid zone = Some z ->
  has_pins (valves z) -> onlyOpen p (valves z) -> (p < length (valves z))%nat ->
  now < endTime ->
  exists s' z' q,
    zoneTimer index endTime now s = Some s'
    /\ zones s' !! uuid zone = Some z'
    /\ service z' = set_RemainingDuration (endTime - now) (service z)
    /\ timer z' = timer z
    /\ onlyOpen q (valves z')
    /\ (p <= q < length (valves z))%nat
    /\ dueAt endTime now z q = false
    /\ forall j, (p <= j < q)%nat -> dueAt endTime now z j = true.
Proof.
  intros He Hi Hz Hpins Ho Hp Hlt.
  set (s0 := update_zone (uuid zone)
               (with_service (set_RemainingDuration (endTime - now))) s).
  assert (cores_altered (uuid zone)
            (fun c => (set_RemainingDuration (endTime - now) c.1.1, c.1.2, c.2))
            s s0) as Hc0 by (by apply update_zone_cores).
  assert (entries_ok s0) as He0 by (by eapply entries_ok_altered).
  destruct (cores_altered_entry _ _ _ _ _ _ Hc0 Hz) as (z0 & Hz0 & Hcore0).
  rewrite decide_True in Hcore0 by done.
  assert (length (valves z0) = length (valves z)) as Hlen0.
  { change (length (core z0).1.2 = length (valves z)). by rewrite Hcore0. }
  destruct (handOver_loop_total (uuid zone) endTime now z0 s0 He0 Hz0)
    as [s1 Hs1].
  rewrite Hlen0 in Hs1.
  exists s1.
  pose proof Hs1 as Hloop. apply handOver_loop in Hloop as [_ Hc1].
  destruct (cores_altered_entry _ _ _ _ _ _ Hc1 Hz0) as (z' & Hz' & Hcore).
  rewrite decide_True in Hcore by done. rewrite Hcore0 in Hcore.
  destruct (hand_range_spec endTime now
              (set_RemainingDuration (endTime - now) (service z)) (timer z)
              (length (valves z)) 0 (valves z) p Hpins Ho Hp)
    as (vs' & q & Hr & Hlen & Hoq & Hq & Hdq & Hbefore); [lia|lia|].
  simpl in Hcore. rewrite Hr in Hcore.
  unfold core in Hcore. injection Hcore as Hsv Hvs Ht.
  exists z', q. split.
  { unfold zoneTimer. rewrite Hi. simpl.
    rewrite (proj2 (Z.ltb_lt _ _) Hlt), Hz. simpl.
    fold s0. rewrite Hs1. simpl.
    by rewrite (proj2 (Z.ltb_ge endTime now)) by lia. }
  split; [done|]. split; [done|]. split; [done|].
  split; [by rewrite Hvs|]. split; [done|]. split; [exact Hdq|exact Hbefore].
Qed.

Lemma lawnAfter0_onlyOpen :
  onlyOpen 0
    [Valve.mk "v0" (Some 14) (Some 0) 0; newValve ("v1"%string, 15);
     newValve ("v2"%string, 16)].
Proof.
  intros k v Hk. destruct k as [|[|[|k]]]; simpl in Hk; simplify_eq; by split.
Qed.

Lemma lawnAfter0_pins :
  has_pins
    [Valve.mk "v0" (Some 14) (Some 0) 0; newValve ("v1"%string, 15);
     newValve ("v2"%string, 16)].
Proof. repeat constructor; discriminate. Qed.

Lemma zone_interval_hands_over_witness :
  openValves "lawn" (lawnAfter 0) = [0%nat]
  /\ exists s',
      zoneTimer 0 300 250 (lawnAfter 0) = Some s'
      /\ openValves "lawn" s' = [2%nat].
Proof.
  split; [vm_compute; reflexivity|].
  destruct (zone_interval_hands_over 0 lawn 300 250 (lawnAfter 0)
              (mkZone (started 300 (newService lawn))
                 [Valve.mk "v0" (Some 14) (Some 0) 0; newValve ("v1"%string, 15);
                  newValve ("v2"%string, 16)]
                 (Some (0%nat, 300)) 0 0) 0
              lawnAfter0_entries
              ltac:(vm_compute; reflexivity) ltac:(vm_compute; reflexivity)
              lawnAfter0_pins lawnAfter0_onlyOpen
              ltac:(simpl; lia) ltac:(vm_compute; reflexivity))
    as (s' & _ & _ & Hs' & _).
  exists s'. split; [exact Hs'|].
  revert Hs'. vm_compute. intros E. injection E as <-. reflexivity.
Defined.

(** ** Which entries turn active *)

(** X13.  Whatever callback of the controller runs, an entry that was
    inactive before and is active afterwards is the entry of an enabled zone
    object: the code itself never makes the service of a disabled zone, or
    of a zone without zone object, active. *)
Theorem only_enabled_zones_are_activated
    (s s' : System) (id : string) (z z' : Zone) :
  Step s s' ->
  zones s !! id = Some z -> zones s' !! id = Some z' ->
  Active (service z) = false -> Active (service z') = true ->
  exists index zone,
    dzones s !! index = Some zone /\ uuid zone = id /\ enabled zone = true.
Proof. intros H. by apply Step_activates. Qed.

Lemma only_enabled_zones_are_activated_witness :
  Step lawnSystem (lawnAfter 0)
  /\ zoneActive "lawn" lawnSystem = false
  /\ zoneActive "lawn" (lawnAfter 0) = true
  /\ exists index zone,
      dzones lawnSystem !! index = Some zone
      /\ uuid zone = "lawn"%string /\ enabled zone = true.
Proof.
  assert (Step lawnSystem (lawnAfter 0)) as Hstep
    by exact (step_setZoneActive 0 (VNum 1) 0 lawnSystem (lawnAfter 0)
                lawnAfter0_run).
  split; [exact Hstep|]. split; [vm_compute; reflexivity|].
  split; [vm_compute; reflexivity|].
  eapply (only_enabled_zones_are_activated lawnSystem (lawnAfter 0) "lawn"
            _ _ Hstep); vm_compute; reflexivity.
Defined.

(** ** One open valve in a zone *)



(** ** A zone object without entry *)




(** ** Turning a zone off, disabling a zone *)

Lemma isInactiveValue_valid v :
  isInactiveValue v = true -> validValue v = true /\ isActiveValue v = false.
Proof. destruct v as [[]|n|t|]; try done. by destruct n as [|[]|]. Qed.



(** X16.  Disabling an enabled zone that is running, while the power is on,
    stops it first: afterwards the zone object is disabled, the service is
    not configured, inactive and not in use, the interval is cancelled and
    all valves of the zone are closed. *)
Theorem disabling_a_running_zone_stops_it
    (index : nat) (zone : ZoneConfig) (z : Zone) (v : Value) (now : Z)
    (s : System) :
  entries_ok s -> zones_ok s ->
  dzones s !! index = Some zone -> zones s !! uuid zone = Some z ->
  isInactiveValue v = true -> Active (service z) = true ->
  enabled zone = true -> power s = true ->
  exists s' z',
    setZoneEnabled index v now s = Some s'
    /\ dzones s' !! index = Some (set_enabled false zone)
    /\ zones s' !! uuid zone = Some z'
    /\ IsConfigured (service z') = false
    /\ stoppedEntry z' /\ Valve.all_closed (valves z').
Proof.
  intros He Hok Hi Hz Hv Ha Hen Hpw.
  destruct (isInactiveValue_valid v Hv) as [Hvalid Hna].
  unfold setZoneEnabled. rewrite Hi, Hvalid, Hz, Hv, Ha, Hna. simpl.
  unfold setZoneInactive. rewrite Hi, Hz, Hen, Hpw. simpl.
  destruct (stopZone_total (uuid zone) now s He) as [s1 Hs1]; [by eexists|].
  destruct (stopZone_stopped _ _ _ _ _ Hs1 Hz) as (z1 & Hz1 & Hst & Hall).
  { by destruct (Hok _ _ Hz) as (Hvs & _). }
  pose proof Hs1 as Hb. apply stopZone_spec in Hb as ((Hd & _) & _).
  rewrite Hs1. simpl. eexists. eexists. split; [reflexivity|].
  split.
  { unfold setConfig. simpl. by rewrite list_lookup_alter_eq, Hd, Hi. }
  rewrite zones_update_zone, lookup_alter_eq.
  change (zones (setConfig index (set_enabled false) s1)) with (zones s1).
  rewrite Hz1. simpl. split; [reflexivity|]. split; [done|]. split; [|done].
  by destruct Hst as (? & ? & ? & ?).
Qed.

Lemma disabling_a_running_zone_stops_it_witness :
  zoneActive "lawn" (lawnAfter 0) = true
  /\ exists s',
      setZoneEnabled 0 (VNum 0) 40 (lawnAfter 0) = Some s'
      /\ zoneActive "lawn" s' = false
      /\ openValves "lawn" s' = []
      /\ enabled <$> dzones s' !! 0%nat = Some false.
Proof.
  split; [vm_compute; reflexivity|].
  destruct (disabling_a_running_zone_stops_it 0 lawn
              (mkZone (started 300 (newService lawn))
                 [Valve.mk "v0" (Some 14) (Some 0) 0; newValve ("v1"%string, 15);
                  newValve ("v2"%string, 16)]
                 (Some (0%nat, 300)) 0 0)
              (VNum 0) 40 (lawnAfter 0) lawnAfter0_entries lawnAfter0_ok
              ltac:(vm_compute; reflexivity) ltac:(vm_compute; reflexivity)
              eq_refl eq_refl eq_refl ltac:(vm_compute; reflexivity))
    as (s' & _ & Hs' & _).
  exists s'. split; [exact Hs'|].
  revert Hs'. vm_compute. intros E. injection E as <-. repeat split; reflexivity.
Defined.


(** ** The flow sensor *)

(** X17.  A sample of the flow sensor that is taken in the same millisecond
    as the last one has the volume NaN, whatever the pulses counted and the
    calibration.  After a positive interval the volume, computed in binary64,
    is not given by the pulses and the calibration alone: 7 pulses at 0.1
    give 0.011666666666666667 after 1000 ms and 0.011666666666666669 after
    1001 ms. *)
Theorem flow_sample_without_interval_is_NaN :
  (forall pulses nowMs flowRate,
      (flowSampler pulses nowMs nowMs flowRate).2 = S754_nan)
  /\ (flowSampler 7 0 1000 tenth).2 = S754_finite false 6725375443539941 (-59)
  /\ (flowSampler 7 0 1001 tenth).2 = S754_finite false 6725375443539942 (-59).
Proof.
  split; [|split; vm_compute; reflexivity].
  intros pulses nowMs flowRate. unfold flowSampler. rewrite Z.sub_diag.
  cbn [snd].
  change (Double.div (Double.ofZ 0) (Double.ofZ 1000)) with (S754_zero false).
  change (Double.div (Double.ofZ 0) (Double.ofZ 60000)) with (S754_zero false).
  unfold Double.mul, Double.div.
  destruct (Double.ofZ pulses) as [s1|s1| |s1 m1 e1];
    destruct flowRate as [s2|s2| |s2 m2 e2]; reflexivity.
Qed.

(** ** Termination signals *)

Lemma close_loop_total id now z s :
  entries_ok s -> zones s !! id = Some z ->
  is_Some (forEach (closeIfOpen id now) (seq 0 (length (valves z))) s).
Proof.
  intros He Hz.
  destruct (forEach_total
              (fun s1 => entries_ok s1
                         /\ exists z1, zones s1 !! id = Some z1
                                       /\ length (valves z1) = length (valves z))
              (closeIfOpen id now) (seq 0 (length (valves z)))) with (s := s)
    as (s' & H & _).
  - intros i s1 Hi (He1 & z1 & Hz1 & Hlen). apply in_seq in Hi.
    destruct (closeIfOpen_total id now i s1 z1 He1 Hz1) as [s2 H2]; [lia|].
    exists s2. split; [done|]. apply closeIfOpen_spec in H2 as [Hb Hc].
    split; [by eapply entries_ok_altered|].
    destruct (cores_altered_entry _ _ _ _ _ _ Hc Hz1) as (z2 & Hz2 & Hcore).
    rewrite decide_True in Hcore by done.
    exists z2. split; [done|]. rewrite <- Hlen.
    change (length (core z2).1.2 = length (core z1).1.2).
    rewrite Hcore. simpl. by rewrite length_alter.
  - split; [done|]. by exists z.
  - by eexists.
Qed.

Lemma closeZoneValves_spec now id s z :
  entries_ok s -> valves_ok s -> zones s !! id = Some z ->
  exists s' z',
    closeZoneValves now id s = Some s'
    /\ entries_ok s' /\ valves_ok s' /\ keeps_closed s s'
    /\ zones s' !! id = Some z' /\ Valve.all_closed (valves z').
Proof.
  intros He Hok Hz. unfold closeZoneValves. rewrite Hz. simpl.
  destruct (close_loop_total id now z s He Hz) as [s' Hs'].
  pose proof Hs' as Hl. apply close_loop in Hl as [Hb Hc].
  destruct (cores_altered_entry _ _ _ _ _ _ Hc Hz) as (z' & Hz' & Hcore).
  rewrite decide_True in Hcore by done.
  unfold core, on_valves in Hcore. simpl in Hcore. injection Hcore as Hsv Hv Ht.
  assert (Valve.all_closed (valves z')) as Hall.
  { rewrite Hv. apply close_range_closed; [by eapply Hok|lia|]. intros; lia. }
  exists s', z'. split; [done|]. split; [by eapply entries_ok_altered|].
  split; [|split; [|done]].
  - intros id0 z0 Hz0.
    destruct (cores_altered_lookup _ _ _ _ _ _ Hc Hz0) as (z1 & Hz1 & Hcore1).
    case_decide as Hd.
    + subst id0. assert (z0 = z') as -> by congruence. rewrite Hv.
      apply close_range_ok. by eapply Hok.
    + unfold core in Hcore1. injection Hcore1 as _ Hv1 _. rewrite Hv1.
      by eapply Hok.
  - intros id0 z0 Hz0.
    destruct (cores_altered_entry _ _ _ _ _ _ Hc Hz0) as (z1 & Hz1 & Hcore1).
    exists z1. split; [done|]. case_decide as Hd.
    + subst id0. assert (z0 = z) as -> by congruence.
      assert (z1 = z') as -> by congruence. done.
    + unfold core in Hcore1. injection Hcore1 as Hsv1 Hv1 Ht1.
      by rewrite Hsv1, Hv1, Ht1.
Qed.

Lemma keeps_closed_trans s1 s2 s3 :
  keeps_closed s1 s2 -> keeps_closed s2 s3 -> keeps_closed s1 s3.
Proof.
  intros H12 H23 id z1 Hz1.
  destruct (H12 id z1 Hz1) as (z2 & Hz2 & Hsv2 & Ht2 & Hc2).
  destruct (H23 id z2 Hz2) as (z3 & Hz3 & Hsv3 & Ht3 & Hc3).
  exists z3. split; [done|]. split; [congruence|]. split; [congruence|]. auto.
Qed.

Lemma onSignal_spec now order : forall s,
  entries_ok s -> valves_ok s ->
  (forall id, id ∈ order -> is_Some (zones s !! id)) ->
  exists s',
    onSignal order now s = Some s'
    /\ keeps_closed s s'
    /\ forall id, id ∈ order ->
         exists z', zones s' !! id = Some z' /\ Valve.all_closed (valves z').
Proof.
  unfold onSignal.
  induction order as [|id order IH]; intros s He Hok Hin; simpl.
  - exists s. split; [done|]. split.
    + intros id z Hz. by exists z.
    + intros id Hid. by apply elem_of_nil in Hid.
  - destruct (Hin id) as [z Hz]; [by left|].
    destruct (closeZoneValves_spec now id s z He Hok Hz)
      as (s1 & z1 & Hs1 & He1 & Hok1 & Hk1 & Hz1 & Hall1).
    rewrite Hs1. simpl.
    destruct (IH s1 He1 Hok1) as (s' & Hs' & Hk' & Hcl').
    { intros id0 Hid0. destruct (Hin id0) as [z0 Hz0]; [by right|].
      destruct (Hk1 id0 z0 Hz0) as (z0' & Hz0' & _). by eexists. }
    exists s'. split; [done|]. split; [by eapply keeps_closed_trans|].
    intros id0 Hid0. apply elem_of_cons in Hid0 as [->|Hid0]; [|by apply Hcl'].
    destruct (Hk' id z1 Hz1) as (z' & Hz' & _ & _ & Hc). exists z'. auto.
Qed.

(** X18.  The handler of SIGINT and SIGTERM, when every zone object has its
    entry and no valve without relay pin is open, ends without exception
    whatever the order in which the zones are visited: afterwards every valve
    of every zone is closed; the services and the intervals are left as they
    were, a running zone still showing active. *)
Theorem signal_closes_every_valve (order : list string) (now : Z) (s : System) :
  entries_ok s -> valves_ok s ->
  (forall id, id ∈ order <-> is_Some (zones s !! id)) ->
  exists s',
    onSignal order now s = Some s'
    /\ forall id z,
         zones s !! id = Some z ->
         exists z',
           zones s' !! id = Some z'
           /\ Valve.all_closed (valves z')
           /\ service z' = service z /\ timer z' = timer z.
Proof.
  intros He Hok Hkeys.
  destruct (onSignal_spec now order s He Hok) as (s' & Hs' & Hk & Hcl).
  { intros id Hid. by apply Hkeys. }
  exists s'. split; [done|]. intros id z Hz.
  destruct (Hcl id) as (z' & Hz' & Hall); [apply Hkeys; by eexists|].
  destruct (Hk id z Hz) as (z'' & Hz'' & Hsv & Ht & _).
  assert (z'' = z') as -> by congruence. by exists z'.
Qed.

Lemma zones_ok_valves_ok s : zones_ok s -> valves_ok s.
Proof. intros Hok id z Hz. by destruct (Hok id z Hz) as (? & _). Qed.

Lemma lawnAfter0_keys id :
  id ∈ ["lawn"%string] <-> is_Some (zones (lawnAfter 0) !! id).
Proof.
  assert (exists z, zones (lawnAfter 0) = <["lawn"%string := z]> ∅) as [z ->]
    by (eexists; vm_compute; reflexivity).
  rewrite list_elem_of_singleton, lookup_insert_is_Some, lookup_empty.
  split; [intros ->; by left|]. intros [->|[_ [? ?]]]; done.
Qed.

Lemma signal_closes_every_valve_witness :
  openValves "lawn" (lawnAfter 0) = [0%nat]
  /\ exists s',
      onSignal ["lawn"%string] 7 (lawnAfter 0) = Some s'
      /\ openValves "lawn" s' = []
      /\ zoneActive "lawn" s' = true.
Proof.
  split; [vm_compute; reflexivity|].
  destruct (signal_closes_every_valve ["lawn"%string] 7 (lawnAfter 0)
              lawnAfter0_entries (zones_ok_valves_ok _ lawnAfter0_ok)
              lawnAfter0_keys) as (s' & Hs' & _).
  exists s'. split; [exact Hs'|].
  revert Hs'. vm_compute. intros E. injection E as <-. split; reflexivity.
Defined.

(** ** Pause from Eve Home *)

Lemma pauseUntil_eq nowMs tz pause :
  0 <= nowMs - tz * 60000 ->
  pauseUntil nowMs tz pause
  = nowMs / 1000 + toMidnight nowMs tz / 1000 + (pause - 1) * 86400.
Proof.
  intros HL. unfold pauseUntil, toMidnight.
  rewrite Z.rem_mod_nonneg by lia.
  set (R := (nowMs - tz * 60000) mod 86400000).
  set (a := nowMs / 1000). set (k := (pause - 1) * 86400).
  assert ((inject_Z a + (inject_Z 86400000 - inject_Z R) / inject_Z 60000
           * inject_Z 60 + inject_Z k
           == inject_Z (a * 1000 + (86400000 - R) + k * 1000) / inject_Z 1000)%Q)
    as ->.
  { rewrite !inject_Z_plus, !inject_Z_mult. unfold Z.sub.
    rewrite inject_Z_plus, inject_Z_opp.
    change (inject_Z 1000) with 1000%Q. change (inject_Z 60000) with 60000%Q.
    change (inject_Z 60) with 60%Q. change (inject_Z 86400000) with 86400000%Q.
    field. }
  rewrite <- Zdiv_Qdiv.
  replace (a * 1000 + (86400000 - R) + k * 1000)
    with ((86400000 - R) + (a + k) * 1000) by lia.
  rewrite Z.div_add by lia. lia.
Qed.

(** X19.  The pause time stamp stored for a pause of [pause] days, at a
    local time that is not before 1970, is the second of the next local
    midnight plus [pause - 1] days, less one second unless the request comes
    on a full second. *)
Theorem eve_pause_ends_at_local_midnight (nowMs tzOffset pause : Z) :
  0 <= nowMs - tzOffset * 60000 ->
  (nowMs + toMidnight nowMs tzOffset - tzOffset * 60000) mod 86400000 = 0
  /\ 0 < toMidnight nowMs tzOffset <= 86400000
  /\ pauseUntil nowMs tzOffset pause
     = (nowMs + toMidnight nowMs tzOffset) / 1000 + (pause - 1) * 86400
       - (if nowMs mod 1000 =? 0 then 0 else 1).
Proof.
  intros HL. rewrite pauseUntil_eq by done. unfold toMidnight.
  set (L := nowMs - tzOffset * 60000) in *.
  pose proof (Z.mod_pos_bound L 86400000 ltac:(lia)) as HR.
  pose proof (Z.div_mod L 86400000 ltac:(lia)) as HLd.
  set (R := L mod 86400000) in *. set (Q0 := L / 86400000) in *.
  split; [|split; [lia|]].
  - replace (nowMs + (86400000 - R) - tzOffset * 60000)
      with ((Q0 + 1) * 86400000) by (unfold L in *; lia).
    apply Z.mod_mul. lia.
  - assert (nowMs + (86400000 - R)
            = (86400 * (Q0 + 1) + tzOffset * 60) * 1000) as HM
      by (unfold L in *; lia).
    rewrite HM, Z.div_mul by lia.
    pose proof (Z.div_mod nowMs 1000 ltac:(lia)) as Hn.
    pose proof (Z.mod_pos_bound nowMs 1000 ltac:(lia)) as Hb.
    set (a := nowMs / 1000) in *. set (b := nowMs mod 1000) in *.
    assert (86400000 - R = (86400 * (Q0 + 1) + tzOffset * 60 - a) * 1000 - b)
      as Hr by lia.
    destruct (b =? 0) eqn:Eb.
    + apply Z.eqb_eq in Eb. rewrite Hr, Eb, Z.sub_0_r, Z.div_mul by lia. lia.
    + apply Z.eqb_neq in Eb. rewrite Hr.
      replace ((86400 * (Q0 + 1) + tzOffset * 60 - a) * 1000 - b)
        with ((1000 - b) + (86400 * (Q0 + 1) + tzOffset * 60 - a - 1) * 1000)
        by lia.
      rewrite Z.div_add by lia. rewrite Z.div_small by lia. lia.
Qed.

(** X20.  Read back at once, a pause that was just stored for [pause] days is
    reported as [pause] days only when at least twelve hours are left until
    local midnight; later in the day it is reported as one day less. *)
Theorem eve_pause_reads_back (nowMs tzOffset pause : Z) :
  0 <= nowMs - tzOffset * 60000 ->
  pauseUntil nowMs tzOffset pause <> 0 ->
  pauseShown (pauseUntil nowMs tzOffset pause) (nowMs / 1000)
  = pause - (if 43200 <=? toMidnight nowMs tzOffset / 1000 then 0 else 1).
Proof.
  intros HL Hne. unfold pauseShown.
  rewrite (proj2 (Z.eqb_neq _ _) Hne). cbn [negb].
  rewrite pauseUntil_eq by done. unfold round.
  assert (0 < toMidnight nowMs tzOffset <= 86400000) as Hr.
  { unfold toMidnight.
    pose proof (Z.mod_pos_bound (nowMs - tzOffset * 60000) 86400000 ltac:(lia)).
    lia. }
  set (r1 := toMidnight nowMs tzOffset / 1000).
  assert (0 <= r1 <= 86400) as Hr1.
  { unfold r1. split; [apply Z.div_pos; lia|].
    apply Z.div_le_upper_bound; lia. }
  replace (nowMs / 1000 + r1 + (pause - 1) * 86400 - nowMs / 1000)
    with (r1 + (pause - 1) * 86400) by lia.
  assert ((inject_Z (r1 + (pause - 1) * 86400) / inject_Z 86400 + (1 # 2)
           == inject_Z (2 * r1 + 86400 + (pause - 1) * 172800) / inject_Z 172800)%Q)
    as ->.
  { rewrite !inject_Z_plus, !inject_Z_mult.
    change (inject_Z 86400) with 86400%Q. change (inject_Z 172800) with 172800%Q.
    change (inject_Z 2) with 2%Q. field. }
  rewrite <- Zdiv_Qdiv. rewrite Z.div_add by lia.
  destruct (43200 <=? r1) eqn:E.
  - apply Z.leb_le in E.
    assert ((2 * r1 + 86400) / 172800 = 1) as ->; [|lia].
    symmetry. apply (Z.div_unique _ _ 1 (2 * r1 + 86400 - 172800)); lia.
  - apply Z.leb_gt in E. rewrite Z.div_small by lia. lia.
Qed.

Lemma eve_pause_ends_at_local_midnight_witness :
  0 <= 54000000 - 0 * 60000 /\ pauseUntil 54000000 0 1 = 86400.
Proof.
  assert (0 <= 54000000 - 0 * 60000) as H by (vm_compute; discriminate).
  split; [exact H|].
  destruct (eve_pause_ends_at_local_midnight 54000000 0 1 H) as (_ & _ & E).
  rewrite E. vm_compute. reflexivity.
Defined.

Lemma eve_pause_reads_back_witness :
  pauseShown (pauseUntil 54000000 0 1) (54000000 / 1000) = 0
  /\ pauseShown (pauseUntil 10800000 0 1) (10800000 / 1000) = 1.
Proof.
  split.
  - rewrite (eve_pause_reads_back 54000000 0 1);
      [vm_compute; reflexivity|vm_compute; discriminate|vm_compute; discriminate].
  - rewrite (eve_pause_reads_back 10800000 0 1);
      [vm_compute; reflexivity|vm_compute; discriminate|vm_compute; discriminate].
Defined.

(** ** crc32 *)

Lemma toUint32_toInt32 x : Crc.toUint32 (Crc.toInt32 x) = Crc.toUint32 x.
Proof.
  unfold Crc.toUint32, Crc.toInt32.
  rewrite Zminus_mod_idemp_l.
  replace (x + 2 ^ 31 - 2 ^ 31) with x by lia. done.
Qed.

Lemma toUint32_lxor a b :
  Crc.toUint32 (Z.lxor a b) = Z.lxor (Crc.toUint32 a) (Crc.toUint32 b).
Proof.
  unfold Crc.toUint32. apply Z.bits_inj'. intros i Hi.
  rewrite Z.lxor_spec, !Z.testbit_mod_pow2, Z.lxor_spec by lia.
  by destruct (i <? 32).
Qed.

Lemma toUint32_small x : 0 <= x < 2 ^ 32 -> Crc.toUint32 x = x.
Proof. intros H. unfold Crc.toUint32. by apply Z.mod_small. Qed.

Lemma toUint32_range x : 0 <= Crc.toUint32 x < 2 ^ 32.
Proof. unfold Crc.toUint32. apply Z.mod_pos_bound. lia. Qed.

Lemma crcBit_lxor x y : crcBit (Z.lxor x y) = Z.lxor (crcBit x) (crcBit y).
Proof.
  unfold crcBit. rewrite Z.lxor_spec, Z.shiftr_lxor.
  destruct (Z.testbit x 0), (Z.testbit y 0); simpl.
  - rewrite (Z.lxor_comm (Z.shiftr y 1)), Z.lxor_assoc.
    rewrite <- (Z.lxor_assoc 0xEDB88320), Z.lxor_nilpotent, Z.lxor_0_l. done.
  - rewrite !Z.lxor_assoc. f_equal. apply Z.lxor_comm.
  - by rewrite Z.lxor_assoc.
  - done.
Qed.

Lemma crcBit_b2z (b : bool) : crcBit (Z.b2z b) = if b then 0xEDB88320 else 0.
Proof. by destruct b. Qed.

Lemma shiftr_mod_bit w k :
  0 <= k -> Z.shiftr (w mod 2 ^ (k + 1)) k = Z.b2z (Z.testbit w k).
Proof.
  intros Hk. apply Z.bits_inj'. intros i Hi.
  rewrite Z.shiftr_spec, Z.testbit_mod_pow2 by lia.
  destruct (decide (i = 0)) as [->|Hne].
  - rewrite Z.add_0_l. rewrite (proj2 (Z.ltb_lt k (k + 1))) by lia.
    by destruct (Z.testbit w k).
  - rewrite (proj2 (Z.ltb_ge (i + k) (k + 1))) by lia. simpl.
    destruct (Z.testbit w k); simpl; [|by rewrite Z.bits_0].
    by destruct i as [|[]|].
Qed.

Lemma crcBit_iter k : forall w,
  Nat.iter k crcBit w
  = Z.lxor (Nat.iter k crcBit (w mod 2 ^ Z.of_nat k)) (Z.shiftr w (Z.of_nat k)).
Proof.
  induction k as [|k IH]; intros w.
  - simpl. rewrite Z.mod_1_r, Z.lxor_0_l. done.
  - rewrite Nat2Z.inj_succ, <- Z.add_1_r.
    set (K := Z.of_nat k) in *. assert (0 <= K) as HK by (unfold K; lia).
    change (Nat.iter (S k) crcBit w) with (crcBit (Nat.iter k crcBit w)).
    change (Nat.iter (S k) crcBit (w mod 2 ^ (K + 1)))
      with (crcBit (Nat.iter k crcBit (w mod 2 ^ (K + 1)))).
    rewrite (IH w), (IH (w mod 2 ^ (K + 1))), !crcBit_lxor.
    assert ((w mod 2 ^ (K + 1)) mod 2 ^ K = w mod 2 ^ K) as ->.
    { apply Z.bits_inj'. intros i Hi. rewrite !Z.testbit_mod_pow2 by lia.
      destruct (i <? K) eqn:E; [|done]. apply Z.ltb_lt in E.
      by rewrite (proj2 (Z.ltb_lt i (K + 1))) by lia. }
    rewrite shiftr_mod_bit by done.
    rewrite Z.lxor_assoc. f_equal.
    rewrite crcBit_b2z. unfold crcBit.
    rewrite Z.shiftr_spec by lia. rewrite Z.add_0_l.
    rewrite Z.shiftr_shiftr by lia.
    destruct (Z.testbit w K); [apply Z.lxor_comm|by rewrite Z.lxor_0_l].
Qed.

Lemma table_entries :
  forallb (fun i => Crc.toUint32 (nth i Crc.crc32HashTable 0)
                    =? Nat.iter 8 crcBit (Z.of_nat i))
          (seq 0 256) = true.
Proof. vm_compute. reflexivity. Qed.

Lemma table_entry i :
  0 <= i < 256 ->
  Crc.toUint32 (nth (Z.to_nat i) Crc.crc32HashTable 0) = Nat.iter 8 crcBit i.
Proof.
  intros Hi. pose proof table_entries as H. rewrite forallb_forall in H.
  specialize (H (Z.to_nat i)). rewrite Z2Nat.id in H by lia.
  apply Z.eqb_eq, H, in_seq. lia.
Qed.

Lemma low_byte y : y mod 2 ^ 8 = Crc.toUint32 y mod 2 ^ 8.
Proof.
  unfold Crc.toUint32. apply Z.bits_inj'. intros i Hi.
  rewrite !Z.testbit_mod_pow2 by lia.
  destruct (i <? 8) eqn:E; [|done]. apply Z.ltb_lt in E.
  by rewrite (proj2 (Z.ltb_lt i 32)) by lia.
Qed.

Lemma update_crcByte s b :
  isByte b -> Crc.toUint32 (Crc.update s b) = crcByte (Crc.toUint32 s) b.
Proof.
  intros Hb. unfold isByte in Hb. unfold Crc.update.
  set (u := Crc.toUint32 s).
  assert (0 <= u < 2 ^ 32) as Hu by apply toUint32_range.
  assert (Crc.and32 (Crc.xor32 s b) 0xff = Z.lxor u b mod 2 ^ 8) as ->.
  { unfold Crc.and32, Crc.xor32. change (Crc.toInt32 0xff) with (Z.ones 8).
    rewrite Z.land_ones by lia.
    rewrite (low_byte (Crc.toInt32 _)), toUint32_toInt32, toUint32_lxor,
      !toUint32_toInt32.
    fold u. rewrite (toUint32_small b) by lia.
    rewrite (low_byte (Z.lxor u b)), toUint32_lxor.
    by rewrite (toUint32_small u), (toUint32_small b) by lia. }
  unfold Crc.and32 at 1. change (Crc.toInt32 0xffffffff) with (-1).
  rewrite Z.land_m1_r, toUint32_toInt32.
  unfold Crc.xor32. rewrite toUint32_lxor, !toUint32_toInt32.
  rewrite table_entry by (apply Z.mod_pos_bound; lia).
  unfold Crc.ushr32. fold u.
  assert (0 <= Z.shiftr u 8 < 2 ^ 32) as Hs.
  { rewrite Z.shiftr_div_pow2 by lia. split; [apply Z.div_pos; lia|].
    apply Z.div_lt_upper_bound; lia. }
  rewrite (toUint32_small (Z.shiftr u 8)) by done.
  unfold crcByte. rewrite (crcBit_iter 8 (Z.lxor u b)).
  change (Z.of_nat 8) with 8. f_equal.
  rewrite Z.shiftr_lxor.
  assert (Z.shiftr b 8 = 0) as ->
    by (rewrite Z.shiftr_div_pow2 by lia; apply Z.div_small; lia).
  by rewrite Z.lxor_0_r.
Qed.

Lemma fold_update bytes : forall s,
  Forall isByte bytes ->
  Crc.toUint32 (fold_left Crc.update bytes s)
  = fold_left crcByte bytes (Crc.toUint32 s).
Proof.
  induction bytes as [|b bytes IH]; intros s Hb; simpl; [done|].
  apply Forall_cons in Hb as [Hb Hbs].
  rewrite IH by done. by rewrite update_crcByte.
Qed.

(** X21.  On the bytes of a buffer, [crc32] with its table of 256 entries
    returns the reflected CRC-32 of polynomial 0xEDB88320 computed bit by
    bit, with initial value and final complement 0xFFFFFFFF, as a number
    from 0 to 2^32 - 1. *)
Theorem crc32_is_the_bitwise_crc (bytes : list Z) :
  Forall isByte bytes ->
  Crc.crc32 bytes = crc32Bitwise bytes /\ 0 <= Crc.crc32 bytes < 2 ^ 32.
Proof.
  intros Hb. unfold Crc.crc32. cbv zeta. unfold Crc.ushr32.
  rewrite Z.shiftr_0_r. split; [|apply toUint32_range].
  unfold Crc.xor32. rewrite toUint32_lxor, !toUint32_toInt32.
  rewrite fold_update by done. reflexivity.
Qed.

Lemma digits_are_bytes : Forall isByte [49; 50; 51; 52; 53; 54; 55; 56; 57].
Proof. repeat constructor; unfold isByte; lia. Qed.

Lemma crc32_is_the_bitwise_crc_witness :
  Crc.crc32 [49; 50; 51; 52; 53; 54; 55; 56; 57] = 0xCBF43926.
Proof.
  destruct (crc32_is_the_bitwise_crc [49; 50; 51; 52; 53; 54; 55; 56; 57]
              digits_are_bytes) as [E _].
  rewrite E. vm_compute. reflexivity.
Defined.

(** ** The configuration file *)

Lemma positiveOr0_nonneg {Json} (Number : option Json -> option Q) v :
  (0 <= Config.positiveOr0 Json Number v)%Q.
Proof.
  unfold Config.positiveOr0. destruct (Number v) as [q|]; [|lra].
  destruct (Qle_bool q 0) eqn:E; simpl; [lra|].
  assert (~ (q <= 0)%Q) by (rewrite <- Qle_bool_iff; congruence). lra.
Qed.

Lemma sensorPin_range {Json} (Number : option Json -> option Q) own other p :
  Config.sensorPin Json Number own other = Some p -> (0 <= p <= 26)%Q.
Proof.
  unfold Config.sensorPin. destruct (Number own) as [q|]; [|done].
  destruct (Number other); [|done].
  destruct (Qle_bool 0 q) eqn:E0; [|done]. destruct (Qle_bool q 26) eqn:E1; [|done].
  simpl. intros ?; simplify_eq. by rewrite <- !Qle_bool_iff.
Qed.

(** X22.  Whatever the file holds for a tank and however JavaScript converts
    it to a number, the validated tank has a capacity that is not negative,
    a minimum level between 0 and its sensor height, and sensor pins, when
    it keeps them, from 0 to 26. *)
Theorem loaded_tank_is_consistent {Json : Type}
    (Number : option Json -> option Q) (isTrue : option Json -> bool)
    (tank : Config.RawTank Json) :
  (0 <= Config.capacity (Config.validateTank Json Number isTrue tank))%Q
  /\ (0 <= Config.minimumLevel (Config.validateTank Json Number isTrue tank)
      <= Config.sensorHeight (Config.validateTank Json Number isTrue tank))%Q
  /\ (forall p,
        Config.sensorTrigPin (Config.validateTank Json Number isTrue tank) = Some p
        \/ Config.sensorEchoPin (Config.validateTank Json Number isTrue tank) = Some p ->
        (0 <= p <= 26)%Q).
Proof.
  unfold Config.validateTank. cbv zeta. simpl.
  pose proof (positiveOr0_nonneg Number (Config.r_capacity Json tank)) as Hc.
  pose proof (positiveOr0_nonneg Number (Config.r_sensorHeight Json tank)) as Hh.
  pose proof (positiveOr0_nonneg Number (Config.r_minimumLevel Json tank)) as Hm.
  destruct (Qle_bool _ _) eqn:E; simpl.
  - apply Qle_bool_iff in E. split; [done|]. split; [done|].
    intros p [H|H]; by eapply sensorPin_range.
  - split; [done|]. split; [lra|].
    intros p [H|H]; by eapply sensorPin_range.
Qed.

(** X23.  When the file gives a numeric [options.maxRuntime], the runtime of
    a validated zone is at most that number, and is the zone's own runtime
    when that is within it.  When the file gives none, the runtime is kept as
    it is (300 s when it is not a number), whatever its size: the default
    maximum of 7200 s is not applied. *)
Theorem loaded_runtime_is_capped_by_the_file {Json : Type}
    (Number : option Json -> option Q) (runtime maxRuntime : option Json) :
  (forall m,
      Number maxRuntime = Some m ->
      exists q,
        Config.runtimeNumber Json Number
          (Config.validateRuntime Json Number runtime maxRuntime) = Some q
        /\ (q <= m)%Q
        /\ forall r, Number runtime = Some r -> (r <= m)%Q ->
             Config.validateRuntime Json Number runtime maxRuntime
             = Config.Seconds Json r)
  /\ (Number maxRuntime = None ->
      Config.validateRuntime Json Number runtime maxRuntime
      = Config.Seconds Json
          (match Number runtime with Some q => q | None => 300%Q end)).
Proof.
  unfold Config.validateRuntime. cbv zeta. split.
  - intros m Hm. rewrite Hm.
    destruct (Qle_bool _ m) eqn:E; simpl.
    + apply Qle_bool_iff in E. eexists. split; [reflexivity|]. split; [done|].
      intros r Hr _. by rewrite Hr.
    + exists m. split; [done|]. split; [lra|].
      intros r Hr Hle. rewrite Hr in E.
      apply Qle_bool_iff in Hle. congruence.
  - intros Hm. by rewrite Hm.
Qed.

Lemma loaded_runtime_is_capped_by_the_file_witness :
  Config.runtimeNumber Q (fun v => v)
    (Config.validateRuntime Q (fun v => v) (Some 9000%Q) (Some 7200%Q))
  = Some 7200%Q
  /\ Config.validateRuntime Q (fun v => v) (Some 9000%Q) None
     = Config.Seconds Q 9000%Q.
Proof.
  destruct (loaded_runtime_is_capped_by_the_file (fun v : option Q => v)
              (Some 9000%Q) (Some 7200%Q)) as (H & _).
  destruct (loaded_runtime_is_capped_by_the_file (fun v : option Q => v)
              (Some 9000%Q) None) as (_ & H').
  split; [|exact (H' eq_refl)].
  destruct (H 7200%Q eq_refl) as (q & Hq & _). vm_compute. reflexivity.
Defined.

(** ** A zone request with a system request *)

Lemma startZone_base index zone now s s' :
  startZone index zone now s = Some s' -> base s s'.
Proof.
  intros H. apply startZone_spec in H as (s1 & H1 & Hb & _).
  eapply base_trans; [|exact Hb].
  destruct (numberRunningZones s =? 0)%nat; [subst; apply base_refl|].
  by eapply stopActiveZones_base.
Qed.

Lemma setZoneActive_base index v now s s' :
  setZoneActive index v now s = Some s' -> base s s'.
Proof.
  unfold setZoneActive. intros H.
  destruct (dzones s !! index) as [zone|]; [|simplify_eq; apply base_refl].
  destruct (validValue v); simpl in H; [|simplify_eq; apply base_refl].
  destruct (zones s !! uuid zone); [|simplify_eq; apply base_refl].
  destruct (enabled zone); simpl in H; [|simplify_eq; apply base_refl].
  apply bind_Some in H as (s1 & H1 & H).
  eapply (base_trans _ s1).
  - destruct (power s && isActiveValue v); [|simplify_eq; apply base_refl].
    by eapply startZone_base.
  - destruct (power s1 && isInactiveValue v); [|simplify_eq; apply base_refl].
    by apply stopZone_spec in H as [? _].
Qed.

(** X24.  A batch of one system request followed by one zone request, as
    HomeKit sends when a valve is turned on while the system is off, never
    reaches [setPower]: the power is as before.  The zone request reaches
    [setZoneActive], unless exactly one zone is enabled: then it is dropped
    too and nothing changes but the emptied batch. *)
Theorem lone_zone_request_drops_the_system_request
    (v w : Value) (i : nat) (now : Z) (s : System) :
  activeCheck s = [] -> entries_ok s ->
  exists s' calls,
    activeCheckTimeout now
      (submit [(None, v, system); (Some i, w, valve)] s) = Some (s', calls)
    /\ calls = (if (numberEnabledZones s =? 1)%nat
                then [CallRevertZone (Some i)]
                else [CallSetZoneActive (Some i) w])
    /\ power s' = power s /\ dzones s' = dzones s
    /\ ((numberEnabledZones s =? 1)%nat = true -> zones s' = zones s).
Proof.
  intros Hempty He.
  destruct (submit_spec [(None, v, system); (Some i, w, valve)] s)
    as (Hac & Hz & Hd).
  assert (power (submit [(None, v, system); (Some i, w, valve)] s) = power s)
    as Hp by reflexivity.
  remember (submit [(None, v, system); (Some i, w, valve)] s) as s0 eqn:Hs0.
  rewrite Hempty in Hac. simpl in Hac.
  assert (numberEnabledZones s0 = numberEnabledZones s) as Hn
    by (unfold numberEnabledZones; by rewrite Hz).
  assert (entries_ok s0) as He0.
  { eapply entries_ok_same; [done..|]. intros id. by rewrite Hz. }
  unfold activeCheckTimeout. rewrite Hac.
  match goal with
  | |- context [systemCount ?l] => change (systemCount l) with 1%nat
  end.
  match goal with
  | |- context [valveCount ?l] => change (valveCount l) with 1%nat
  end.
  cbn [processRequests]. unfold processRequest, takesAction. simpl.
  rewrite Hn. destruct (numberEnabledZones s =? 1)%nat eqn:E; simpl.
  - eexists. eexists. split; [reflexivity|]. simpl. done.
  - destruct (setZoneActive_total i w now s0 He0) as [s1 H1].
    rewrite H1. simpl. eexists. eexists. split; [reflexivity|].
    split; [done|]. apply setZoneActive_base in H1 as (Hd1 & Hp1 & _).
    simpl. split; [congruence|]. split; [congruence|done].
Qed.

Lemma lawnOff_entries : entries_ok lawnOff.
Proof. vm_compute. constructor; [by eexists|constructor]. Qed.

Lemma lone_zone_request_drops_the_system_request_witness :
  numberEnabledZones lawnOff = 1%nat
  /\ exists s',
      activeCheckTimeout 0 (submit turnOn1 lawnOff)
      = Some (s', [CallRevertZone (Some 0%nat)])
      /\ power s' = false.
Proof.
  split; [vm_compute; reflexivity|].
  destruct (lone_zone_request_drops_the_system_request (VNum 1) (VNum 1) 0 0
              lawnOff eq_refl lawnOff_entries)
    as (s' & calls & Hs' & Hc & Hp & _).
  exists s'. split; [|exact Hp].
  change (numberEnabledZones lawnOff =? 1)%nat with true in Hc.
  rewrite Hc in Hs'. exact Hs'.
Defined.

(** ** Set-up *)

Lemma newZone_fresh zone rp z : newZone zone rp = Some z -> freshEntry z.
Proof.
  assert (forall ps, Valve.all_closed (newValve <$> ps)) as Hall.
  { intros ps. apply Forall_fmap, Forall_true. intros p. apply new_valve_closed. }
  destruct rp as [|p|ps]; intros H; simplify_eq/=; unfold freshEntry, stoppedEntry;
    simpl; (split; [done|]); (split; [|done]).
  - apply (Hall [p]).
  - apply Hall.
Qed.

Lemma addZones_fold cfg : forall (m : gmap string Zone),
  let m' := foldl (fun m c => match newZone c.1 c.2 with
                              | Some z => <[uuid c.1 := z]> m
                              | None => m
                              end) m cfg in
  (forall id z, m' !! id = Some z ->
                freshEntry z \/ m !! id = Some z)
  /\ (forall id, is_Some (m !! id) -> is_Some (m' !! id))
  /\ (forall c, c ∈ cfg -> c.2 <> NoPin -> is_Some (m' !! uuid c.1))
  /\ (forall id, m !! id = None ->
                 (forall c, c ∈ cfg -> uuid c.1 = id -> c.2 = NoPin) ->
                 m' !! id = None).
Proof.
  induction cfg as [|c cfg IH]; intros m; simpl.
  - split; [by right|]. split; [done|]. split; [|done].
    intros c Hc. by apply elem_of_nil in Hc.
  - set (m1 := match newZone c.1 c.2 with
               | Some z => <[uuid c.1 := z]> m
               | None => m
               end).
    destruct (IH m1) as (H1 & H2 & H3 & H4). split; [|split; [|split]].
    + intros id z Hz. destruct (H1 id z Hz) as [Hf|Hm1]; [by left|].
      unfold m1 in Hm1. destruct (newZone c.1 c.2) as [zn|] eqn:Hn; [|by right].
      rewrite lookup_insert in Hm1. case_decide; [|by right].
      simplify_eq. left. by eapply newZone_fresh.
    + intros id Hid. apply H2. unfold m1.
      destruct (newZone c.1 c.2); [|done].
      rewrite lookup_insert. case_decide; [by eexists|done].
    + intros c0 Hc0 Hp. apply elem_of_cons in Hc0 as [->|Hc0]; [|by apply H3].
      apply H2. unfold m1. destruct c as [zone rp]. simpl in *.
      destruct rp; [done|..]; simpl; rewrite lookup_insert_eq; by eexists.
    + intros id Hid Hno. apply H4.
      * unfold m1. destruct (newZone c.1 c.2) as [zn|] eqn:Hn; [|done].
        rewrite lookup_insert_ne; [done|]. intros E.
        rewrite (Hno c) in Hn; [done|by left|done].
      * intros c0 Hc0. apply Hno. by right.
Qed.

(** X25.  After [addServices] the zone objects are those of the
    configuration; every entry of [#zones] is stopped, with all valves
    closed and empty totals; a zone configured with one relay pin or a list
    of relay pins has an entry, a zone whose uuid comes only without relay
    pin has none; so every zone object has its entry as soon as every zone
    is configured with a relay pin. *)
Theorem addServices_sets_up_the_entries
    (pw : bool) (pause : Z) (alert leak : bool)
    (cfg : list (ZoneConfig * RelayPin)) (ts : list WaterTank.t) :
  dzones (addServices pw pause alert leak cfg ts) = fst <$> cfg
  /\ (forall id z,
        zones (addServices pw pause alert leak cfg ts) !! id = Some z ->
        freshEntry z)
  /\ (forall c, c ∈ cfg -> c.2 <> NoPin ->
        is_Some (zones (addServices pw pause alert leak cfg ts) !! uuid c.1))
  /\ (forall zone,
        (forall c, c ∈ cfg -> uuid c.1 = uuid zone -> c.2 = NoPin) ->
        zones (addServices pw pause alert leak cfg ts) !! uuid zone = None)
  /\ ((forall c, c ∈ cfg -> c.2 <> NoPin) ->
      entries_ok (addServices pw pause alert leak cfg ts)).
Proof.
  destruct (addZones_fold cfg ∅) as (H1 & _ & H3 & H4).
  split; [done|]. split; [|split; [|split]].
  - intros id z Hz. destruct (H1 id z Hz) as [Hf|He]; [done|].
    by rewrite lookup_empty in He.
  - exact H3.
  - intros zone Hno. apply H4; [apply lookup_empty|done].
  - intros Hall. unfold entries_ok. simpl. apply Forall_fmap, Forall_forall.
    intros c Hc. apply H3; [done|by apply Hall].
Qed.

Lemma addServices_sets_up_the_entries_witness :
  entries_ok lawnSystem /\ zones gardenSystem !! uuid ghost = None.
Proof.
  split.
  - destruct (addServices_sets_up_the_entries true 0 false true
                [(lawn, Pins [("v0"%string, 14); ("v1"%string, 15);
                              ("v2"%string, 16)])] [])
      as (_ & _ & _ & _ & H).
    apply H. intros c Hc. apply list_elem_of_singleton in Hc. by subst.
  - destruct (addServices_sets_up_the_entries true 0 false true
                [(lawn, Pins [("v0"%string, 14); ("v1"%string, 15);
                              ("v2"%string, 16)]);
                 (shed, Pin ("s0"%string, 17)); (ghost, NoPin)] [])
      as (_ & _ & _ & H & _).
    apply (H ghost). intros c Hc Hu.
    apply elem_of_cons in Hc as [->|Hc]; [discriminate Hu|].
    apply elem_of_cons in Hc as [->|Hc]; [discriminate Hu|].
    apply list_elem_of_singleton in Hc. by subst.
Defined.
